(** * Neo4j scalability benchmark: a model of the harness and its properties

    The development follows the two scripts of the repository,
    [neo4j_bench.py] (flat schema) and [neo4j_bench_optimized.py]
    (time-partitioned schema).  Each class of the scripts is embedded as
    Rocq functions over explicit state:

    - [SystemMonitor]: snapshots read from a file system that may fail;
    - [DataGenerator]: the two batch generators as resumable generator
      objects, the random source being a sequence of draws;
    - [Neo4jClient._run_batch]: the retry loop over a store whose replies
      are an oracle, with the sleeps and attempts recorded in a world;
    - [Benchmark]: the percentile computation and the multi-threaded
      concurrency test, the latter as an interleaving of worker steps.

    Numbers.  Python [int] is [Z].  Python [float] is idealised as an exact
    number: a rational ([Q]) where the code only adds, multiplies, divides,
    compares and rounds, and a real ([R]) in the workload generator, which
    takes a square root and a power.  Binary64 rounding is outside the
    model, except for the skewed pick of the generator, whose range is
    also established with every operation rounded ([round64]). *)

From Stdlib Require Import ZArith QArith Qround Reals Zfloor Lra Lia.
From Stdlib Require Import List String Ascii Bool Arith DecimalString DecimalPos.
From Stdlib Require Import Sorting.Sorted Sorting.Permutation.
Import ListNotations.

Local Open Scope string_scope.
Local Open Scope Z_scope.

(** ** Exceptions and results *)

(** The exceptions that the modelled code can meet.  [ServiceUnavailable]
    and [TransientError] are the two classes named by the [except] clause
    of [_run_batch]; [Exception] stands for any other exception, and is
    also the class that [_run_batch] raises itself. *)
Inductive exn : Type :=
| ServiceUnavailable (msg : string)
| TransientError (msg : string)
| ValueError
| IndexError
| ZeroDivisionError
| Exception (msg : string).

(** [str(e)] as far as the log line of [_run_batch] needs it. *)
Definition exn_str (e : exn) : string :=
  match e with
  | ServiceUnavailable m | TransientError m | Exception m => m
  | ValueError => "ValueError"
  | IndexError => "IndexError"
  | ZeroDivisionError => "ZeroDivisionError"
  end.

(** A computation either returns a value or raises. *)
Inductive result (A : Type) : Type :=
| Ok (a : A)
| Raise (e : exn).
Arguments Ok {A} a.
Arguments Raise {A} e.

Definition bind {A B : Type} (r : result A) (k : A -> result B) : result B :=
  match r with
  | Ok a => k a
  | Raise e => Raise e
  end.

Notation "x <- c ;; k" := (bind c (fun x => k))
  (at level 61, c at next level, right associativity).

Fixpoint mapM {A B : Type} (f : A -> result B) (l : list A) : result (list B) :=
  match l with
  | [] => Ok []
  | a :: l' => b <- f a ;; bs <- mapM f l' ;; Ok (b :: bs)
  end.

(** ** Python numerics *)

(** [int(x)] on a float: truncation toward zero. *)
Definition int_of_Q (x : Q) : Z :=
  if Qle_bool 0 x then Qfloor x else Qceiling x.

Definition int_of_R (x : R) : Z :=
  if Rle_dec 0 x then Zfloor x else Zceil x.

(** Rounding to the nearest integer, ties to even, as [round] does. *)
Definition round_half_even_Q (x : Q) : Z :=
  let f := Qfloor x in
  let r := (x - inject_Z f)%Q in
  match (r ?= 1 # 2)%Q with
  | Lt => f
  | Gt => f + 1
  | Eq => if Z.even f then f else f + 1
  end.

(** [round(x, 2)]. *)
Definition round2 (x : Q) : Q :=
  (inject_Z (round_half_even_Q (x * 100)) / 100)%Q.

Definition round_half_even_R (x : R) : Z :=
  let f := Zfloor x in
  let r := (x - IZR f)%R in
  if Rlt_dec r (1 / 2) then f
  else if Rlt_dec (1 / 2) r then f + 1
  else if Z.even f then f else f + 1.

Definition round2_R (x : R) : R :=
  (IZR (round_half_even_R (x * 100)) / 100)%R.

(** True division [a / b]: raises on a zero divisor. *)
Definition truediv (a b : Q) : result Q :=
  if Qeq_bool b 0 then Raise ZeroDivisionError else Ok (a / b)%Q.

(** [x ** y] on floats, for a base [x >= 0]: [0.0 ** y] is [0.0] for
    [y > 0] and [1.0] for [y = 0]; a positive base is [exp (y * ln x)]. *)
Definition float_pow (x y : R) : R :=
  if Req_dec_T x 0 then (if Req_dec_T y 0 then 1 else 0)%R
  else Rpower x y.

(** *** Binary64

    Where a statement depends on the rounding of a float operation, the
    operation is taken with its rounding: to the nearest number with a
    significand of 53 bits, ties to the even one.  The range of the
    exponent is left out: the values rounded below lie between 0 and
    [2^53], where nothing overflows, and a result that would underflow
    has the integer part 0 either way. *)

(** The binade of [x <> 0]: the [e] with [2^e <= |x| < 2^(e+1)]. *)
Definition binade (x : R) : Z := Zfloor (ln (Rabs x) / ln 2).

Definition round64 (x : R) : R :=
  if Req_dec_T x 0 then 0%R
  else
    let ulp := powerRZ 2 (binade x - 52) in
    (IZR (round_half_even_R (x / ulp)) * ulp)%R.

(** [x ** y] as computed: the power, correctly rounded. *)
Definition float_pow64 (x y : R) : R := round64 (float_pow x y).

(** [l[i]] on a list, with Python's negative indices. *)
Definition getitem {A : Type} (l : list A) (i : Z) : result A :=
  let n := Z.of_nat (List.length l) in
  let j := if i <? 0 then i + n else i in
  if (0 <=? j) && (j <? n) then
    match nth_error l (Z.to_nat j) with
    | Some a => Ok a
    | None => Raise IndexError
    end
  else Raise IndexError.

(** ** Python strings *)

Definition is_empty (s : string) : bool :=
  match s with EmptyString => true | _ => false end.

(** Line boundaries of [str.splitlines] in the ASCII range. *)
Definition is_linebreak (c : ascii) : bool :=
  match nat_of_ascii c with
  | 10%nat | 11%nat | 12%nat | 13%nat | 28%nat | 29%nat | 30%nat => true
  | _ => false
  end.

(** White space of [str.split()] in the ASCII range. *)
Definition is_space (c : ascii) : bool :=
  match nat_of_ascii c with
  | 9%nat | 10%nat | 11%nat | 12%nat | 13%nat
  | 28%nat | 29%nat | 30%nat | 31%nat | 32%nat => true
  | _ => false
  end.

Definition snoc (s : string) (c : ascii) : string := (s ++ String c "")%string.

(** [cur] is the line read so far; [after_cr] tells that the previous
    character was a carriage return, so that a line feed belongs to it. *)
Fixpoint splitlines_from (cur : string) (after_cr : bool) (s : string) : list string :=
  match s with
  | EmptyString => if is_empty cur then [] else [cur]
  | String c rest =>
      if after_cr && Ascii.eqb c "010" then splitlines_from cur false rest
      else if is_linebreak c then cur :: splitlines_from "" (Ascii.eqb c "013") rest
      else splitlines_from (snoc cur c) false rest
  end.

Definition splitlines (s : string) : list string := splitlines_from "" false s.

Fixpoint split_from (cur : string) (s : string) : list string :=
  match s with
  | EmptyString => if is_empty cur then [] else [cur]
  | String c rest =>
      if is_space c then
        (if is_empty cur then split_from "" rest else cur :: split_from "" rest)
      else split_from (snoc cur c) rest
  end.

(** [s.split()] *)
Definition split (s : string) : list string := split_from "" s.

(** [s.startswith(p)] *)
Definition startswith (s p : string) : bool := String.prefix p s.

(** [sub in s] *)
Fixpoint contains (sub s : string) : bool :=
  String.prefix sub s ||
  match s with
  | EmptyString => false
  | String _ rest => contains sub rest
  end.


Definition digit_of (c : ascii) : option Z :=
  let n := Z.of_nat (nat_of_ascii c) in
  if (48 <=? n) && (n <=? 57) then Some (n - 48) else None.

(** Value of a non-empty run of decimal digits, [acc] being the value of
    the digits already read. *)
Fixpoint digits_from (acc : Z) (s : string) : option Z :=
  match s with
  | EmptyString => Some acc
  | String c rest =>
      match digit_of c with
      | Some d => digits_from (10 * acc + d) rest
      | None => None
      end
  end.

Definition digits (s : string) : option Z :=
  if is_empty s then None else digits_from 0 s.

(** [int(s)] for the literals of the counter files: an optional sign and
    decimal digits.  Anything else is a [ValueError]. *)
Definition int_of_string (s : string) : result Z :=
  let (neg, body) :=
    match s with
    | String "-" r => (true, r)
    | String "+" r => (false, r)
    | _ => (false, s)
    end in
  match digits body with
  | Some n => Ok (if neg then - n else n)
  | None => Raise ValueError
  end.

(** *** [float(s)]

    The literals that [float] accepts in the ASCII range: white space
    around, a sign, digits with at most one point and at least one digit,
    an exponent, and underscores between digits.  The value is the exact
    rational that the literal denotes. *)

Definition is_digit (c : ascii) : bool :=
  match digit_of c with Some _ => true | None => false end.

(** Underscores may group digits: one is accepted between two digits and
    nowhere else, and does not count.  [prev] is the character before. *)
Fixpoint drop_underscores (prev : option ascii) (s : list ascii)
  : option (list ascii) :=
  match s with
  | [] => Some []
  | c :: rest =>
      if Ascii.eqb c "_" then
        match prev, rest with
        | Some p, n :: _ =>
            if is_digit p && is_digit n then drop_underscores (Some c) rest
            else None
        | _, _ => None
        end
      else option_map (cons c) (drop_underscores (Some c) rest)
  end.

(** The white space that [float] strips: that of C's [isspace], which
    is less than what [str.split()] splits at. *)
Definition is_float_space (c : ascii) : bool :=
  match nat_of_ascii c with
  | 9%nat | 10%nat | 11%nat | 12%nat | 13%nat | 32%nat => true
  | _ => false
  end.

Fixpoint lstrip (s : list ascii) : list ascii :=
  match s with
  | c :: rest => if is_float_space c then lstrip rest else s
  | [] => []
  end.

Definition strip (s : list ascii) : list ascii :=
  rev (lstrip (rev (lstrip s))).

(** A leading sign: whether it is a minus, and what follows. *)
Definition take_sign (s : list ascii) : bool * list ascii :=
  match s with
  | "-"%char :: r => (true, r)
  | "+"%char :: r => (false, r)
  | _ => (false, s)
  end.

(** The longest run of digits at the head of [s]: the value of the digits
    read after those of value [acc], their number after [n], and the rest. *)
Fixpoint span_digits (acc : Z) (n : nat) (s : list ascii) : Z * nat * list ascii :=
  match s with
  | c :: rest =>
      match digit_of c with
      | Some d => span_digits (10 * acc + d) (S n) rest
      | None => (acc, n, s)
      end
  | [] => (acc, n, [])
  end.

(** [m * 10 ** e], exactly. *)
Definition scale10 (m e : Z) : Q :=
  if e =? 0 then inject_Z m else (inject_Z m * Qpower 10 e)%Q.

(** An unsigned decimal literal: digits with at most one point and at
    least one digit, then possibly an exponent, which needs a digit. *)
Definition decimal_literal (s : list ascii) : option Q :=
  let '(i, ni, s1) := span_digits 0 0 s in
  let '(m, nf, s2) :=
    match s1 with
    | "."%char :: r => span_digits i 0 r
    | _ => (i, 0%nat, s1)
    end in
  if (ni + nf =? 0)%nat then None
  else
    match s2 with
    | [] => Some (scale10 m (- Z.of_nat nf))
    | c :: r =>
        if Ascii.eqb c "e" || Ascii.eqb c "E" then
          let (neg, r1) := take_sign r in
          let '(x, nx, r2) := span_digits 0 0 r1 in
          match nx, r2 with
          | S _, [] => Some (scale10 m ((if neg then - x else x) - Z.of_nat nf))
          | _, _ => None
          end
        else None
    end.

Definition lower (c : ascii) : ascii :=
  let n := nat_of_ascii c in
  if ((65 <=? n) && (n <=? 90))%nat then ascii_of_nat (n + 32) else c.

(** The words that [float] reads as an infinity or as a NaN, in any
    case of the letters. *)
Definition is_nonfinite_word (s : list ascii) : bool :=
  let w := string_of_list_ascii (map lower s) in
  String.eqb w "inf" || String.eqb w "infinity" || String.eqb w "nan".

(** The result of [float] on a word for an infinity or a NaN: [float]
    returns there, but a float that no rational stands for.  The model
    stops with this marker, which is no exception of the code; a
    statement about what the code raises leaves it out. *)
Definition not_a_rational : exn := Exception "float: inf or nan".

(** [float(s)].  Anything that is no literal is a [ValueError]. *)
Definition float_of_string (s : string) : result Q :=
  match drop_underscores None (list_ascii_of_string s) with
  | None => Raise ValueError
  | Some t =>
      let (neg, body) := take_sign (strip t) in
      if is_nonfinite_word body then Raise not_a_rational
      else
        match decimal_literal body with
        | Some q => Ok (if neg then - q else q)%Q
        | None => Raise ValueError
        end
  end.

Definition sumQ (l : list Q) : Q := fold_left Qplus l 0%Q.

(** ** The host: counter files and clock *)

(** The files of [/proc]: [None] when opening or reading the path fails. *)
Definition filesystem : Type := string -> option string.

(** One snapshot, the dict built by [_capture_stats]. *)
Record snapshot : Type := mkSnapshot {
  time : Q;
  cpu_total : Q;
  cpu_idle : Q;
  disk_read_bytes : Z;
  disk_write_bytes : Z;
  mem_total_kb : Z;
  mem_used_kb : Z
}.

(** The dict returned by [get_metrics]. *)
Record metrics : Type := mkMetrics {
  cpu_load_percent : Q;
  memory_used_gb : Q;
  disk_read_mb_s : Q;
  disk_write_mb_s : Q
}.

(** A [SystemMonitor] object. *)
Record monitor : Type := mkMonitor {
  start_stats : snapshot;
  end_stats : option snapshot
}.

(** ** The store collaborator and the process around it *)

(** What the process has done so far, as far as the retry loop shows:
    the number of [session.run] calls of the import, the arguments of the
    [time.sleep] calls (most recent first) and the lines printed (most
    recent first). *)
Record world : Type := mkWorld {
  attempts : nat;
  slept : list Z;
  printed : list string
}.

Definition fresh : world := {| attempts := 0; slept := []; printed := [] |}.

(** The store collaborator.  The reply to a query may depend on the query,
    on the batch and on how many calls were made before: [None] is a run
    that returns, [Some e] one that raises [e]. *)
Definition store (B : Type) : Type := string -> B -> nat -> option exn.

(** The classes caught by [except (ServiceUnavailable, TransientError)]. *)
Definition is_transient (e : exn) : bool :=
  match e with
  | ServiceUnavailable _ | TransientError _ => true
  | _ => false
  end.

Definition time_sleep (secs : Z) (w : world) : world :=
  {| attempts := attempts w; slept := secs :: slept w; printed := printed w |}.

Definition print (line : string) (w : world) : world :=
  {| attempts := attempts w; slept := slept w; printed := line :: printed w |}.

Definition count_attempt (w : world) : world :=
  {| attempts := S (attempts w); slept := slept w; printed := printed w |}.

(** How a call of [_run_batch] ends: what it returns or raises, the value
    of its local [retries] at that point, and the world it leaves. *)
Record ending : Type := mkEnding {
  outcome : result unit;
  retries_left : nat;
  world_after : world
}.

(** Seconds spent in [time.sleep]. *)
Definition total_sleep (w : world) : Z := fold_right Z.add 0 (slept w).

(** ** Sorting

    [list.sort()] is a stable sort; on numbers its result is the ascending
    arrangement of the list.  It is modelled by a stable insertion sort. *)

Fixpoint insert (x : Q) (l : list Q) : list Q :=
  match l with
  | [] => [x]
  | y :: l' => if Qle_bool x y then x :: l else y :: insert x l'
  end.

Definition sort (l : list Q) : list Q := fold_right insert [] l.

(** ** Threads

    The concurrency test runs one Python function in several threads over
    a shared dict [results] and a shared [threading.Event].  A thread is
    at one of the points below; between two points it runs alone, and at
    each point the interpreter may switch to another thread.  An
    augmented assignment [results[k] += 1] reads the item, adds, and
    stores the sum back: the read and the store are two points. *)

Inductive pc : Type :=
| AtCheck                  (* [while not stop_event.is_set()] *)
| AtCall                   (* [session.run(...).consume()] *)
| AtLoadOps                (* reads [results["ops"]] *)
| AtStoreOps (v : Z)       (* stores [v] into [results["ops"]] *)
| AtLoadErrors             (* reads [results["errors"]] *)
| AtStoreErrors (v : Z)    (* stores [v] into [results["errors"]] *)
| Exited.

(** A worker thread: where it is, and how many of its lookups have
    returned and how many have raised so far. *)
Record worker : Type := mkWorker {
  at_pc : pc;
  succeeded : Z;
  failed : Z
}.

(** The dict [results]. *)
Record counters : Type := mkCounters {
  ops : Z;
  errors : Z
}.

Record system : Type := mkSystem {
  results : counters;
  stop_event : bool;
  pool : list worker
}.

(** What happens next: thread [t] runs to its next point, [reply] telling
    whether its store call returns (used at [AtCall] only); or the main
    thread wakes up and sets the stop event. *)
Inductive event : Type :=
| Run (t : nat) (reply : bool)
| SetStop.

Fixpoint set_nth {A : Type} (n : nat) (a : A) (l : list A) : list A :=
  match l, n with
  | [], _ => []
  | _ :: l', O => a :: l'
  | x :: l', S n' => x :: set_nth n' a l'
  end.

Definition is_exited (w : worker) : bool :=
  match at_pc w with Exited => true | _ => false end.

Definition sumZ (l : list Z) : Z := fold_right Z.add 0 l.

(** * [neo4j_bench.py]: the flat schema *)

Module Flat.

(** ** SystemMonitor *)

(** The bare [except] turns every failure of [open] or [read] into the
    empty string. *)
Definition _read_proc_file (fs : filesystem) (path : string) : string :=
  match fs path with
  | Some content => content
  | None => ""
  end.

(** The loop of [_get_cpu_times] over the lines of [/proc/stat]. *)
Fixpoint cpu_times_of (lines : list string) : result (Q * Q) :=
  match lines with
  | [] => Ok (0%Q, 0%Q)
  | line :: rest =>
      if startswith line "cpu " then
        let parts := split line in
        values <- mapM float_of_string (tl parts) ;;
        let total := sumQ values in
        idle <- getitem values 3 ;;
        Ok (total, idle)
      else cpu_times_of rest
  end.

Definition _get_cpu_times (fs : filesystem) : result (Q * Q) :=
  let content := _read_proc_file fs "/proc/stat" in
  cpu_times_of (splitlines content).

Definition is_disk (dev_name : string) : bool :=
  existsb (fun x => contains x dev_name) ["nvme"; "sd"; "vd"; "xvd"].

(** The loop of [_get_disk_io], with its two running sums. *)
Fixpoint disk_io_of (lines : list string) (read_sectors write_sectors : Z)
  : result (Z * Z) :=
  match lines with
  | [] => Ok (read_sectors * 512, write_sectors * 512)
  | line :: rest =>
      let parts := split line in
      if (List.length parts <? 14)%nat then disk_io_of rest read_sectors write_sectors
      else
        dev_name <- getitem parts 2 ;;
        if is_disk dev_name then
          p5 <- getitem parts 5 ;;
          r <- int_of_string p5 ;;
          p9 <- getitem parts 9 ;;
          w <- int_of_string p9 ;;
          disk_io_of rest (read_sectors + r) (write_sectors + w)
        else disk_io_of rest read_sectors write_sectors
  end.

Definition _get_disk_io (fs : filesystem) : result (Z * Z) :=
  let content := _read_proc_file fs "/proc/diskstats" in
  disk_io_of (splitlines content) 0 0.

Definition second_field (line : string) : result Z :=
  p1 <- getitem (split line) 1 ;; int_of_string p1.

(** The loop of [_get_mem_info], with its two variables. *)
Fixpoint mem_info_of (lines : list string) (mem_total mem_avail : Z)
  : result (Z * Z) :=
  match lines with
  | [] => Ok (mem_total, mem_total - mem_avail)
  | line :: rest =>
      mem_total' <- (if contains "MemTotal" line then second_field line
                     else Ok mem_total) ;;
      mem_avail' <- (if contains "MemAvailable" line then second_field line
                     else Ok mem_avail) ;;
      mem_info_of rest mem_total' mem_avail'
  end.

Definition _get_mem_info (fs : filesystem) : result (Z * Z) :=
  let content := _read_proc_file fs "/proc/meminfo" in
  mem_info_of (splitlines content) 0 0.

(** [now] is the value of [time.time()] at the capture. *)
Definition _capture_stats (fs : filesystem) (now : Q) : result snapshot :=
  cpu <- _get_cpu_times fs ;;
  disk <- _get_disk_io fs ;;
  mem <- _get_mem_info fs ;;
  Ok {| time := now;
        cpu_total := fst cpu;
        cpu_idle := snd cpu;
        disk_read_bytes := fst disk;
        disk_write_bytes := snd disk;
        mem_total_kb := fst mem;
        mem_used_kb := snd mem |}.

(** [SystemMonitor()] *)
Definition init (fs : filesystem) (now : Q) : result monitor :=
  s <- _capture_stats fs now ;;
  Ok {| start_stats := s; end_stats := None |}.

Definition stop (fs : filesystem) (now : Q) (m : monitor) : result monitor :=
  s <- _capture_stats fs now ;;
  Ok {| start_stats := start_stats m; end_stats := Some s |}.

(** The duration that the throughput is divided by. *)
Definition effective_duration (s e : snapshot) : Q :=
  let duration := (time e - time s)%Q in
  if Qle_bool duration 0 then 1%Q else duration.

(** The local [cpu_load_pct] of [get_metrics]. *)
Definition cpu_load_pct (s e : snapshot) : result Q :=
  let delta_total := (cpu_total e - cpu_total s)%Q in
  let delta_idle := (cpu_idle e - cpu_idle s)%Q in
  if Qlt_le_dec 0 delta_total then
    q <- truediv delta_idle delta_total ;;
    Ok (100 * (1 - q))%Q
  else Ok 0%Q.

(** The body of [get_metrics] once both snapshots are there. *)
Definition metrics_of (s e : snapshot) : result metrics :=
  let duration := effective_duration s e in
  load <- cpu_load_pct s e ;;
  let read_bytes := disk_read_bytes e - disk_read_bytes s in
  let write_bytes := disk_write_bytes e - disk_write_bytes s in
  mem <- truediv (inject_Z (mem_used_kb e)) (inject_Z (1024 * 1024)) ;;
  rd <- truediv (inject_Z read_bytes) duration ;;
  rd' <- truediv rd (inject_Z (1024 * 1024)) ;;
  wr <- truediv (inject_Z write_bytes) duration ;;
  wr' <- truediv wr (inject_Z (1024 * 1024)) ;;
  Ok {| cpu_load_percent := round2 load;
        memory_used_gb := round2 mem;
        disk_read_mb_s := round2 rd';
        disk_write_mb_s := round2 wr' |}.

(** [get_metrics]: stops the monitor first when it was not stopped; the
    monitor is returned with the metrics, since [stop] updates it. *)
Definition get_metrics (fs : filesystem) (now : Q) (m : monitor)
  : result (metrics * monitor) :=
  m' <- (match end_stats m with
         | Some _ => Ok m
         | None => stop fs now m
         end) ;;
  match end_stats m' with
  | Some e => r <- metrics_of (start_stats m') e ;; Ok (r, m')
  | None => Raise (Exception "end_stats is None")
  end.

(** ** DataGenerator *)

(** Skew factor of the Zipfian-like distribution. *)
Definition ZIPF_SKEW : R := 2%R.

Definition YEAR_SECONDS : Z := 365 * 24 * 3600.

Record account : Type := mkAccount {
  acc_id : Z;
  acc_name : string;
  acc_type : string;
  acc_created_at : Z
}.

Record transaction : Type := mkTransaction {
  id : Z;
  amount : R;
  ts : Z;
  currency : string;
  status : string;
  from_acc : Z;
  to_acc : Z
}.

Record DataGenerator : Type := mkDataGenerator {
  num_accounts : Z;
  num_transactions : Z;
  start_time : Z
}.

(** [DataGenerator(num_accounts, num_transactions)] at clock value [now]. *)
Definition new_generator (accounts transactions : Z) (now : Q) : DataGenerator :=
  {| num_accounts := accounts;
     num_transactions := transactions;
     start_time := int_of_Q now - YEAR_SECONDS |}.

(** *** Generator objects

    Both generator functions have the same shape: a [for] loop over
    [range(count)] that appends one record to the local [batch], yields
    the batch when it has reached [batch_size] and starts a new one, and
    a last [yield] after the loop, guarded by [if batch].  A generator
    object is the frame at which the function is suspended. *)
Section Generator.

Context {A : Type}.

(** The record appended at iteration [i]. *)
Variable body : nat -> A.
Variable count : Z.
Variable batch_size : Z.

Inductive frame : Type :=
| AtLoop (i : nat) (batch : list A)  (* about to run iteration [i] *)
| AtTail                             (* suspended at the last [yield] *)
| Finished.                          (* returned: [StopIteration] *)

(** Runs the loop from iteration [i], [remaining] iterations being left,
    up to the next [yield] or the end of the function. *)
Fixpoint resume_loop (remaining i : nat) (batch : list A)
  : option (list A) * frame :=
  match remaining with
  | O =>
      match batch with
      | [] => (None, Finished)
      | _ :: _ => (Some batch, AtTail)
      end
  | S remaining' =>
      let batch' := (batch ++ [body i])%list in
      if Z.of_nat (List.length batch') >=? batch_size
      then (Some batch', AtLoop (S i) [])
      else resume_loop remaining' (S i) batch'
  end.

(** [next(gen)]: [None] is [StopIteration]. *)
Definition next (f : frame) : option (list A) * frame :=
  match f with
  | AtLoop i batch => resume_loop (Z.to_nat count - i) i batch
  | AtTail => (None, Finished)
  | Finished => (None, Finished)
  end.

(** The batches that the loop still has to yield from iteration [i] on,
    all at once: what [list(gen)] would return. *)
Fixpoint drain (remaining i : nat) (batch : list A) : list (list A) :=
  match remaining with
  | O =>
      match batch with
      | [] => []
      | _ :: _ => [batch]
      end
  | S remaining' =>
      let batch' := (batch ++ [body i])%list in
      if Z.of_nat (List.length batch') >=? batch_size
      then batch' :: drain remaining' (S i) []
      else drain remaining' (S i) batch'
  end.

(** A call of the generator function: nothing has run yet. *)
Definition start : frame := AtLoop 0 [].

End Generator.

Arguments AtTail {A}.
Arguments Finished {A}.
Arguments start {A}.

(** [for batch in gen], collecting the batches: calls [next(gen)], here
    [nxt], until [StopIteration], at most [fuel] times.  The frame
    returned is the one the generator object is left in. *)
Fixpoint consume {A : Type} (nxt : @frame A -> option (list A) * @frame A)
  (fuel : nat) (f : @frame A) : list (list A) * @frame A :=
  match fuel with
  | O => ([], f)
  | S fuel' =>
      match nxt f with
      | (Some batch, f') =>
          let (rest, f'') := consume nxt fuel' f' in (batch :: rest, f'')
      | (None, f') => ([], f')
      end
  end.

(** What the batching promises about the batches made of [records]: they
    are the records in order, no batch is empty, and every batch but the
    last has [batch_size] records. *)
Definition batched {A : Type} (records : list A) (batch_size : Z)
  (batches : list (list A)) : Prop :=
  List.concat batches = records /\
  forall k b, nth_error batches k = Some b ->
    b <> [] /\
    ((S k < List.length batches)%nat -> Z.of_nat (List.length b) = batch_size).

(** [f"Acc_{i}"] *)
Definition account_name (i : Z) : string :=
  ("Acc_" ++ NilZero.string_of_int (Z.to_int i))%string.

(** The dict appended by iteration [i] of [generate_accounts]; [randint k]
    is the value of the [k]-th call of [random.randint(0, 30*24*3600)]. *)
Definition account_of (g : DataGenerator) (randint : nat -> Z) (i : nat) : account :=
  let i' := Z.of_nat i in
  {| acc_id := i';
     acc_name := account_name i';
     acc_type := if negb (i' mod 10 =? 0) then "Standard" else "Premium";
     acc_created_at := start_time g + randint i |}.

Definition generate_accounts (g : DataGenerator) (randint : nat -> Z)
  (batch_size : Z) (f : frame) : option (list account) * frame :=
  next (account_of g randint) (num_accounts g) batch_size f.

(** The expression [int(accounts * (u ** ZIPF_SKEW))] in exact
    arithmetic, with the exponent of the source. *)
Definition pick_skewed (accounts : Z) (u : R) : Z :=
  int_of_R (IZR accounts * float_pow u ZIPF_SKEW).

(** [_pick_account_id], [u] being the value of [random.random()]. *)
Definition _pick_account_id (g : DataGenerator) (u : R) : Z :=
  pick_skewed (num_accounts g) u.

(** The same expression as the interpreter evaluates it, were the
    constant [ZIPF_SKEW] set to [skew]: the power is rounded, the int is
    converted to a float and the product is rounded, before [int]
    truncates. *)
Definition pick_skewed64 (skew : R) (accounts : Z) (u : R) : Z :=
  int_of_R (round64 (round64 (IZR accounts) * float_pow64 u skew)).

(** The temporal skew of [generate_transactions]. *)
Definition time_offset (u : R) : Z :=
  int_of_R (IZR YEAR_SECONDS * sqrt u).

(** [random.uniform(a, b)] is [a + (b - a) * random()]. *)
Definition uniform (a b u : R) : R := (a + (b - a) * u)%R.

(** The dict appended by iteration [i] of [generate_transactions];
    [random k] is the value of the [k]-th call of [random.random()], and an
    iteration makes four of them, in the order of the source. *)
Definition transaction_of (g : DataGenerator) (random : nat -> R) (i : nat)
  : transaction :=
  let offset := time_offset (random (4 * i)%nat) in
  {| id := Z.of_nat i;
     amount := round2_R (uniform 1 10000 (random (4 * i + 1)%nat));
     ts := start_time g + offset;
     currency := "USD";
     status := "COMPLETED";
     from_acc := _pick_account_id g (random (4 * i + 2)%nat);
     to_acc := _pick_account_id g (random (4 * i + 3)%nat) |}.

Definition generate_transactions (g : DataGenerator) (random : nat -> R)
  (batch_size : Z) (f : frame) : option (list transaction) * frame :=
  next (transaction_of g random) (num_transactions g) batch_size f.

(** ** Neo4jClient *)

Section RunBatch.

Context {B : Type}.
Variable db : store B.
Variable query : string.
Variable batch : B.

(** The [while retries > 0] loop; [retries] only goes down, one by one,
    so the loop is a recursion on it. *)
Fixpoint retry_loop (retries : nat) (w : world) : ending :=
  match retries with
  | O =>
      {| outcome := Raise (Exception "Failed to import batch after retries");
         retries_left := 0;
         world_after := w |}
  | S retries' =>
      match db query batch (attempts w) with
      | None =>
          {| outcome := Ok tt;
             retries_left := retries;
             world_after := count_attempt w |}
      | Some e =>
          if is_transient e then
            let w1 := count_attempt w in
            let w2 := print ("Warn: Retrying batch due to " ++ exn_str e ++ "...") w1 in
            let w3 := time_sleep 2 w2 in
            retry_loop retries' w3
          else
            {| outcome := Raise e;
               retries_left := retries;
               world_after := count_attempt w |}
      end
  end.

Definition _run_batch (w : world) : ending := retry_loop 3 w.

End RunBatch.

Definition import_accounts (db : store (list account)) (batch : list account)
  (w : world) : ending :=
  let query := "
        UNWIND $batch AS row
        CREATE (a:Account {
            id: row.id,
            name: row.name,
            type: row.type,
            created_at: row.created_at
        })
        " in
  _run_batch db query batch w.

Definition import_transactions (db : store (list transaction))
  (batch : list transaction) (w : world) : ending :=
  let query := "
        UNWIND $batch AS row
        MATCH (from:Account {id: row.from_acc})
        MATCH (to:Account {id: row.to_acc})
        CREATE (t:Transaction {
            id: row.id,
            amount: row.amount,
            ts: row.ts,
            currency: row.currency,
            status: row.status
        })
        CREATE (t)-[:FROM]->(from)
        CREATE (t)-[:TO]->(to)
        " in
  _run_batch db query batch w.

(** ** Benchmark *)

(** [_calc_percentiles]: the dict is the list of its items, in insertion
    order; [{}] is the empty list.  (The source sorts the caller's list in
    place; the callers do not use it afterwards.) *)
Definition _calc_percentiles (data : list Q) : result (list (string * Q)) :=
  match data with
  | [] => Ok []
  | _ :: _ =>
      let data := sort data in
      let n := inject_Z (Z.of_nat (List.length data)) in
      p50 <- getitem data (int_of_Q (n * (5 # 10))) ;;
      p90 <- getitem data (int_of_Q (n * (9 # 10))) ;;
      p99 <- getitem data (int_of_Q (n * (99 # 100))) ;;
      Ok [("p50_ms", p50); ("p90_ms", p90); ("p99_ms", p99)]
  end.

(** One step of the function [worker] of [run_concurrency_test], from one
    point to the next.  [None]: the thread has exited and cannot run. *)
Definition worker_step (reply : bool) (res : counters) (stop : bool) (w : worker)
  : option (counters * worker) :=
  match at_pc w with
  | AtCheck =>
      if stop
      then Some (res, {| at_pc := Exited; succeeded := succeeded w; failed := failed w |})
      else Some (res, {| at_pc := AtCall; succeeded := succeeded w; failed := failed w |})
  | AtCall =>
      if reply
      then Some (res, {| at_pc := AtLoadOps; succeeded := succeeded w + 1; failed := failed w |})
      else Some (res, {| at_pc := AtLoadErrors; succeeded := succeeded w; failed := failed w + 1 |})
  | AtLoadOps =>
      Some (res, {| at_pc := AtStoreOps (ops res + 1);
                    succeeded := succeeded w; failed := failed w |})
  | AtStoreOps v =>
      Some ({| ops := v; errors := errors res |},
            {| at_pc := AtCheck; succeeded := succeeded w; failed := failed w |})
  | AtLoadErrors =>
      Some (res, {| at_pc := AtStoreErrors (errors res + 1);
                    succeeded := succeeded w; failed := failed w |})
  | AtStoreErrors v =>
      Some ({| ops := ops res; errors := v |},
            {| at_pc := AtCheck; succeeded := succeeded w; failed := failed w |})
  | Exited => None
  end.

Definition step (ev : event) (s : system) : option system :=
  match ev with
  | SetStop =>
      Some {| results := results s; stop_event := true; pool := pool s |}
  | Run t reply =>
      match nth_error (pool s) t with
      | None => None
      | Some w =>
          match worker_step reply (results s) (stop_event s) w with
          | None => None
          | Some (res, w') =>
              Some {| results := res;
                      stop_event := stop_event s;
                      pool := set_nth t w' (pool s) |}
          end
      end
  end.

(** An interleaving: the events in the order in which they happen. *)
Fixpoint exec (schedule : list event) (s : system) : option system :=
  match schedule with
  | [] => Some s
  | ev :: rest =>
      match step ev s with
      | Some s' => exec rest s'
      | None => None
      end
  end.

(** The state once the [threads] workers are created. *)
Definition spawn (threads : nat) : system :=
  {| results := {| ops := 0; errors := 0 |};
     stop_event := false;
     pool := repeat {| at_pc := AtCheck; succeeded := 0; failed := 0 |} threads |}.

(** All threads have been joined. *)
Definition joined (s : system) : bool := forallb is_exited (pool s).

(** [run_concurrency_test] along one interleaving: the final state and
    the value returned, or [None] when the interleaving is not a whole run
    (a thread is scheduled that cannot run, or a thread is still running
    at the end).  [time.sleep] raises [ValueError] for a negative length:
    the function is then left before the event is set and before any
    thread is joined, the threads being where the interleaving has
    brought them. *)
Definition run_concurrency_test (threads : nat) (duration_sec : Q)
  (schedule : list event) : option (system * result Q) :=
  match exec schedule (spawn threads) with
  | Some s =>
      if Qle_bool 0 duration_sec then
        if stop_event s && joined s
        then Some (s, truediv (inject_Z (ops (results s))) duration_sec)
        else None
      else
        if stop_event s then None else Some (s, Raise ValueError)
  | None => None
  end.

(** [run_write_test]: the rows of the extra batch.  [clock i] is the value
    of [time.time()] in iteration [i]; an iteration draws twice from
    [random.random()]. *)
Record write_row : Type := mkWriteRow {
  w_id : Z;
  w_ts : Z;
  w_from_acc : Z;
  w_to_acc : Z
}.

(** The local [offset_id]. *)
Definition OFFSET_ID : Z := 2000000000.

Definition write_row_of (gen : DataGenerator) (clock : nat -> Q)
  (random : nat -> R) (i : nat) : write_row :=
  {| w_id := OFFSET_ID + Z.of_nat i;
     w_ts := int_of_Q (clock i);
     w_from_acc := _pick_account_id gen (random (2 * i)%nat);
     w_to_acc := _pick_account_id gen (random (2 * i + 1)%nat) |}.

Definition write_batch (gen : DataGenerator) (clock : nat -> Q)
  (random : nat -> R) (count : Z) : list write_row :=
  map (write_row_of gen clock random) (seq 0 (Z.to_nat count)).

(** [run_write_test] on a benchmark for [accounts] accounts: [now] is the
    clock when the generator is created, [started] and [finished] are the
    two readings of [time.perf_counter()].  The batch is sent with a
    plain [session.run], outside [_run_batch]. *)
Definition run_write_test (db : store (list write_row)) (accounts count : Z)
  (now : Q) (clock : nat -> Q) (random : nat -> R) (started finished : Q)
  (w : world) : result Q * world :=
  let query := "
        UNWIND $batch AS row
        MATCH (from:Account {id: row.from_acc})
        MATCH (to:Account {id: row.to_acc})
        CREATE (t:Transaction {id: row.id, ts: row.ts})
        CREATE (t)-[:FROM]->(from)
        CREATE (t)-[:TO]->(to)
        " in
  let gen := new_generator accounts count now in
  let batch := write_batch gen clock random count in
  match db query batch (attempts w) with
  | Some e => (Raise e, count_attempt w)
  | None =>
      let duration := (finished - started)%Q in
      (truediv (inject_Z count) duration, count_attempt w)
  end.

(** [random.randint(a, b)], [draw] being the number drawn: an empty
    range is a [ValueError]. *)
Definition randint_in (a b : Z) (draw : Z) : result Z :=
  if b <? a then Raise ValueError else Ok draw.

(** The sampling loop shared by [run_read_latency_test] and
    [run_multihop_test]: [draws i] is the account drawn in iteration [i],
    [perf k] the [k]-th reading of [time.perf_counter()]; the loop is
    left by the first exception. *)
Fixpoint latency_loop (db : store Z) (query : string) (accounts : Z)
  (draws : nat -> Z) (perf : nat -> Q) (remaining i : nat)
  (latencies : list Q) (w : world) : result (list Q) * world :=
  match remaining with
  | O => (Ok latencies, w)
  | S remaining' =>
      match randint_in 0 (accounts - 1) (draws i) with
      | Raise e => (Raise e, w)
      | Ok aid =>
          let t0 := perf (2 * i)%nat in
          match db query aid (attempts w) with
          | Some e => (Raise e, count_attempt w)
          | None =>
              let t1 := perf (2 * i + 1)%nat in
              latency_loop db query accounts draws perf remaining' (S i)
                (latencies ++ [((t1 - t0) * 1000)%Q])%list (count_attempt w)
          end
      end
  end.

Definition run_read_latency_test (db : store Z) (accounts samples : Z)
  (draws : nat -> Z) (perf : nat -> Q) (w : world)
  : result (list (string * Q)) * world :=
  let query := "
        MATCH (a:Account {id: $aid})<-[:FROM|TO]-(t:Transaction)
        RETURN t.id, t.amount, t.ts
        ORDER BY t.ts DESC LIMIT 20
        " in
  match latency_loop db query accounts draws perf (Z.to_nat samples) 0 [] w with
  | (Ok latencies, w') => (_calc_percentiles latencies, w')
  | (Raise e, w') => (Raise e, w')
  end.

Definition run_multihop_test (db : store Z) (accounts samples : Z)
  (draws : nat -> Z) (perf : nat -> Q) (w : world)
  : result (list (string * Q)) * world :=
  let query := "
        MATCH (a:Account {id: $aid})<-[:FROM]-(t1:Transaction)-[:TO]->(b:Account)<-[:FROM]-(t2:Transaction)
        RETURN count(t2)
        LIMIT 100
        " in
  match latency_loop db query accounts draws perf (Z.to_nat samples) 0 [] w with
  | (Ok latencies, w') => (_calc_percentiles latencies, w')
  | (Raise e, w') => (Raise e, w')
  end.

(** ** main: the import phase *)

(** The progress line of the import loops. *)
Definition progress_line (count : Z) (what : string) : string :=
  ("  Imported " ++ NilZero.string_of_int (Z.to_int count) ++ " " ++ what ++ "...")%string.

(** The loop [for batch in gen: import(batch); count += len(batch)] of
    [main], with its progress line every 100000 records.  An exception of
    the import leaves the loop, the generator staying suspended.  [None]:
    the fuel ran out before the generator was exhausted. *)
Fixpoint import_loop {A : Type} (nxt : @frame A -> option (list A) * @frame A)
  (import : list A -> world -> ending) (what : string)
  (fuel : nat) (f : @frame A) (count : Z) (w : world)
  : option (result Z * @frame A * world) :=
  match fuel with
  | O => None
  | S fuel' =>
      match nxt f with
      | (None, f') => Some (Ok count, f', w)
      | (Some batch, f') =>
          let e := import batch w in
          match outcome e with
          | Raise x => Some (Raise x, f', world_after e)
          | Ok _ =>
              let count' := count + Z.of_nat (List.length batch) in
              let w' := if count' mod 100000 =? 0
                        then print (progress_line count' what) (world_after e)
                        else world_after e in
              import_loop nxt import what fuel' f' count' w'
          end
      end
  end.

(** The two import loops of [main]. *)
Definition import_all_accounts (db : store (list account)) (g : DataGenerator)
  (randint : nat -> Z) (batch_size : Z) (fuel : nat) (w : world)
  : option (result Z * @frame account * world) :=
  import_loop (generate_accounts g randint batch_size) (import_accounts db)
    "accounts" fuel start 0 w.

Definition import_all_transactions (db : store (list transaction))
  (g : DataGenerator) (random : nat -> R) (batch_size : Z) (fuel : nat)
  (w : world) : option (result Z * @frame transaction * world) :=
  import_loop (generate_transactions g random batch_size) (import_transactions db)
    "transactions" fuel start 0 w.

End Flat.

(** * [neo4j_bench_optimized.py]: the time-partitioned schema

    The script repeats the monitor, the retry loop, the percentile
    computation and the concurrency test of the flat script; they are
    embedded again from its own text. *)

Module Optimized.

(** ** SystemMonitor *)

(** The bare [except] turns every failure of [open] or [read] into the
    empty string. *)
Definition _read_proc_file (fs : filesystem) (path : string) : string :=
  match fs path with
  | Some content => content
  | None => ""
  end.

(** The loop of [_get_cpu_times] over the lines of [/proc/stat]. *)
Fixpoint cpu_times_of (lines : list string) : result (Q * Q) :=
  match lines with
  | [] => Ok (0%Q, 0%Q)
  | line :: rest =>
      if startswith line "cpu " then
        let parts := split line in
        values <- mapM float_of_string (tl parts) ;;
        let total := sumQ values in
        idle <- getitem values 3 ;;
        Ok (total, idle)
      else cpu_times_of rest
  end.

Definition _get_cpu_times (fs : filesystem) : result (Q * Q) :=
  let content := _read_proc_file fs "/proc/stat" in
  cpu_times_of (splitlines content).

Definition is_disk (dev_name : string) : bool :=
  existsb (fun x => contains x dev_name) ["nvme"; "sd"; "vd"; "xvd"].

(** The loop of [_get_disk_io], with its two running sums. *)
Fixpoint disk_io_of (lines : list string) (read_sectors write_sectors : Z)
  : result (Z * Z) :=
  match lines with
  | [] => Ok (read_sectors * 512, write_sectors * 512)
  | line :: rest =>
      let parts := split line in
      if (List.length parts <? 14)%nat then disk_io_of rest read_sectors write_sectors
      else
        dev_name <- getitem parts 2 ;;
        if is_disk dev_name then
          p5 <- getitem parts 5 ;;
          r <- int_of_string p5 ;;
          p9 <- getitem parts 9 ;;
          w <- int_of_string p9 ;;
          disk_io_of rest (read_sectors + r) (write_sectors + w)
        else disk_io_of rest read_sectors write_sectors
  end.

Definition _get_disk_io (fs : filesystem) : result (Z * Z) :=
  let content := _read_proc_file fs "/proc/diskstats" in
  disk_io_of (splitlines content) 0 0.

Definition second_field (line : string) : result Z :=
  p1 <- getitem (split line) 1 ;; int_of_string p1.

(** The loop of [_get_mem_info], with its two variables. *)
Fixpoint mem_info_of (lines : list string) (mem_total mem_avail : Z)
  : result (Z * Z) :=
  match lines with
  | [] => Ok (mem_total, mem_total - mem_avail)
  | line :: rest =>
      mem_total' <- (if contains "MemTotal" line then second_field line
                     else Ok mem_total) ;;
      mem_avail' <- (if contains "MemAvailable" line then second_field line
                     else Ok mem_avail) ;;
      mem_info_of rest mem_total' mem_avail'
  end.

Definition _get_mem_info (fs : filesystem) : result (Z * Z) :=
  let content := _read_proc_file fs "/proc/meminfo" in
  mem_info_of (splitlines content) 0 0.

(** [now] is the value of [time.time()] at the capture. *)
Definition _capture_stats (fs : filesystem) (now : Q) : result snapshot :=
  cpu <- _get_cpu_times fs ;;
  disk <- _get_disk_io fs ;;
  mem <- _get_mem_info fs ;;
  Ok {| time := now;
        cpu_total := fst cpu;
        cpu_idle := snd cpu;
        disk_read_bytes := fst disk;
        disk_write_bytes := snd disk;
        mem_total_kb := fst mem;
        mem_used_kb := snd mem |}.

(** [SystemMonitor()] *)
Definition init (fs : filesystem) (now : Q) : result monitor :=
  s <- _capture_stats fs now ;;
  Ok {| start_stats := s; end_stats := None |}.

Definition stop (fs : filesystem) (now : Q) (m : monitor) : result monitor :=
  s <- _capture_stats fs now ;;
  Ok {| start_stats := start_stats m; end_stats := Some s |}.

(** The duration that the throughput is divided by. *)
Definition effective_duration (s e : snapshot) : Q :=
  let duration := (time e - time s)%Q in
  if Qle_bool duration 0 then 1%Q else duration.

(** The local [cpu_load_pct] of [get_metrics]. *)
Definition cpu_load_pct (s e : snapshot) : result Q :=
  let delta_total := (cpu_total e - cpu_total s)%Q in
  let delta_idle := (cpu_idle e - cpu_idle s)%Q in
  if Qlt_le_dec 0 delta_total then
    q <- truediv delta_idle delta_total ;;
    Ok (100 * (1 - q))%Q
  else Ok 0%Q.

(** The body of [get_metrics] once both snapshots are there. *)
Definition metrics_of (s e : snapshot) : result metrics :=
  let duration := effective_duration s e in
  load <- cpu_load_pct s e ;;
  let read_bytes := disk_read_bytes e - disk_read_bytes s in
  let write_bytes := disk_write_bytes e - disk_write_bytes s in
  mem <- truediv (inject_Z (mem_used_kb e)) (inject_Z (1024 * 1024)) ;;
  rd <- truediv (inject_Z read_bytes) duration ;;
  rd' <- truediv rd (inject_Z (1024 * 1024)) ;;
  wr <- truediv (inject_Z write_bytes) duration ;;
  wr' <- truediv wr (inject_Z (1024 * 1024)) ;;
  Ok {| cpu_load_percent := round2 load;
        memory_used_gb := round2 mem;
        disk_read_mb_s := round2 rd';
        disk_write_mb_s := round2 wr' |}.

(** [get_metrics]: stops the monitor first when it was not stopped; the
    monitor is returned with the metrics, since [stop] updates it. *)
Definition get_metrics (fs : filesystem) (now : Q) (m : monitor)
  : result (metrics * monitor) :=
  m' <- (match end_stats m with
         | Some _ => Ok m
         | None => stop fs now m
         end) ;;
  match end_stats m' with
  | Some e => r <- metrics_of (start_stats m') e ;; Ok (r, m')
  | None => Raise (Exception "end_stats is None")
  end.

(** ** OptimizedNeo4jClient *)

Section RunBatch.

Context {B : Type}.
Variable db : store B.
Variable query : string.
Variable batch : B.

(** The [while retries > 0] loop; [retries] only goes down, one by one,
    so the loop is a recursion on it. *)
Fixpoint retry_loop (retries : nat) (w : world) : ending :=
  match retries with
  | O =>
      {| outcome := Raise (Exception "Failed to import batch after retries");
         retries_left := 0;
         world_after := w |}
  | S retries' =>
      match db query batch (attempts w) with
      | None =>
          {| outcome := Ok tt;
             retries_left := retries;
             world_after := count_attempt w |}
      | Some e =>
          if is_transient e then
            let w1 := count_attempt w in
            let w2 := print ("Warn: Retrying batch due to " ++ exn_str e ++ "...") w1 in
            let w3 := time_sleep 2 w2 in
            retry_loop retries' w3
          else
            {| outcome := Raise e;
               retries_left := retries;
               world_after := count_attempt w |}
      end
  end.

Definition _run_batch (w : world) : ending := retry_loop 3 w.

End RunBatch.

(** ** OptimizedBenchmark *)

(** [_calc_percentiles]: the dict is the list of its items, in insertion
    order; [{}] is the empty list.  (The source sorts the caller's list in
    place; the callers do not use it afterwards.) *)
Definition _calc_percentiles (data : list Q) : result (list (string * Q)) :=
  match data with
  | [] => Ok []
  | _ :: _ =>
      let data := sort data in
      let n := inject_Z (Z.of_nat (List.length data)) in
      p50 <- getitem data (int_of_Q (n * (5 # 10))) ;;
      p90 <- getitem data (int_of_Q (n * (9 # 10))) ;;
      p99 <- getitem data (int_of_Q (n * (99 # 100))) ;;
      Ok [("p50_ms", p50); ("p90_ms", p90); ("p99_ms", p99)]
  end.

(** One step of the function [worker] of [run_concurrency_test], from one
    point to the next.  [None]: the thread has exited and cannot run. *)
Definition worker_step (reply : bool) (res : counters) (stop : bool) (w : worker)
  : option (counters * worker) :=
  match at_pc w with
  | AtCheck =>
      if stop
      then Some (res, {| at_pc := Exited; succeeded := succeeded w; failed := failed w |})
      else Some (res, {| at_pc := AtCall; succeeded := succeeded w; failed := failed w |})
  | AtCall =>
      if reply
      then Some (res, {| at_pc := AtLoadOps; succeeded := succeeded w + 1; failed := failed w |})
      else Some (res, {| at_pc := AtLoadErrors; succeeded := succeeded w; failed := failed w + 1 |})
  | AtLoadOps =>
      Some (res, {| at_pc := AtStoreOps (ops res + 1);
                    succeeded := succeeded w; failed := failed w |})
  | AtStoreOps v =>
      Some ({| ops := v; errors := errors res |},
            {| at_pc := AtCheck; succeeded := succeeded w; failed := failed w |})
  | AtLoadErrors =>
      Some (res, {| at_pc := AtStoreErrors (errors res + 1);
                    succeeded := succeeded w; failed := failed w |})
  | AtStoreErrors v =>
      Some ({| ops := ops res; errors := v |},
            {| at_pc := AtCheck; succeeded := succeeded w; failed := failed w |})
  | Exited => None
  end.

Definition step (ev : event) (s : system) : option system :=
  match ev with
  | SetStop =>
      Some {| results := results s; stop_event := true; pool := pool s |}
  | Run t reply =>
      match nth_error (pool s) t with
      | None => None
      | Some w =>
          match worker_step reply (results s) (stop_event s) w with
          | None => None
          | Some (res, w') =>
              Some {| results := res;
                      stop_event := stop_event s;
                      pool := set_nth t w' (pool s) |}
          end
      end
  end.

(** An interleaving: the events in the order in which they happen. *)
Fixpoint exec (schedule : list event) (s : system) : option system :=
  match schedule with
  | [] => Some s
  | ev :: rest =>
      match step ev s with
      | Some s' => exec rest s'
      | None => None
      end
  end.

(** The state once the [threads] workers are created. *)
Definition spawn (threads : nat) : system :=
  {| results := {| ops := 0; errors := 0 |};
     stop_event := false;
     pool := repeat {| at_pc := AtCheck; succeeded := 0; failed := 0 |} threads |}.

(** All threads have been joined. *)
Definition joined (s : system) : bool := forallb is_exited (pool s).

(** [run_concurrency_test] along one interleaving: the final state and
    the value returned, or [None] when the interleaving is not a whole run
    (a thread is scheduled that cannot run, or a thread is still running
    at the end).  [time.sleep] raises [ValueError] for a negative length:
    the function is then left before the event is set and before any
    thread is joined, the threads being where the interleaving has
    brought them. *)
Definition run_concurrency_test (threads : nat) (duration_sec : Q)
  (schedule : list event) : option (system * result Q) :=
  match exec schedule (spawn threads) with
  | Some s =>
      if Qle_bool 0 duration_sec then
        if stop_event s && joined s
        then Some (s, truediv (inject_Z (ops (results s))) duration_sec)
        else None
      else
        if stop_event s then None else Some (s, Raise ValueError)
  | None => None
  end.

(** ** The temporal hierarchy *)

(** What the script reads of a [datetime]. *)
Record date : Type := mkDate {
  year : Z;
  month : Z;
  day : Z
}.

(** [str(n)] for an [int]. *)
Definition str_of_int (n : Z) : string := NilZero.string_of_int (Z.to_int n).

(** [f"{n:02d}"]: zeros are added in front up to a width of two. *)
Definition format_02d (n : Z) : string :=
  let s := str_of_int n in
  if (String.length s <? 2)%nat then ("0" ++ s)%string else s.

(** [f"{dt.year}_{dt.month:02d}"] and [f"{dt.year}_{dt.month:02d}_{dt.day:02d}"] *)
Definition month_key (dt : date) : string :=
  (str_of_int (year dt) ++ "_" ++ format_02d (month dt))%string.

Definition day_key (dt : date) : string :=
  (str_of_int (year dt) ++ "_" ++ format_02d (month dt) ++ "_"
   ++ format_02d (day dt))%string.

Fixpoint split_on_from (sep : ascii) (cur : string) (s : string) : list string :=
  match s with
  | EmptyString => [cur]
  | String c rest =>
      if Ascii.eqb c sep then cur :: split_on_from sep "" rest
      else split_on_from sep (snoc cur c) rest
  end.

(** [s.split(sep)] for a separator of one character. *)
Definition split_on (sep : ascii) (s : string) : list string :=
  split_on_from sep "" s.

(** [int(key.split('_')[i])] *)
Definition key_field (key : string) (i : Z) : result Z :=
  field <- getitem (split_on "_" key) i ;; int_of_string field.

(** The queries of [create_temporal_hierarchy] with their parameters. *)
Inductive hierarchy_call : Type :=
| MergeMonth (key : string) (year month : Z)
| MergeDay (month_key day_key : string) (year month day : Z).

(** The call that merges the Month node of [key]. *)
Definition merge_month (key : string) : result hierarchy_call :=
  y <- key_field key 0 ;;
  m <- key_field key 1 ;;
  Ok (MergeMonth key y m).

(** The call that merges a Day node and links it to its Month node. *)
Definition merge_day (mkey dkey : string) : result hierarchy_call :=
  y <- key_field dkey 0 ;;
  m <- key_field dkey 1 ;;
  d <- key_field dkey 2 ;;
  Ok (MergeDay mkey dkey y m d).

(** [months.add(key)]: the set is the list of its elements. *)
Definition set_add (key : string) (months : list string) : list string :=
  if existsb (String.eqb key) months then months else (months ++ [key])%list.

(** [if key not in days: days[key] = []] followed by
    [days[key].append(dkey)]: the dict is the list of its items, in
    insertion order. *)
Fixpoint dict_append (key dkey : string) (days : list (string * list string))
  : list (string * list string) :=
  match days with
  | [] => [(key, [dkey])]
  | (k, v) :: rest =>
      if String.eqb k key then (k, (v ++ [dkey])%list) :: rest
      else (k, v) :: dict_append key dkey rest
  end.

Fixpoint insert_key (x : string) (l : list string) : list string :=
  match l with
  | [] => [x]
  | y :: l' => if String.leb x y then x :: l else y :: insert_key x l'
  end.

(** [sorted(months)] *)
Definition sorted_keys (l : list string) : list string :=
  fold_right insert_key [] l.

Section Hierarchy.

(** [datetime.datetime.fromtimestamp], which depends on the time zone of
    the host, and the module constant [START_TIME_YEAR_AGO], which
    depends on the clock at start. *)
Variable fromtimestamp : Z -> date.
Variable START_TIME_YEAR_AGO : Z.

(** The date of the instant [day_offset] days after the start. *)
Definition date_at (day_offset : nat) : date :=
  fromtimestamp (START_TIME_YEAR_AGO + Z.of_nat day_offset * 86400).

(** The first loop of [create_temporal_hierarchy], over the offsets
    [offsets]: the set [months] and the dict [days]. *)
Fixpoint collect (offsets : list nat) (months : list string)
  (days : list (string * list string))
  : list string * list (string * list string) :=
  match offsets with
  | [] => (months, days)
  | day_offset :: rest =>
      let dt := date_at day_offset in
      collect rest (set_add (month_key dt) months)
        (dict_append (month_key dt) (day_key dt) days)
  end.

(** The calls of the third loop, over the items of [days]. *)
Definition day_calls (days : list (string * list string))
  : result (list hierarchy_call) :=
  groups <- mapM (fun item => mapM (merge_day (fst item)) (snd item)) days ;;
  Ok (List.concat groups).

(** [create_temporal_hierarchy] against a store that answers: the calls
    it makes, in order; a key that cannot be read back raises. *)
Definition create_temporal_hierarchy : result (list hierarchy_call) :=
  let (months, days) := collect (seq 0 365) [] [] in
  month_calls <- mapM merge_month (sorted_keys months) ;;
  calls <- day_calls days ;;
  Ok (month_calls ++ calls)%list.

(** The two calls that belong to the date of an offset: the merge of its
    month, and the merge of its day under that month. *)
Definition month_call (day_offset : nat) : hierarchy_call :=
  let dt := date_at day_offset in
  MergeMonth (month_key dt) (year dt) (month dt).

Definition day_call (day_offset : nat) : hierarchy_call :=
  let dt := date_at day_offset in
  MergeDay (month_key dt) (day_key dt) (year dt) (month dt) (day dt).

End Hierarchy.

End Optimized.

(** * Quantities of the concurrency test

    What the shared counters should hold, read off the threads: a lookup
    that has returned (or raised) but whose increment is not stored yet
    is pending. *)

Definition pending_ops (w : worker) : Z :=
  match at_pc w with
  | AtLoadOps | AtStoreOps _ => 1
  | _ => 0
  end.

Definition pending_errors (w : worker) : Z :=
  match at_pc w with
  | AtLoadErrors | AtStoreErrors _ => 1
  | _ => 0
  end.

(** Lookups that have returned and are no longer pending, over all
    threads; likewise for the lookups that raised. *)
Definition settled_ops (ws : list worker) : Z :=
  sumZ (map (fun w => succeeded w - pending_ops w) ws).

Definition settled_errors (ws : list worker) : Z :=
  sumZ (map (fun w => failed w - pending_errors w) ws).

(** A thread about to store a sum never holds more than one above what
    is settled. *)
Definition store_bounded (ws : list worker) (w : worker) : Prop :=
  match at_pc w with
  | AtStoreOps v => v <= settled_ops ws + 1
  | AtStoreErrors v => v <= settled_errors ws + 1
  | _ => True
  end.

Definition never_ahead (s : system) : Prop :=
  ops (results s) <= settled_ops (pool s) /\
  errors (results s) <= settled_errors (pool s) /\
  Forall (store_bounded (pool s)) (pool s).


(** * Properties *)

(** ** The retry loop of the batch import *)

(** A run that returns at the first attempt leaves the loop at once. *)
Lemma run_batch_first_success (B : Type) (db : store B) (query : string)
  (batch : B) (w : world) :
  db query batch (attempts w) = None ->
  Flat._run_batch db query batch w =
    {| outcome := Ok tt; retries_left := 3; world_after := count_attempt w |}.
Proof.
  intros H. unfold Flat._run_batch. simpl. rewrite H. reflexivity.
Qed.

(** A batch that fails once with a transient error and then succeeds is
    attempted twice and sleeps once, between the two attempts: nothing is
    slept after the success. *)
Lemma run_batch_second_success (B : Type) (db : store B) (query : string)
  (batch : B) (w : world) (e : exn) :
  db query batch (attempts w) = Some e ->
  is_transient e = true ->
  db query batch (S (attempts w)) = None ->
  let r := Flat._run_batch db query batch w in
  outcome r = Ok tt /\
  retries_left r = 2%nat /\
  attempts (world_after r) = S (S (attempts w)) /\
  slept (world_after r) = 2 :: slept w.
Proof.
  intros H1 Ht H2. unfold Flat._run_batch. simpl.
  rewrite H1, Ht. simpl. rewrite H2. simpl. repeat split.
Qed.

(** Whatever the replies of the store, the loop makes at most three
    attempts. *)
Lemma run_batch_at_most_three (B : Type) (db : store B) (query : string)
  (batch : B) (w : world) :
  (attempts (world_after (Flat._run_batch db query batch w)) <= 3 + attempts w)%nat.
Proof.
  unfold Flat._run_batch. simpl.
  destruct (db query batch (attempts w)) as [e1|]; simpl; [|lia].
  destruct (is_transient e1); simpl; [|lia].
  destruct (db query batch (S (attempts w))) as [e2|]; simpl; [|lia].
  destruct (is_transient e2); simpl; [|lia].
  destruct (db query batch (S (S (attempts w)))) as [e3|]; simpl; [|lia].
  destruct (is_transient e3); simpl; lia.
Qed.

(** C1.  A store that answers every attempt with a transient error: the
    import makes exactly three attempts and raises the fatal error, but
    it has slept three times by then, six seconds in all, not four: the
    handler sleeps after the third failure as well, although no attempt
    follows.  Both scripts behave so. *)
Theorem run_batch_all_transient (B : Type) (msg query : string) (batch : B) :
  let db : store B := fun _ _ _ => Some (TransientError msg) in
  let r := Flat._run_batch db query batch fresh in
  let r' := Optimized._run_batch db query batch fresh in
  outcome r = Raise (Exception "Failed to import batch after retries") /\
  attempts (world_after r) = 3%nat /\
  retries_left r = 0%nat /\
  slept (world_after r) = [2; 2; 2] /\
  total_sleep (world_after r) = 6 /\
  r' = r.
Proof.
  cbv zeta. repeat split.
Qed.

(** C9.  A non-transient error at the first attempt leaves [_run_batch]
    at once: the error itself is raised, one attempt was made, nothing
    was slept or printed, and the local [retries] is still 3.  Both
    scripts behave so. *)
Theorem run_batch_non_transient (B : Type) (db : store B) (query : string)
  (batch : B) (w : world) (e : exn) :
  db query batch (attempts w) = Some e ->
  is_transient e = false ->
  let r := Flat._run_batch db query batch w in
  outcome r = Raise e /\
  retries_left r = 3%nat /\
  attempts (world_after r) = S (attempts w) /\
  slept (world_after r) = slept w /\
  printed (world_after r) = printed w /\
  Optimized._run_batch db query batch w = r.
Proof.
  intros He Ht. unfold Flat._run_batch, Optimized._run_batch. simpl.
  rewrite He, Ht. simpl. repeat split.
Qed.

Lemma run_batch_non_transient_witness :
  let db : store unit := fun _ _ _ => Some (Exception "Invalid input") in
  let r := Flat._run_batch db "RETURN 1" tt fresh in
  outcome r = Raise (Exception "Invalid input") /\
  retries_left r = 3%nat /\
  attempts (world_after r) = 1%nat /\
  slept (world_after r) = [] /\
  printed (world_after r) = [] /\
  Optimized._run_batch db "RETURN 1" tt fresh = r.
Proof.
  exact (run_batch_non_transient unit
           (fun _ _ _ => Some (Exception "Invalid input")) "RETURN 1" tt fresh
           (Exception "Invalid input") eq_refl eq_refl).
Defined.

(** ** The counters of the concurrency test *)

(** A single worker loses nothing: with one thread the two points of an
    increment are never separated by another thread. *)
Example one_worker_counts_all :
  exists s,
    Flat.run_concurrency_test 1 10
      [Run 0 true; Run 0 true; Run 0 true; Run 0 true;
       Run 0 true; Run 0 false; Run 0 true; Run 0 true;
       SetStop; Run 0 true] = Some (s, Ok (1 # 10)%Q) /\
    ops (results s) = sumZ (map succeeded (pool s)) /\
    errors (results s) = sumZ (map failed (pool s)).
Proof.
  eexists. split; [reflexivity|]. split; reflexivity.
Qed.

(** C2.  Two workers, one successful lookup each.  Both read
    [results["ops"]] (0) before either stores its sum back, so both store
    1: the run ends with [ops = 1] while the workers completed two
    lookups, and the test reports 0.1 operations per second instead of
    0.2.  The increments are plain read-modify-write sequences on the
    shared dict, without a lock, in both scripts. *)
Theorem concurrency_lost_update :
  let schedule :=
    [Run 0 true; Run 1 true;      (* both pass the stop check *)
     Run 0 true; Run 1 true;      (* both lookups return *)
     Run 0 true; Run 1 true;      (* both read ops = 0 *)
     Run 0 true; Run 1 true;      (* both store 1 *)
     SetStop;
     Run 0 true; Run 1 true]      (* both see the event and exit *) in
  exists s,
    Flat.run_concurrency_test 2 10 schedule = Some (s, Ok (1 # 10)%Q) /\
    Optimized.run_concurrency_test 2 10 schedule = Some (s, Ok (1 # 10)%Q) /\
    map succeeded (pool s) = [1; 1] /\
    sumZ (map succeeded (pool s)) = 2 /\
    ops (results s) = 1 /\
    ops (results s) <> sumZ (map succeeded (pool s)).
Proof.
  cbv zeta. eexists. split; [reflexivity|].
  split; [reflexivity|]. simpl. repeat split. discriminate.
Qed.

(** ** The two scripts share their core *)

(** C10.  The percentile computation and the monitor's metrics are the
    same functions in both scripts. *)
Theorem flat_optimized_agree :
  (forall data : list Q,
     Flat._calc_percentiles data = Optimized._calc_percentiles data) /\
  (forall (fs : filesystem) (now : Q) (m : monitor),
     Flat.get_metrics fs now m = Optimized.get_metrics fs now m) /\
  (forall s e : snapshot, Flat.metrics_of s e = Optimized.metrics_of s e).
Proof.
  repeat split.
Qed.

(** ** Batching *)

Section GeneratorFacts.

Context {A : Type}.
Variable body : nat -> A.
Variable count : Z.
Variable batch_size : Z.
Hypothesis batch_size_pos : 0 < batch_size.

(** One resumption of the loop yields the first of the batches still to
    come, and leaves the generator where the others start. *)
Lemma resume_loop_drain (remaining : nat) :
  forall (i : nat) (batch : list A) out f,
    Flat.resume_loop body batch_size remaining i batch = (out, f) ->
    (exists b j r,
        out = Some b /\ f = Flat.AtLoop j [] /\
        (r < remaining)%nat /\ (j + r = i + remaining)%nat /\
        Flat.drain body batch_size remaining i batch
        = b :: Flat.drain body batch_size r j [])
    \/ (exists b,
          out = Some b /\ f = Flat.AtTail /\
          Flat.drain body batch_size remaining i batch = [b])
    \/ (out = None /\ f = Flat.Finished /\
        Flat.drain body batch_size remaining i batch = []).
Proof.
  induction remaining as [|r IH]; intros i batch out f H; simpl in *.
  - destruct batch as [|a batch]; inversion H; subst.
    + right. right. auto.
    + right. left. eauto.
  - destruct (Z.of_nat (List.length (batch ++ [body i])) >=? batch_size).
    + inversion H; subst. left.
      exists (batch ++ [body i])%list, (S i), r.
      repeat split; auto; lia.
    + destruct (IH _ _ _ _ H) as [(b & j & r' & ? & ? & ? & ? & ?)|[?|?]].
      * left. exists b, j, r'. repeat split; auto; lia.
      * right. left. assumption.
      * right. right. assumption.
Qed.

(** A generator that has returned stays exhausted. *)
Lemma consume_finished (fuel : nat) :
  Flat.consume (Flat.next body count batch_size) fuel Flat.Finished = ([], Flat.Finished).
Proof. destruct fuel; reflexivity. Qed.

(** With enough fuel the [for] loop collects all the batches and leaves
    the generator exhausted. *)
Lemma consume_drain (fuel : nat) :
  forall (remaining i : nat) (batch : list A),
    (remaining + 1 < fuel)%nat ->
    (Z.to_nat count - i = remaining)%nat ->
    Flat.consume (Flat.next body count batch_size) fuel (Flat.AtLoop i batch)
    = (Flat.drain body batch_size remaining i batch, Flat.Finished).
Proof.
  induction fuel as [|fuel IH]; intros remaining i batch Hfuel Hrem; [lia|].
  cbn [Flat.consume Flat.next]. rewrite Hrem.
  destruct (Flat.resume_loop body batch_size remaining i batch) as [out f] eqn:E.
  destruct (resume_loop_drain _ _ _ _ _ E)
    as [(b & j & r & -> & -> & Hr & Hj & Hd)|[(b & -> & -> & Hd)|(-> & -> & Hd)]].
  - rewrite (IH r j []) by lia. rewrite Hd. reflexivity.
  - destruct fuel as [|fuel']; [lia|]. cbn. rewrite Hd. reflexivity.
  - rewrite Hd. reflexivity.
Qed.

Lemma drain_concat (remaining : nat) :
  forall (i : nat) (batch : list A),
    List.concat (Flat.drain body batch_size remaining i batch)
    = (batch ++ map body (seq i remaining))%list.
Proof.
  induction remaining as [|r IH]; intros i batch; simpl.
  - destruct batch; simpl; rewrite ?app_nil_r; reflexivity.
  - destruct (Z.of_nat (List.length (batch ++ [body i])) >=? batch_size); simpl.
    + rewrite IH. simpl. rewrite <- app_assoc. reflexivity.
    + rewrite IH. rewrite <- app_assoc. reflexivity.
Qed.

Lemma drain_shape (remaining : nat) :
  forall (i : nat) (batch : list A),
    Z.of_nat (List.length batch) < batch_size ->
    forall k b, nth_error (Flat.drain body batch_size remaining i batch) k = Some b ->
      b <> [] /\
      ((S k < List.length (Flat.drain body batch_size remaining i batch))%nat ->
       Z.of_nat (List.length b) = batch_size).
Proof.
  induction remaining as [|r IH]; intros i batch Hlen k b Hk.
  - cbn [Flat.drain] in *.
    destruct batch as [|a batch]; [destruct k; discriminate|].
    destruct k as [|k]; cbn in Hk; [|destruct k; discriminate].
    inversion Hk; subst. split; [discriminate|]. cbn [List.length]. lia.
  - cbn [Flat.drain] in *.
    assert (Hlen' : Z.of_nat (List.length (batch ++ [body i]))
                    = Z.of_nat (List.length batch) + 1).
    { rewrite length_app. cbn [List.length]. lia. }
    rewrite Z.geb_leb in *.
    destruct (batch_size <=? Z.of_nat (List.length (batch ++ [body i]))) eqn:E.
    + apply Z.leb_le in E.
      destruct k as [|k]; cbn [nth_error] in Hk.
      * inversion Hk; subst. split.
        -- destruct batch; discriminate.
        -- intros _. lia.
      * assert (H0 : Z.of_nat (List.length (@nil A)) < batch_size)
          by (cbn [List.length]; lia).
        destruct (IH (S i) [] H0 k b Hk) as [Hne Hfull].
        split; [exact Hne|]. cbn [List.length]. intros Hlt. apply Hfull. lia.
    + apply Z.leb_gt in E. apply IH; [lia|exact Hk].
Qed.

(** The whole run of a generator: consumed from its start with enough
    fuel it ends exhausted, and its batches are the records in order,
    cut every [batch_size] records. *)
Lemma generator_batched (fuel : nat) :
  (Z.to_nat count + 2 <= fuel)%nat ->
  exists batches,
    Flat.consume (Flat.next body count batch_size) fuel Flat.start = (batches, Flat.Finished) /\
    Flat.batched (map body (seq 0 (Z.to_nat count))) batch_size batches.
Proof.
  intros Hfuel. exists (Flat.drain body batch_size (Z.to_nat count) 0 []). split.
  - apply consume_drain; lia.
  - split.
    + apply drain_concat.
    + apply drain_shape. simpl. lia.
Qed.

(** Every record that the loop sees was built by an iteration. *)
Lemma generated_records (fuel : nat) :
  (Z.to_nat count + 2 <= fuel)%nat ->
  forall batch t,
    In batch (fst (Flat.consume (Flat.next body count batch_size) fuel Flat.start)) ->
    In t batch ->
    exists i, (i < Z.to_nat count)%nat /\ t = body i.
Proof.
  intros Hfuel batch t Hb Ht.
  destruct (generator_batched fuel Hfuel) as (batches & Hrun & Hcat & _).
  rewrite Hrun in Hb. cbn [fst] in Hb.
  assert (Hin : In t (List.concat batches)) by (apply in_concat; eauto).
  rewrite Hcat in Hin. apply in_map_iff in Hin as (i & <- & Hi).
  apply in_seq in Hi. exists i. split; [lia|reflexivity].
Qed.

End GeneratorFacts.

(** C6.  For a positive batch size and non-negative counts, a [for] loop
    over [generate_accounts] or [generate_transactions] ends (the
    generator is left exhausted); the batches it has seen are the [count]
    records in generation order, every batch but the last has exactly
    [batch_size] records, and no batch, the last included, is empty.  An
    exhausted generator yields nothing more: the sequence is consumed
    once. *)
Theorem generators_batch (g : Flat.DataGenerator) (randint : nat -> Z)
  (random : nat -> R) (batch_size : Z) (fuel : nat) :
  0 < batch_size ->
  0 <= Flat.num_accounts g ->
  0 <= Flat.num_transactions g ->
  (Z.to_nat (Flat.num_accounts g) + 2 <= fuel)%nat ->
  (Z.to_nat (Flat.num_transactions g) + 2 <= fuel)%nat ->
  (exists batches,
      Flat.consume (Flat.generate_accounts g randint batch_size) fuel Flat.start
      = (batches, Flat.Finished) /\
      Flat.batched
        (map (Flat.account_of g randint) (seq 0 (Z.to_nat (Flat.num_accounts g))))
        batch_size batches /\
      Z.of_nat (List.length (List.concat batches)) = Flat.num_accounts g /\
      forall again,
        Flat.consume (Flat.generate_accounts g randint batch_size) again Flat.Finished
        = ([], Flat.Finished)) /\
  (exists batches,
      Flat.consume (Flat.generate_transactions g random batch_size) fuel Flat.start
      = (batches, Flat.Finished) /\
      Flat.batched
        (map (Flat.transaction_of g random) (seq 0 (Z.to_nat (Flat.num_transactions g))))
        batch_size batches /\
      Z.of_nat (List.length (List.concat batches)) = Flat.num_transactions g /\
      forall again,
        Flat.consume (Flat.generate_transactions g random batch_size) again Flat.Finished
        = ([], Flat.Finished)).
Proof.
  intros Hbs Ha Ht Hfa Hft. split.
  - destruct (generator_batched (Flat.account_of g randint) (Flat.num_accounts g)
                batch_size Hbs fuel Hfa) as (batches & Hrun & Hb).
    exists batches. split; [exact Hrun|]. split; [exact Hb|]. split.
    + destruct Hb as [-> _]. rewrite length_map, length_seq. lia.
    + intros again.
      exact (consume_finished (Flat.account_of g randint) (Flat.num_accounts g)
               batch_size again).
  - destruct (generator_batched (Flat.transaction_of g random)
                (Flat.num_transactions g) batch_size Hbs fuel Hft)
      as (batches & Hrun & Hb).
    exists batches. split; [exact Hrun|]. split; [exact Hb|]. split.
    + destruct Hb as [-> _]. rewrite length_map, length_seq. lia.
    + intros again.
      exact (consume_finished (Flat.transaction_of g random)
               (Flat.num_transactions g) batch_size again).
Qed.

Lemma generators_batch_witness :
  let g := Flat.mkDataGenerator 5 3 0 in
  let randint := fun _ : nat => 7 in
  let random := fun _ : nat => 0%R in
  (exists batches,
      Flat.consume (Flat.generate_accounts g randint 2) 7 Flat.start
      = (batches, Flat.Finished) /\
      Flat.batched (map (Flat.account_of g randint) (seq 0 (Z.to_nat 5))) 2 batches /\
      Z.of_nat (List.length (List.concat batches)) = 5 /\
      forall again,
        Flat.consume (Flat.generate_accounts g randint 2) again Flat.Finished
        = ([], Flat.Finished)) /\
  (exists batches,
      Flat.consume (Flat.generate_transactions g random 2) 7 Flat.start
      = (batches, Flat.Finished) /\
      Flat.batched (map (Flat.transaction_of g random) (seq 0 (Z.to_nat 3))) 2 batches /\
      Z.of_nat (List.length (List.concat batches)) = 3 /\
      forall again,
        Flat.consume (Flat.generate_transactions g random 2) again Flat.Finished
        = ([], Flat.Finished)).
Proof.
  exact (generators_batch (Flat.mkDataGenerator 5 3 0) (fun _ => 7)
           (fun _ => 0%R) 2 7
           ltac:(reflexivity) ltac:(discriminate) ltac:(discriminate)
           ltac:(simpl; lia) ltac:(simpl; lia)).
Defined.

(** Five accounts in batches of two: two full batches and a last one
    with the account left over. *)
Example five_accounts_by_two :
  let g := Flat.mkDataGenerator 5 0 1000 in
  let run := Flat.consume (Flat.generate_accounts g (fun _ => 7) 2) 7 Flat.start in
  map (map Flat.acc_id) (fst run) = [[0; 1]; [2; 3]; [4]] /\
  map (map Flat.acc_type) (fst run)
  = [["Premium"; "Standard"]; ["Standard"; "Standard"]; ["Standard"]] /\
  snd run = Flat.Finished.
Proof. repeat split. Qed.

(** ** The two skews of the generator *)

(** Truncation of a non-negative real below an integer bound. *)
Lemma int_of_R_range (x : R) (n : Z) :
  (0 <= x < IZR n)%R -> 0 <= int_of_R x < n.
Proof.
  intros [H0 Hn]. unfold int_of_R.
  destruct (Rle_dec 0 x) as [_|Hneg]; [|contradiction].
  split.
  - apply Zfloor_lub. exact H0.
  - apply lt_IZR. destruct (Zfloor_bound x) as [Hf _]. lra.
Qed.

(** A draw of [[0, 1)] raised to a positive power stays in [[0, 1)]. *)
Lemma float_pow_unit (u s : R) :
  (0 <= u < 1)%R -> (0 < s)%R -> (0 <= float_pow u s < 1)%R.
Proof.
  intros [H0 H1] Hs. unfold float_pow.
  destruct (Req_dec_T u 0) as [Hu|Hu].
  - destruct (Req_dec_T s 0); lra.
  - assert (Hpos : (0 < u)%R) by lra.
    unfold Rpower. split.
    + left. apply exp_pos.
    + rewrite <- exp_0. apply exp_increasing.
      assert (Hln : (ln u < 0)%R).
      { rewrite <- ln_1. apply ln_increasing; lra. }
      nra.
Qed.

Lemma sqrt_unit (u : R) : (0 <= u < 1)%R -> (0 <= sqrt u < 1)%R.
Proof.
  intros [H0 H1]. split.
  - apply sqrt_pos.
  - assert (H : (sqrt u < sqrt 1)%R) by (apply sqrt_lt_1; lra).
    rewrite sqrt_1 in H. exact H.
Qed.

Lemma round_half_even_R_bounds (x : R) (n : Z) :
  ((IZR n <= x)%R -> n <= round_half_even_R x) /\
  ((x <= IZR n)%R -> round_half_even_R x <= n).
Proof.
  unfold round_half_even_R.
  destruct (Zfloor_bound x) as [Hlo Hhi].
  split; intros H.
  - assert (Hf : n <= Zfloor x) by (apply Zfloor_lub; exact H).
    destruct (Rlt_dec (x - IZR (Zfloor x)) (1 / 2)); [lia|].
    destruct (Rlt_dec (1 / 2) (x - IZR (Zfloor x))); [lia|].
    destruct (Z.even (Zfloor x)); lia.
  - assert (Hf : Zfloor x <= n).
    { apply le_IZR. lra. }
    destruct (Z.eq_dec (Zfloor x) n) as [E|E].
    + destruct (Rlt_dec (x - IZR (Zfloor x)) (1 / 2)) as [_|Hn]; [lia|].
      exfalso. apply Hn. rewrite E. lra.
    + destruct (Rlt_dec (x - IZR (Zfloor x)) (1 / 2)); [lia|].
      destruct (Rlt_dec (1 / 2) (x - IZR (Zfloor x))); [lia|].
      destruct (Z.even (Zfloor x)); lia.
Qed.

(** ** Rounding to binary64 *)

(** Rounding to the nearest integer: a real within a half of an integer
    rounds to it. *)
Lemma round_half_even_R_near (x : R) (n : Z) :
  (IZR n - 1 / 2 < x < IZR n + 1 / 2)%R -> round_half_even_R x = n.
Proof.
  intros [Hlo Hhi]. unfold round_half_even_R.
  destruct (Zfloor_bound x) as [Flo Fhi].
  assert (Hf : Zfloor x = n \/ Zfloor x = n - 1).
  { assert (n - 1 <= Zfloor x).
    { apply Zfloor_lub. rewrite minus_IZR. lra. }
    assert (Zfloor x < n + 1).
    { apply lt_IZR. rewrite plus_IZR. lra. }
    lia. }
  destruct Hf as [E|E]; rewrite E in *.
  - destruct (Rlt_dec (x - IZR n) (1 / 2)); [reflexivity|lra].
  - rewrite minus_IZR in *.
    destruct (Rlt_dec (x - (IZR n - 1)) (1 / 2)); [lra|].
    destruct (Rlt_dec (1 / 2) (x - (IZR n - 1))); [lia|lra].
Qed.

Lemma round_half_even_R_mono (x y : R) :
  (x <= y)%R -> round_half_even_R x <= round_half_even_R y.
Proof.
  intros Hxy.
  pose proof (Zfloor_le x y Hxy) as Hf.
  destruct (Zfloor_bound x) as [Xlo Xhi].
  destruct (Zfloor_bound y) as [Ylo Yhi].
  destruct (Z.eq_dec (Zfloor x) (Zfloor y)) as [E|E].
  - unfold round_half_even_R. rewrite <- E in *.
    destruct (Rlt_dec (x - IZR (Zfloor x)) (1 / 2));
      destruct (Rlt_dec (y - IZR (Zfloor x)) (1 / 2)); try lia; try lra;
      destruct (Rlt_dec (1 / 2) (x - IZR (Zfloor x)));
      destruct (Rlt_dec (1 / 2) (y - IZR (Zfloor x))); try lia; try lra;
      destruct (Z.even (Zfloor x)); lia.
  - assert (H1 : round_half_even_R x <= Zfloor x + 1).
    { apply (proj2 (round_half_even_R_bounds x (Zfloor x + 1))).
      rewrite plus_IZR. lra. }
    assert (H2 : Zfloor y <= round_half_even_R y).
    { apply (proj1 (round_half_even_R_bounds y (Zfloor y))). exact Ylo. }
    lia.
Qed.

Lemma pow2_pos (e : Z) : (0 < powerRZ 2 e)%R.
Proof. apply powerRZ_lt. lra. Qed.

Lemma pow2_add (a b : Z) : powerRZ 2 (a + b) = (powerRZ 2 a * powerRZ 2 b)%R.
Proof. apply powerRZ_add. lra. Qed.

Lemma pow2_nonneg_exp (n : Z) : 0 <= n -> powerRZ 2 n = IZR (2 ^ n).
Proof.
  intros Hn. rewrite <- (Z2Nat.id n Hn) at 1.
  rewrite <- pow_powerRZ. rewrite <- (Z2Nat.id n Hn) at 2.
  rewrite <- Zpower_nat_Z. 
  induction (Z.to_nat n) as [|k IH].
  - reflexivity.
  - rewrite Zpower_nat_succ_r, mult_IZR, <- IH. simpl. ring.
Qed.

Lemma pow2_le (a b : Z) : a <= b -> (powerRZ 2 a <= powerRZ 2 b)%R.
Proof.
  intros H. replace b with (a + (b - a)) by lia.
  rewrite pow2_add, (pow2_nonneg_exp (b - a)) by lia.
  assert (0 < 2 ^ (b - a)) by (apply Z.pow_pos_nonneg; lia).
  assert (1 <= 2 ^ (b - a)) by lia.
  apply IZR_le in H1. pose proof (pow2_pos a). nra.
Qed.

Lemma pow2_lt (a b : Z) : a < b -> (powerRZ 2 a < powerRZ 2 b)%R.
Proof.
  intros H. apply Rlt_le_trans with (powerRZ 2 (a + 1)).
  - rewrite pow2_add. change (powerRZ 2 1) with (2 * 1)%R.
    pose proof (pow2_pos a). lra.
  - apply pow2_le. lia.
Qed.

Lemma pow2_lt_inv (a b : Z) : (powerRZ 2 a < powerRZ 2 b)%R -> a < b.
Proof.
  intros H. destruct (Z_lt_le_dec a b) as [|Hge]; [assumption|].
  apply pow2_le in Hge. lra.
Qed.

Lemma ln2_pos : (0 < ln 2)%R.
Proof. pose proof ln_lt_2. lra. Qed.

Lemma ln_pow2 (e : Z) : ln (powerRZ 2 e) = (IZR e * ln 2)%R.
Proof. rewrite powerRZ_Rpower by lra. apply ln_Rpower. Qed.

(** The binade of a positive real holds it. *)
Lemma binade_spec (x : R) :
  (0 < x)%R -> (powerRZ 2 (binade x) <= x < powerRZ 2 (binade x + 1))%R.
Proof.
  intros Hx. unfold binade. rewrite (Rabs_pos_eq x) by lra.
  set (e := Zfloor (ln x / ln 2)).
  destruct (Zfloor_bound (ln x / ln 2)) as [Hlo Hhi]. fold e in Hlo, Hhi.
  pose proof ln2_pos as L2.
  assert (H1 : (IZR e * ln 2 <= ln x)%R).
  { apply (Rmult_le_compat_r (ln 2)) in Hlo; [|lra].
    unfold Rdiv in Hlo. rewrite Rmult_assoc, Rinv_l in Hlo by lra. lra. }
  assert (H2 : (ln x < (IZR e + 1) * ln 2)%R).
  { apply (Rmult_lt_compat_r (ln 2)) in Hhi; [|lra].
    unfold Rdiv in Hhi. rewrite Rmult_assoc, Rinv_l in Hhi by lra. lra. }
  rewrite <- (exp_ln x Hx) at 1 2.
  rewrite !powerRZ_Rpower by lra. unfold Rpower. rewrite plus_IZR.
  split.
  - destruct H1 as [H1|H1]; [left; apply exp_increasing; exact H1|right; rewrite H1; reflexivity].
  - apply exp_increasing. exact H2.
Qed.

Lemma binade_unique (x : R) (e : Z) :
  (powerRZ 2 e <= x < powerRZ 2 (e + 1))%R -> binade x = e.
Proof.
  intros [Hlo Hhi].
  assert (Hx : (0 < x)%R) by (pose proof (pow2_pos e); lra).
  destruct (binade_spec x Hx) as [Blo Bhi].
  assert (binade x < e + 1) by (apply pow2_lt_inv; lra).
  assert (e < binade x + 1) by (apply pow2_lt_inv; lra).
  lia.
Qed.

(** The significand of a positive real, scaled to the integers, lies
    between [2^52] and [2^53]. *)
Lemma scaled_bounds (x : R) :
  (0 < x)%R ->
  (IZR (2 ^ 52) <= x / powerRZ 2 (binade x - 52) < IZR (2 ^ 53))%R.
Proof.
  intros Hx. destruct (binade_spec x Hx) as [Blo Bhi].
  pose proof (pow2_pos (binade x - 52)) as Hu.
  rewrite <- !pow2_nonneg_exp by lia.
  replace (binade x) with ((binade x - 52) + 52) in Blo at 1 by lia.
  replace (binade x + 1) with ((binade x - 52) + 53) in Bhi by lia.
  rewrite pow2_add in Blo, Bhi.
  split.
  - apply Rmult_le_reg_r with (powerRZ 2 (binade x - 52)); [exact Hu|].
    unfold Rdiv. rewrite Rmult_assoc, Rinv_l by lra. lra.
  - apply Rmult_lt_reg_r with (powerRZ 2 (binade x - 52)); [exact Hu|].
    unfold Rdiv. rewrite Rmult_assoc, Rinv_l by lra. lra.
Qed.

(** Rounding keeps a positive real in the closure of its binade. *)
Lemma round64_binade (x : R) :
  (0 < x)%R ->
  (powerRZ 2 (binade x) <= round64 x <= powerRZ 2 (binade x + 1))%R.
Proof.
  intros Hx. unfold round64.
  destruct (Req_dec_T x 0) as [E|_]; [lra|]. cbv zeta.
  destruct (scaled_bounds x Hx) as [Slo Shi].
  pose proof (pow2_pos (binade x - 52)) as Hu.
  set (y := (x / powerRZ 2 (binade x - 52))%R) in *.
  assert (H1 : 2 ^ 52 <= round_half_even_R y)
    by (apply round_half_even_R_bounds; exact Slo).
  assert (H2 : round_half_even_R y <= 2 ^ 53)
    by (apply round_half_even_R_bounds; lra).
  apply IZR_le in H1, H2.
  replace (binade x) with ((binade x - 52) + 52) at 1 by lia.
  replace (binade x + 1) with ((binade x - 52) + 53) by lia.
  rewrite !pow2_add, (pow2_nonneg_exp 52), (pow2_nonneg_exp 53) by lia.
  split; nra.
Qed.

Lemma round64_0 : round64 0 = 0%R.
Proof. unfold round64. destruct (Req_dec_T 0 0); [reflexivity|lra]. Qed.

Lemma round64_pos (x : R) : (0 < x)%R -> (0 < round64 x)%R.
Proof.
  intros Hx. destruct (round64_binade x Hx) as [H _].
  pose proof (pow2_pos (binade x)). lra.
Qed.

(** Rounding is monotone (on the non-negative reals). *)
Lemma round64_mono (x y : R) :
  (0 <= x <= y)%R -> (round64 x <= round64 y)%R.
Proof.
  intros [H0 Hxy].
  destruct (Req_dec_T x 0) as [E|E].
  - subst x. rewrite round64_0.
    destruct (Req_dec_T y 0) as [Ey|Ey].
    + subst y. rewrite round64_0. lra.
    + left. apply round64_pos. lra.
  - assert (Hx : (0 < x)%R) by lra. assert (Hy : (0 < y)%R) by lra.
    destruct (binade_spec x Hx) as [Xlo Xhi].
    destruct (binade_spec y Hy) as [Ylo Yhi].
    assert (Hb : binade x <= binade y).
    { assert (binade x < binade y + 1) by (apply pow2_lt_inv; lra). lia. }
    destruct (Z.eq_dec (binade x) (binade y)) as [Eb|Eb].
    + unfold round64.
      destruct (Req_dec_T x 0) as [|_]; [lra|].
      destruct (Req_dec_T y 0) as [|_]; [lra|]. cbv zeta.
      rewrite <- Eb.
      pose proof (pow2_pos (binade x - 52)) as Hu.
      apply Rmult_le_compat_r; [lra|].
      apply IZR_le. apply round_half_even_R_mono.
      unfold Rdiv. apply Rmult_le_compat_r; [|exact Hxy].
      left. apply Rinv_0_lt_compat. exact Hu.
    + destruct (round64_binade x Hx) as [_ Rx].
      destruct (round64_binade y Hy) as [Ry _].
      assert (powerRZ 2 (binade x + 1) <= powerRZ 2 (binade y))%R
        by (apply pow2_le; lia).
      lra.
Qed.

(** Where a positive real of a known binade rounds to. *)
Lemma round64_eval (x : R) (e m : Z) :
  (powerRZ 2 e <= x < powerRZ 2 (e + 1))%R ->
  (IZR m - 1 / 2 < x / powerRZ 2 (e - 52) < IZR m + 1 / 2)%R ->
  round64 x = (IZR m * powerRZ 2 (e - 52))%R.
Proof.
  intros Hb Hm.
  assert (Hx : (0 < x)%R) by (pose proof (pow2_pos e); lra).
  unfold round64. destruct (Req_dec_T x 0) as [|_]; [lra|]. cbv zeta.
  rewrite (binade_unique x e Hb).
  rewrite (round_half_even_R_near _ m Hm). reflexivity.
Qed.

(** A number with a significand of 53 bits is its own rounding. *)
Lemma round64_fixed (m j : Z) :
  0 <= m < 2 ^ 53 ->
  round64 (IZR m * powerRZ 2 j) = (IZR m * powerRZ 2 j)%R.
Proof.
  intros [Hm0 Hm].
  destruct (Z.eq_dec m 0) as [E|E].
  { subst m. rewrite Rmult_0_l. apply round64_0. }
  assert (Hmp : (1 <= IZR m)%R) by (apply IZR_le; lia).
  pose proof (pow2_pos j) as Hj.
  set (x := (IZR m * powerRZ 2 j)%R).
  assert (Hx : (0 < x)%R) by (unfold x; nra).
  destruct (binade_spec x Hx) as [Blo Bhi].
  set (e := binade x) in *.
  assert (He : e < j + 53).
  { apply pow2_lt_inv. apply Rle_lt_trans with x; [exact Blo|].
    unfold x. rewrite (Z.add_comm j 53), pow2_add, (pow2_nonneg_exp 53) by lia.
    apply IZR_lt in Hm. nra. }
  assert (Hs : (x / powerRZ 2 (e - 52) = IZR (m * 2 ^ (j - e + 52)))%R).
  { rewrite mult_IZR, <- pow2_nonneg_exp by lia.
    unfold x. replace j with ((e - 52) + (j - e + 52)) at 1 by lia.
    rewrite pow2_add. pose proof (pow2_pos (e - 52)). field. lra. }
  rewrite (round64_eval x e (m * 2 ^ (j - e + 52))).
  - rewrite <- Hs. pose proof (pow2_pos (e - 52)). field. lra.
  - split; assumption.
  - rewrite Hs. lra.
Qed.

Lemma round64_IZR (n : Z) : 0 <= n < 2 ^ 53 -> round64 (IZR n) = IZR n.
Proof.
  intros H. pose proof (round64_fixed n 0 H) as E.
  rewrite powerRZ_O, Rmult_1_r in E. exact E.
Qed.

(** [2^-53], half the gap between 1 and the float below it. *)
Lemma half_ulp_facts :
  let t := powerRZ 2 (-53) in
  (0 < t)%R /\ (t * IZR (2 ^ 53) = 1)%R /\ (t < 1 / 1000)%R.
Proof.
  cbv zeta. pose proof (pow2_pos (-53)) as Ht.
  assert (E : (powerRZ 2 (-53) * IZR (2 ^ 53) = 1)%R).
  { rewrite <- (pow2_nonneg_exp 53) by lia. rewrite <- pow2_add.
    reflexivity. }
  split; [exact Ht|]. split; [exact E|].
  assert (H : (1000 < IZR (2 ^ 53))%R) by (apply IZR_lt; reflexivity).
  nra.
Qed.

(** The square of a float below 1 rounds to a float below the float
    below 1: to at most [1 - 2^-52]. *)
Lemma square_rounds_below_one (u : R) :
  (0 <= u <= 1 - powerRZ 2 (-53))%R ->
  (0 <= float_pow64 u Flat.ZIPF_SKEW <= 1 - 2 * powerRZ 2 (-53))%R.
Proof.
  intros [H0 H1].
  destruct half_ulp_facts as (Ht & Et & Hsmall). cbv zeta in *.
  set (t := powerRZ 2 (-53)) in *.
  unfold float_pow64, float_pow, Flat.ZIPF_SKEW.
  destruct (Req_dec_T u 0) as [E|E].
  { destruct (Req_dec_T 2 0) as [|_]; [lra|]. rewrite round64_0. lra. }
  assert (Ep : Rpower u 2 = (u ^ 2)%R).
  { replace 2%R with (INR 2) at 1 by (simpl; lra). apply Rpower_pow. lra. }
  rewrite Ep.
  assert (Hsq : (0 <= u ^ 2 <= (1 - t) ^ 2)%R) by (split; nra).
  assert (Hbound : round64 ((1 - t) ^ 2) = (IZR (2 ^ 53 - 2) * powerRZ 2 (-1 - 52))%R).
  { apply round64_eval.
    - change (powerRZ 2 (-1 + 1)) with 1%R.
      change (powerRZ 2 (-1)) with (/ (2 * 1))%R. split; nra.
    - change (-1 - 52) with (-53). fold t.
      assert (Es : ((1 - t) ^ 2 / t = IZR (2 ^ 53 - 2) + t)%R).
      { rewrite minus_IZR.
        apply Rmult_eq_reg_r with t; [|lra].
        unfold Rdiv. rewrite Rmult_assoc, Rinv_l by lra. nra. }
      rewrite Es. lra. }
  change (-1 - 52) with (-53) in Hbound. fold t in Hbound.
  rewrite minus_IZR in Hbound.
  split.
  - rewrite <- round64_0. apply round64_mono. split; [lra|apply Hsq].
  - apply Rle_trans with (round64 ((1 - t) ^ 2)).
    + apply round64_mono. exact Hsq.
    + rewrite Hbound. nra.
Qed.

(** The product of an account count below [2^53] and a float that is at
    most [1 - 2^-52] rounds below the count. *)
Lemma product_rounds_below (n : Z) (p : R) :
  0 < n < 2 ^ 53 ->
  (0 <= p <= 1 - 2 * powerRZ 2 (-53))%R ->
  (0 <= round64 (IZR n * p) < IZR n)%R.
Proof.
  intros [Hn0 Hn] [Hp0 Hp].
  destruct half_ulp_facts as (Ht & Et & Hsmall). cbv zeta in *.
  set (t := powerRZ 2 (-53)) in *.
  assert (HN : (0 < IZR n)%R) by (apply IZR_lt; exact Hn0).
  destruct (Z.log2_spec n Hn0) as [Klo Khi].
  set (k := Z.log2 n) in *.
  assert (Hk0 : 0 <= k) by apply Z.log2_nonneg.
  assert (Hk : k <= 52).
  { assert (2 ^ k < 2 ^ 53) by lia.
    apply Z.pow_lt_mono_r_iff in H; lia. }
  (* the float below [n] *)
  set (m := n * 2 ^ (52 - k) - 1).
  assert (Hpow : 2 ^ k * 2 ^ (52 - k) = 2 ^ 52).
  { rewrite <- Z.pow_add_r by lia. f_equal. lia. }
  assert (Hpow' : 2 ^ Z.succ k * 2 ^ (52 - k) = 2 ^ 53).
  { rewrite <- Z.pow_add_r by lia. f_equal. lia. }
  assert (Hs : 0 < 2 ^ (52 - k)) by (apply Z.pow_pos_nonneg; lia).
  assert (Hm : 0 <= m < 2 ^ 53).
  { unfold m. split; [nia|]. nia. }
  pose proof (pow2_pos (k - 52)) as Hu.
  assert (Eu : (IZR (2 ^ (52 - k)) * powerRZ 2 (k - 52) = 1)%R).
  { rewrite <- pow2_nonneg_exp by lia. rewrite <- pow2_add.
    replace (52 - k + (k - 52)) with 0 by lia. reflexivity. }
  assert (En : (IZR m * powerRZ 2 (k - 52) = IZR n - powerRZ 2 (k - 52))%R).
  { unfold m. rewrite minus_IZR, mult_IZR. nra. }
  assert (Eulp : (powerRZ 2 (k - 52) = IZR (2 ^ k) * (2 * t))%R).
  { unfold t. rewrite <- (pow2_nonneg_exp k) by lia.
    replace (2 * powerRZ 2 (-53))%R with (powerRZ 2 (-52)).
    - rewrite <- pow2_add. f_equal. 
    - replace (-52) with (1 + -53) by lia. rewrite pow2_add. simpl. lra. }
  assert (Hz : (IZR n * p <= IZR m * powerRZ 2 (k - 52))%R).
  { rewrite En, Eulp. apply IZR_le in Klo. nra. }
  split.
  - rewrite <- round64_0. apply round64_mono. split; [lra|nra].
  - apply Rle_lt_trans with (round64 (IZR m * powerRZ 2 (k - 52))).
    + apply round64_mono. split; [nra|exact Hz].
    + rewrite (round64_fixed m (k - 52) Hm), En. lra.
Qed.

(** In binary64 too the pick of the source is a valid id, for a float
    [u] below 1 (at most [1 - 2^-53], the float below 1) and fewer than
    [2^53] accounts. *)
Lemma pick_skewed64_range (n : Z) (u : R) :
  0 < n < 2 ^ 53 ->
  (0 <= u <= 1 - powerRZ 2 (-53))%R ->
  0 <= Flat.pick_skewed64 Flat.ZIPF_SKEW n u < n.
Proof.
  intros Hn Hu. unfold Flat.pick_skewed64. apply int_of_R_range.
  rewrite (round64_IZR n) by lia.
  apply product_rounds_below; [exact Hn|].
  apply square_rounds_below_one. exact Hu.
Qed.

Lemma ln2_le_1 : (ln 2 <= 1)%R.
Proof.
  pose proof (exp_ineq1_le (ln 2)) as H. rewrite exp_ln in H by lra. lra.
Qed.

(** A power of 0.5 with a tiny exponent rounds to 1.0. *)
Lemma tiny_power_rounds_to_one :
  float_pow64 (1 / 2) (/ 2 ^ 60) = 1%R.
Proof.
  unfold float_pow64, float_pow.
  destruct (Req_dec_T (1 / 2) 0) as [|_]; [lra|].
  destruct half_ulp_facts as (Ht & Et & Hsmall). cbv zeta in *.
  set (t := powerRZ 2 (-53)) in *.
  set (s := (/ 2 ^ 60)%R).
  assert (Hs : (0 < s)%R) by (unfold s; apply Rinv_0_lt_compat; apply pow_lt; lra).
  assert (Est : (s * IZR (2 ^ 60) = 1)%R).
  { unfold s. rewrite (pow_IZR 2 60). change (Z.of_nat 60) with 60.
    apply Rinv_l. apply not_0_IZR. discriminate. }
  assert (Hst : (s * IZR (2 ^ 53) < / 100)%R).
  { assert (E : (IZR (2 ^ 60) = 128 * IZR (2 ^ 53))%R).
    { rewrite <- mult_IZR. apply f_equal. reflexivity. }
    rewrite E in Est. nra. }
  set (x := Rpower (1 / 2) s).
  assert (Hx1 : (x < 1)%R).
  { assert (Hl : (ln (1 / 2) < 0)%R).
    { rewrite <- ln_1. apply ln_increasing; lra. }
    unfold x, Rpower. apply Rlt_le_trans with (exp 0).
    - apply exp_increasing. nra.
    - rewrite exp_0. lra. }
  assert (Hx0 : (1 - s <= x)%R).
  { unfold x, Rpower.
    replace (1 / 2)%R with (/ 2)%R by lra. rewrite ln_Rinv by lra.
    pose proof (exp_ineq1_le (s * - ln 2)) as H.
    pose proof ln2_le_1. pose proof ln2_pos. nra. }
  assert (Hss : (s < / 100)%R).
  { assert (1 <= IZR (2 ^ 53))%R by (apply IZR_le; lia). nra. }
  rewrite (round64_eval x (-1) (2 ^ 53)).
  - change (-1 - 52) with (-53). fold t. lra.
  - change (powerRZ 2 (-1 + 1)) with 1%R.
    change (powerRZ 2 (-1)) with (/ (2 * 1))%R. split; lra.
  - change (-1 - 52) with (-53). fold t.
    assert (Ex : (x / t = x * IZR (2 ^ 53))%R).
    { apply Rmult_eq_reg_r with t; [|lra].
      unfold Rdiv. rewrite Rmult_assoc, Rinv_l by lra. nra. }
    rewrite Ex.
    assert (0 < IZR (2 ^ 53))%R by (apply IZR_lt; reflexivity).
    split; nra.
Qed.

Lemma pick_skewed_range (n : Z) (u : R) :
  (0 <= u < 1)%R -> 0 < n -> 0 <= Flat.pick_skewed n u < n.
Proof.
  intros Hu Hn. unfold Flat.pick_skewed. apply int_of_R_range.
  assert (Hs : (0 < Flat.ZIPF_SKEW)%R) by (unfold Flat.ZIPF_SKEW; lra).
  pose proof (float_pow_unit u Flat.ZIPF_SKEW Hu Hs) as [Hp0 Hp1].
  assert (HN : (0 < IZR n)%R) by (apply IZR_lt; exact Hn).
  split; nra.
Qed.

Lemma time_offset_range (u : R) :
  (0 <= u < 1)%R -> 0 <= Flat.time_offset u < Flat.YEAR_SECONDS.
Proof.
  intros Hu. unfold Flat.time_offset. apply int_of_R_range.
  pose proof (sqrt_unit u Hu) as [Hs0 Hs1].
  assert (HY : (0 < IZR Flat.YEAR_SECONDS)%R).
  { apply IZR_lt. reflexivity. }
  split; nra.
Qed.

(** C3.  The skewed pick [int(N * u ** 2.0)] of the source lies in
    [[0, N)] for every draw [u] of [[0, 1)] and every [N > 0]: in exact
    arithmetic, and also with every operation rounded to binary64, for a
    float [u] below 1 and fewer than [2^53] accounts.  Both account ids of
    every generated transaction, hence of every transaction of every
    batch that the generator yields, are therefore valid ids.  (For an
    arbitrary exponent [S > 0] the range holds in exact arithmetic only,
    as the lemma after this one shows.) *)
Theorem pick_account_in_range (g : Flat.DataGenerator) (random : nat -> R) :
  0 < Flat.num_accounts g ->
  (forall k, 0 <= random k < 1)%R ->
  (forall u, (0 <= u < 1)%R ->
     0 <= Flat._pick_account_id g u < Flat.num_accounts g) /\
  (Flat.num_accounts g < 2 ^ 53 ->
   forall u, (0 <= u <= 1 - powerRZ 2 (-53))%R ->
     0 <= Flat.pick_skewed64 Flat.ZIPF_SKEW (Flat.num_accounts g) u
       < Flat.num_accounts g) /\
  (forall i,
     let t := Flat.transaction_of g random i in
     0 <= Flat.from_acc t < Flat.num_accounts g /\
     0 <= Flat.to_acc t < Flat.num_accounts g) /\
  (forall batch_size fuel batch t,
     0 < batch_size ->
     (Z.to_nat (Flat.num_transactions g) + 2 <= fuel)%nat ->
     In batch (fst (Flat.consume (Flat.generate_transactions g random batch_size)
                      fuel Flat.start)) ->
     In t batch ->
     0 <= Flat.from_acc t < Flat.num_accounts g /\
     0 <= Flat.to_acc t < Flat.num_accounts g).
Proof.
  intros Hn Hr.
  assert (Hrec : forall i,
             let t := Flat.transaction_of g random i in
             0 <= Flat.from_acc t < Flat.num_accounts g /\
             0 <= Flat.to_acc t < Flat.num_accounts g).
  { intros i. unfold Flat.transaction_of, Flat._pick_account_id.
    cbn [Flat.from_acc Flat.to_acc].
    split; apply pick_skewed_range; auto. }
  split; [|split; [|split]].
  - intros u Hu. apply pick_skewed_range; assumption.
  - intros Hbig u Hu. apply pick_skewed64_range; [lia|exact Hu].
  - exact Hrec.
  - intros batch_size fuel batch t Hbs Hfuel Hb Ht.
    destruct (generated_records (Flat.transaction_of g random)
                (Flat.num_transactions g) batch_size Hbs fuel Hfuel batch t Hb Ht)
      as (i & _ & ->).
    apply Hrec.
Qed.

(** The range of C3 does not hold for every exponent [S > 0] once the
    power is rounded: with [S = 2^-60], [u = 0.5] and 10 accounts,
    [0.5 ** S] is [1.0] in binary64 and the expression evaluates to 10,
    which is no id of the 10 accounts. *)
Lemma pick_small_exponent_out_of_range :
  (0 <= 1 / 2 < 1)%R /\ (0 < / 2 ^ 60)%R /\ 0 < 10 /\
  Flat.pick_skewed64 (/ 2 ^ 60) 10 (1 / 2) = 10 /\
  ~ (0 <= Flat.pick_skewed64 (/ 2 ^ 60) 10 (1 / 2) < 10).
Proof.
  assert (E : Flat.pick_skewed64 (/ 2 ^ 60) 10 (1 / 2) = 10).
  { unfold Flat.pick_skewed64. rewrite tiny_power_rounds_to_one.
    rewrite (round64_IZR 10) by lia. rewrite Rmult_1_r.
    rewrite (round64_IZR 10) by lia.
    unfold int_of_R. destruct (Rle_dec 0 10) as [_|H]; [|lra].
    apply ZfloorZ. }
  split; [lra|]. split; [apply Rinv_0_lt_compat; apply pow_lt; lra|].
  split; [lia|]. split; [exact E|]. rewrite E. lia.
Qed.

(** C5.  The temporal offset [int(YearSeconds * sqrt(u))] lies in
    [[0, YearSeconds)] for every draw [u] of [[0, 1)], so the timestamp
    of every generated transaction, hence of every transaction of every
    batch that the generator yields, falls in the year that starts at
    [start_time]. *)
Theorem timestamp_in_year (g : Flat.DataGenerator) (random : nat -> R) :
  (forall k, 0 <= random k < 1)%R ->
  (forall u, (0 <= u < 1)%R ->
     0 <= Flat.time_offset u < Flat.YEAR_SECONDS) /\
  (forall i,
     let t := Flat.transaction_of g random i in
     Flat.start_time g <= Flat.ts t < Flat.start_time g + Flat.YEAR_SECONDS) /\
  (forall batch_size fuel batch t,
     0 < batch_size ->
     (Z.to_nat (Flat.num_transactions g) + 2 <= fuel)%nat ->
     In batch (fst (Flat.consume (Flat.generate_transactions g random batch_size)
                      fuel Flat.start)) ->
     In t batch ->
     Flat.start_time g <= Flat.ts t < Flat.start_time g + Flat.YEAR_SECONDS).
Proof.
  intros Hr.
  assert (Hrec : forall i,
             let t := Flat.transaction_of g random i in
             Flat.start_time g <= Flat.ts t
             < Flat.start_time g + Flat.YEAR_SECONDS).
  { intros i. unfold Flat.transaction_of. cbn [Flat.ts].
    pose proof (time_offset_range (random (4 * i)%nat) (Hr _)). lia. }
  split; [|split].
  - intros u Hu. apply time_offset_range. exact Hu.
  - exact Hrec.
  - intros batch_size fuel batch t Hbs Hfuel Hb Ht.
    destruct (generated_records (Flat.transaction_of g random)
                (Flat.num_transactions g) batch_size Hbs fuel Hfuel batch t Hb Ht)
      as (i & _ & ->).
    apply Hrec.
Qed.

Lemma pick_account_in_range_witness :
  let g := Flat.mkDataGenerator 10 1 0 in
  let random := fun _ : nat => (1 / 2)%R in
  (forall u, (0 <= u < 1)%R -> 0 <= Flat._pick_account_id g u < 10) /\
  (forall u, (0 <= u <= 1 - powerRZ 2 (-53))%R ->
     0 <= Flat.pick_skewed64 Flat.ZIPF_SKEW 10 u < 10) /\
  (forall i,
     let t := Flat.transaction_of g random i in
     0 <= Flat.from_acc t < 10 /\ 0 <= Flat.to_acc t < 10).
Proof.
  intros g random.
  destruct (pick_account_in_range g random
              ltac:(reflexivity) ltac:(intros; unfold random; lra))
    as (H1 & H2 & H3 & _).
  exact (conj H1 (conj (H2 ltac:(reflexivity)) H3)).
Defined.

Lemma timestamp_in_year_witness :
  let g := Flat.mkDataGenerator 10 1 1700000000 in
  let random := fun _ : nat => (1 / 4)%R in
  (forall u, (0 <= u < 1)%R -> 0 <= Flat.time_offset u < Flat.YEAR_SECONDS) /\
  (forall i,
     let t := Flat.transaction_of g random i in
     1700000000 <= Flat.ts t < 1700000000 + Flat.YEAR_SECONDS).
Proof.
  intros g random.
  destruct (timestamp_in_year g random ltac:(intros; unfold random; lra))
    as (H1 & H2 & _).
  exact (conj H1 H2).
Defined.

(** With 10 accounts and the draw 0.5 the pick is [int(10 * 0.25) = 2]. *)
Example pick_scenario : Flat.pick_skewed 10 (1 / 2) = 2.
Proof.
  unfold Flat.pick_skewed, Flat.ZIPF_SKEW, float_pow.
  destruct (Req_dec_T (1 / 2) 0) as [H|_]; [lra|].
  replace 2%R with (INR 2) at 2 by (simpl; lra).
  rewrite Rpower_pow by lra.
  unfold int_of_R. destruct (Rle_dec 0 (10 * (1 / 2) ^ 2)) as [_|H]; [|lra].
  apply Zfloor_eq. simpl. lra.
Qed.

(** ** Percentiles *)

Lemma insert_perm (x : Q) (l : list Q) : Permutation (x :: l) (insert x l).
Proof.
  induction l as [|y l IH]; simpl.
  - apply Permutation_refl.
  - destruct (Qle_bool x y).
    + apply Permutation_refl.
    + eapply perm_trans; [apply perm_swap|]. apply perm_skip. exact IH.
Qed.

Lemma sort_perm (l : list Q) : Permutation l (sort l).
Proof.
  induction l as [|x l IH]; simpl.
  - apply perm_nil.
  - eapply perm_trans; [apply perm_skip; exact IH|]. apply insert_perm.
Qed.

Lemma sort_length (l : list Q) : List.length (sort l) = List.length l.
Proof. symmetry. apply Permutation_length, sort_perm. Qed.

Lemma insert_sorted (x : Q) (l : list Q) :
  StronglySorted Qle l -> StronglySorted Qle (insert x l).
Proof.
  induction 1 as [|y l Hs IH Hall]; simpl.
  - constructor; constructor.
  - destruct (Qle_bool x y) eqn:E.
    + apply Qle_bool_iff in E. constructor.
      * constructor; assumption.
      * constructor; [exact E|].
        eapply Forall_impl; [|exact Hall].
        intros z Hz. eapply Qle_trans; eassumption.
    + assert (Hyx : (y <= x)%Q).
      { destruct (Qlt_le_dec y x) as [Hlt|Hle].
        - apply Qlt_le_weak. exact Hlt.
        - apply Qle_bool_iff in Hle. congruence. }
      constructor; [exact IH|].
      eapply Permutation_Forall; [apply insert_perm|].
      constructor; assumption.
Qed.

Lemma sort_sorted (l : list Q) : StronglySorted Qle (sort l).
Proof.
  induction l as [|x l IH]; simpl.
  - constructor.
  - apply insert_sorted. exact IH.
Qed.

(** In an ascending list a later position holds a value at least as
    large. *)
Lemma sorted_nth (l : list Q) :
  StronglySorted Qle l ->
  forall i j a b, (i <= j)%nat ->
    nth_error l i = Some a -> nth_error l j = Some b -> (a <= b)%Q.
Proof.
  induction 1 as [|x l Hs IH Hall]; intros i j a b Hij Hi Hj.
  - destruct i; discriminate.
  - destruct i as [|i], j as [|j]; simpl in *; try lia.
    + inversion Hi; inversion Hj; subst. apply Qle_refl.
    + inversion Hi; subst. apply nth_error_In in Hj.
      rewrite Forall_forall in Hall. apply Hall. exact Hj.
    + eapply IH; [|eassumption|eassumption]. lia.
Qed.

Lemma getitem_in_range {A : Type} (l : list A) (j : Z) :
  0 <= j < Z.of_nat (List.length l) ->
  exists a, getitem l j = Ok a /\ nth_error l (Z.to_nat j) = Some a.
Proof.
  intros [H0 Hn]. unfold getitem.
  destruct (j <? 0) eqn:E; [apply Z.ltb_lt in E; lia|].
  destruct (0 <=? j) eqn:E0; [|apply Z.leb_gt in E0; lia].
  destruct (j <? Z.of_nat (List.length l)) eqn:E1; [|apply Z.ltb_ge in E1; lia].
  simpl.
  destruct (nth_error l (Z.to_nat j)) as [a|] eqn:En.
  - exists a. split; reflexivity.
  - apply nth_error_None in En. lia.
Qed.

(** [int(n * K)] for a non-negative [n] and a fraction [K = a / b]. *)
Lemma int_of_fraction (n a : Z) (b : positive) :
  0 <= n -> 0 <= a ->
  int_of_Q (inject_Z n * (a # b)) = n * a / Z.pos b.
Proof.
  intros Hn Ha. unfold int_of_Q.
  assert (H : Qle_bool 0 (inject_Z n * (a # b)) = true).
  { apply Qle_bool_iff. apply Qmult_le_0_compat.
    - unfold Qle. simpl. lia.
    - unfold Qle. simpl. lia. }
  rewrite H. unfold Qfloor, Qmult, inject_Z. simpl. reflexivity.
Qed.

Lemma floor_of_fraction (n a : Z) (b : positive) :
  Qfloor (inject_Z n * (a # b)) = n * a / Z.pos b.
Proof. unfold Qfloor, Qmult, inject_Z. simpl. reflexivity. Qed.

(** C4.  On the empty list the computation returns the empty dict.  On a
    non-empty list of [n] samples it returns, under the three keys, the
    items of the ascending arrangement at the positions [floor(n * K)] for
    [K] = 0.5, 0.9 and 0.99; the positions are in bounds, the three values
    are ordered and each of them is one of the samples. *)
Theorem percentiles_law :
  Flat._calc_percentiles [] = Ok [] /\
  forall data : list Q, data <> [] ->
    let sorted := sort data in
    let n := Z.of_nat (List.length data) in
    let i50 := Qfloor (inject_Z n * (5 # 10)) in
    let i90 := Qfloor (inject_Z n * (9 # 10)) in
    let i99 := Qfloor (inject_Z n * (99 # 100)) in
    StronglySorted Qle sorted /\
    Permutation data sorted /\
    (0 <= i50 < n /\ 0 <= i90 < n /\ 0 <= i99 < n) /\
    exists p50 p90 p99,
      nth_error sorted (Z.to_nat i50) = Some p50 /\
      nth_error sorted (Z.to_nat i90) = Some p90 /\
      nth_error sorted (Z.to_nat i99) = Some p99 /\
      Flat._calc_percentiles data
      = Ok [("p50_ms", p50); ("p90_ms", p90); ("p99_ms", p99)] /\
      (p50 <= p90)%Q /\ (p90 <= p99)%Q /\
      In p50 data /\ In p90 data /\ In p99 data.
Proof.
  split; [reflexivity|].
  intros data Hne sorted n i50 i90 i99.
  assert (Hn : 0 < n).
  { subst n. destruct data; [contradiction|]. cbn [List.length]. lia. }
  assert (Hlen : Z.of_nat (List.length sorted) = n).
  { subst sorted n. rewrite sort_length. reflexivity. }
  assert (E50 : i50 = n * 5 / 10) by apply floor_of_fraction.
  assert (E90 : i90 = n * 9 / 10) by apply floor_of_fraction.
  assert (E99 : i99 = n * 99 / 100) by apply floor_of_fraction.
  assert (Hidx : 0 <= i50 <= i90 /\ i90 <= i99 < n).
  { rewrite E50, E90, E99.
    pose proof (Z.div_mod (n * 5) 10 ltac:(lia)).
    pose proof (Z.mod_pos_bound (n * 5) 10 ltac:(lia)).
    pose proof (Z.div_mod (n * 9) 10 ltac:(lia)).
    pose proof (Z.mod_pos_bound (n * 9) 10 ltac:(lia)).
    pose proof (Z.div_mod (n * 99) 100 ltac:(lia)).
    pose proof (Z.mod_pos_bound (n * 99) 100 ltac:(lia)).
    lia. }
  pose proof (sort_sorted data) as Hsorted. fold sorted in Hsorted.
  pose proof (sort_perm data) as Hperm. fold sorted in Hperm.
  destruct (getitem_in_range sorted i50 ltac:(lia)) as (p50 & G50 & N50).
  destruct (getitem_in_range sorted i90 ltac:(lia)) as (p90 & G90 & N90).
  destruct (getitem_in_range sorted i99 ltac:(lia)) as (p99 & G99 & N99).
  split; [exact Hsorted|]. split; [exact Hperm|].
  split; [lia|].
  exists p50, p90, p99.
  split; [exact N50|]. split; [exact N90|]. split; [exact N99|].
  split.
  - unfold Flat._calc_percentiles.
    destruct data as [|q data']; [contradiction|].
    fold sorted. cbv zeta. rewrite Hlen.
    rewrite !int_of_fraction by lia.
    rewrite <- E50, <- E90, <- E99.
    rewrite G50, G90, G99. reflexivity.
  - split; [|split; [|repeat split]].
    + eapply (sorted_nth sorted Hsorted); [|exact N50|exact N90]. lia.
    + eapply (sorted_nth sorted Hsorted); [|exact N90|exact N99]. lia.
    + eapply Permutation_in; [apply Permutation_sym; exact Hperm|].
      eapply nth_error_In; exact N50.
    + eapply Permutation_in; [apply Permutation_sym; exact Hperm|].
      eapply nth_error_In; exact N90.
    + eapply Permutation_in; [apply Permutation_sym; exact Hperm|].
      eapply nth_error_In; exact N99.
Qed.

(** The samples 1 to 10, given out of order: the percentiles are the
    items 5, 9 and 9 of the sorted list. *)
Example percentiles_one_to_ten :
  Flat._calc_percentiles
    [3; 10; 1; 7; 5; 2; 9; 4; 8; 6]%Q
  = Ok [("p50_ms", 6%Q); ("p90_ms", 10%Q); ("p99_ms", 10%Q)].
Proof. reflexivity. Qed.

Lemma percentiles_law_witness :
  exists p50 p90 p99,
    Flat._calc_percentiles [2; 1; 3]%Q
    = Ok [("p50_ms", p50); ("p90_ms", p90); ("p99_ms", p99)] /\
    (p50 <= p90)%Q /\ (p90 <= p99)%Q /\
    In p50 [2; 1; 3]%Q /\ In p90 [2; 1; 3]%Q /\ In p99 [2; 1; 3]%Q.
Proof.
  destruct (proj2 percentiles_law [2; 1; 3]%Q ltac:(discriminate))
    as (_ & _ & _ & p50 & p90 & p99 & _ & _ & _ & H).
  exists p50, p90, p99. exact H.
Defined.

(** ** The monitor *)

Lemma truediv_ok (a b : Q) : ~ (b == 0)%Q -> truediv a b = Ok (a / b)%Q.
Proof.
  intros Hb. unfold truediv.
  destruct (Qeq_bool b 0) eqn:E; [|reflexivity].
  apply Qeq_bool_iff in E. contradiction.
Qed.

Lemma effective_duration_spec (s e : snapshot) :
  let measured := (time e - time s)%Q in
  let duration := Flat.effective_duration s e in
  ((measured <= 0)%Q -> duration = 1%Q) /\
  ((0 < measured)%Q -> duration = measured) /\
  (0 < duration)%Q.
Proof.
  cbv zeta. unfold Flat.effective_duration.
  destruct (Qle_bool (time e - time s) 0) eqn:E.
  - apply Qle_bool_iff in E. repeat split.
    intros H. exfalso. apply (Qlt_irrefl 0).
    eapply Qlt_le_trans; eassumption.
  - assert (H : (0 < time e - time s)%Q).
    { destruct (Qlt_le_dec 0 (time e - time s)) as [Hlt|Hle]; [exact Hlt|].
      apply Qle_bool_iff in Hle. congruence. }
    repeat split; [|exact H].
    intros Hle. exfalso. apply (Qlt_irrefl 0).
    eapply Qlt_le_trans; eassumption.
Qed.

Lemma cpu_load_pct_spec (s e : snapshot) :
  let delta_total := (cpu_total e - cpu_total s)%Q in
  let delta_idle := (cpu_idle e - cpu_idle s)%Q in
  ((0 < delta_total)%Q ->
   Flat.cpu_load_pct s e = Ok (100 * (1 - delta_idle / delta_total))%Q) /\
  ((delta_total <= 0)%Q -> Flat.cpu_load_pct s e = Ok 0%Q).
Proof.
  cbv zeta. unfold Flat.cpu_load_pct.
  destruct (Qlt_le_dec 0 (cpu_total e - cpu_total s)) as [Hlt|Hle]; split; intros H.
  - rewrite truediv_ok; [reflexivity|].
    intros Heq. apply (Qlt_not_eq _ _ Hlt). symmetry. exact Heq.
  - exfalso. apply (Qlt_irrefl 0). eapply Qlt_le_trans; eassumption.
  - exfalso. apply (Qlt_irrefl 0). eapply Qlt_le_trans; eassumption.
  - reflexivity.
Qed.

Lemma cpu_load_pct_total (s e : snapshot) :
  exists load, Flat.cpu_load_pct s e = Ok load.
Proof.
  destruct (cpu_load_pct_spec s e) as [Hpos Hneg].
  destruct (Qlt_le_dec 0 (cpu_total e - cpu_total s)) as [Hlt|Hle]; eauto.
Qed.

(** The metrics are always computed: neither divisor can be zero. *)
Lemma metrics_of_value (s e : snapshot) (load : Q) :
  Flat.cpu_load_pct s e = Ok load ->
  let duration := Flat.effective_duration s e in
  let mib := inject_Z (1024 * 1024) in
  Flat.metrics_of s e
  = Ok {| cpu_load_percent := round2 load;
          memory_used_gb := round2 (inject_Z (mem_used_kb e) / mib);
          disk_read_mb_s :=
            round2 (inject_Z (disk_read_bytes e - disk_read_bytes s) / duration / mib);
          disk_write_mb_s :=
            round2 (inject_Z (disk_write_bytes e - disk_write_bytes s) / duration / mib) |}.
Proof.
  intros Hload. cbv zeta.
  destruct (effective_duration_spec s e) as (_ & _ & Hdur).
  assert (Hd : ~ (Flat.effective_duration s e == 0)%Q).
  { intros Heq. apply (Qlt_not_eq _ _ Hdur). symmetry. exact Heq. }
  assert (Hmib : ~ (inject_Z (1024 * 1024) == 0)%Q) by discriminate.
  unfold Flat.metrics_of. rewrite Hload. cbn [bind].
  rewrite (truediv_ok _ _ Hmib). cbn [bind].
  rewrite (truediv_ok _ _ Hd). cbn [bind].
  rewrite (truediv_ok _ _ Hmib). cbn [bind].
  rewrite (truediv_ok _ _ Hd). cbn [bind].
  rewrite (truediv_ok _ _ Hmib). cbn [bind].
  reflexivity.
Qed.

Lemma metrics_of_total (s e : snapshot) : exists r, Flat.metrics_of s e = Ok r.
Proof.
  destruct (cpu_load_pct_total s e) as [load Hload].
  eexists. apply (metrics_of_value s e load Hload).
Qed.

(** C7.  Between any two snapshots: the load is
    [100 * (1 - delta_idle / delta_total)] when [delta_total > 0] and 0
    otherwise; the duration that divides the disk deltas is the measured
    one when that is positive and 1 otherwise, hence never zero;
    [get_metrics] returns without a division by zero, reporting the load
    and the disk deltas per second and MiB, rounded to two places. *)
Theorem metrics_law (fs : filesystem) (now : Q) (s e : snapshot) :
  let m := {| start_stats := s; end_stats := Some e |} in
  let delta_total := (cpu_total e - cpu_total s)%Q in
  let delta_idle := (cpu_idle e - cpu_idle s)%Q in
  let measured := (time e - time s)%Q in
  let duration := Flat.effective_duration s e in
  let mib := inject_Z (1024 * 1024) in
  ((0 < delta_total)%Q ->
   Flat.cpu_load_pct s e = Ok (100 * (1 - delta_idle / delta_total))%Q) /\
  ((delta_total <= 0)%Q -> Flat.cpu_load_pct s e = Ok 0%Q) /\
  ((measured <= 0)%Q -> duration = 1%Q) /\
  ((0 < measured)%Q -> duration = measured) /\
  (0 < duration)%Q /\
  exists load r,
    Flat.cpu_load_pct s e = Ok load /\
    Flat.get_metrics fs now m = Ok (r, m) /\
    cpu_load_percent r = round2 load /\
    ((delta_total <= 0)%Q -> (cpu_load_percent r == 0)%Q) /\
    disk_read_mb_s r
    = round2 (inject_Z (disk_read_bytes e - disk_read_bytes s) / duration / mib) /\
    disk_write_mb_s r
    = round2 (inject_Z (disk_write_bytes e - disk_write_bytes s) / duration / mib).
Proof.
  cbv zeta.
  destruct (cpu_load_pct_spec s e) as [Hpos Hneg].
  destruct (effective_duration_spec s e) as (Hclamp & Hkeep & Hdur).
  split; [exact Hpos|]. split; [exact Hneg|].
  split; [exact Hclamp|]. split; [exact Hkeep|]. split; [exact Hdur|].
  destruct (cpu_load_pct_total s e) as [load Hload].
  exists load. eexists. split; [exact Hload|]. split.
  - unfold Flat.get_metrics. cbn [end_stats start_stats bind].
    rewrite (metrics_of_value s e load Hload). cbn [bind].
    reflexivity.
  - cbn [cpu_load_percent disk_read_mb_s disk_write_mb_s].
    split; [reflexivity|]. split; [|split; reflexivity].
    intros Hle. rewrite (Hneg Hle) in Hload. inversion Hload; subst.
    reflexivity.
Qed.

Lemma metrics_law_witness :
  let s := mkSnapshot 100 5000 4000 0 0 16000000 0 in
  let e := mkSnapshot 110 6000 4250 20971520 0 16000000 8388608 in
  Flat.cpu_load_pct s e
  = Ok (100 * (1 - (cpu_idle e - cpu_idle s) / (cpu_total e - cpu_total s)))%Q /\
  Flat.effective_duration s e = (time e - time s)%Q.
Proof.
  intros s e.
  destruct (metrics_law (fun _ => None) 0 s e) as (Hpos & _ & _ & Hkeep & _).
  split; [apply Hpos; reflexivity|apply Hkeep; reflexivity].
Defined.

(** Ten seconds, 1000 ticks of which 250 idle, 20 MiB read: 75 percent
    load and 2 MiB/s. *)
Example metrics_scenario :
  let s := mkSnapshot 100 5000 4000 0 0 16000000 0 in
  let e := mkSnapshot 110 6000 4250 20971520 0 16000000 8388608 in
  Flat.metrics_of s e
  = Ok {| cpu_load_percent := 7500 # 100;
          memory_used_gb := 800 # 100;
          disk_read_mb_s := 200 # 100;
          disk_write_mb_s := 0 # 100 |}.
Proof. vm_compute. reflexivity. Qed.

(** The clock did not advance and the counters did not move: no division
    by zero, the load is 0 and the duration is 1. *)
Example metrics_frozen_clock :
  let s := mkSnapshot 100 5000 4000 0 0 16000000 0 in
  let e := mkSnapshot 100 5000 4000 1048576 0 16000000 0 in
  Flat.metrics_of s e
  = Ok {| cpu_load_percent := 0 # 100;
          memory_used_gb := 0 # 100;
          disk_read_mb_s := 100 # 100;
          disk_write_mb_s := 0 # 100 |}.
Proof. vm_compute. reflexivity. Qed.

(** Without its counter files every reader returns zeros. *)
Lemma readers_degrade (fs : filesystem) :
  (fs "/proc/stat" = None -> Flat._get_cpu_times fs = Ok (0%Q, 0%Q)) /\
  (fs "/proc/diskstats" = None -> Flat._get_disk_io fs = Ok (0, 0)) /\
  (fs "/proc/meminfo" = None -> Flat._get_mem_info fs = Ok (0, 0)).
Proof.
  unfold Flat._get_cpu_times, Flat._get_disk_io, Flat._get_mem_info,
    Flat._read_proc_file.
  repeat split; intros ->; reflexivity.
Qed.

(** C8.  When the three counter files cannot be read, [_read_proc_file]
    returns the empty string instead of raising, every raw field of the
    snapshot is 0, and the capture returns; creating the monitor,
    stopping it and asking for its metrics all return as well. *)
Theorem capture_degrades (fs : filesystem) (now : Q) :
  fs "/proc/stat" = None ->
  fs "/proc/diskstats" = None ->
  fs "/proc/meminfo" = None ->
  let zeros := {| time := now; cpu_total := 0; cpu_idle := 0;
                  disk_read_bytes := 0; disk_write_bytes := 0;
                  mem_total_kb := 0; mem_used_kb := 0 |} in
  (forall path, fs path = None -> Flat._read_proc_file fs path = "") /\
  Flat._capture_stats fs now = Ok zeros /\
  Flat.init fs now = Ok {| start_stats := zeros; end_stats := None |} /\
  (forall m, Flat.stop fs now m
             = Ok {| start_stats := start_stats m; end_stats := Some zeros |}) /\
  (forall m, exists r m', Flat.get_metrics fs now m = Ok (r, m')).
Proof.
  intros Hstat Hdisk Hmem zeros.
  destruct (readers_degrade fs) as (Hc & Hd & Hm).
  assert (Hcap : Flat._capture_stats fs now = Ok zeros).
  { unfold Flat._capture_stats.
    rewrite (Hc Hstat), (Hd Hdisk), (Hm Hmem). reflexivity. }
  split; [|split; [exact Hcap|split; [|split]]].
  - intros path Hp. unfold Flat._read_proc_file. rewrite Hp. reflexivity.
  - unfold Flat.init. rewrite Hcap. reflexivity.
  - intros m. unfold Flat.stop. rewrite Hcap. reflexivity.
  - intros m. unfold Flat.get_metrics.
    destruct (end_stats m) as [e|] eqn:E; cbn [bind].
    + rewrite E. destruct (metrics_of_total (start_stats m) e) as [r Hr].
      rewrite Hr. cbn [bind]. eauto.
    + unfold Flat.stop. rewrite Hcap. cbn [bind end_stats start_stats].
      destruct (metrics_of_total (start_stats m) zeros) as [r Hr].
      rewrite Hr. cbn [bind]. eauto.
Qed.

Lemma capture_degrades_witness :
  let fs : filesystem := fun _ => None in
  let zeros := {| time := 42; cpu_total := 0; cpu_idle := 0;
                  disk_read_bytes := 0; disk_write_bytes := 0;
                  mem_total_kb := 0; mem_used_kb := 0 |} in
  (forall path, fs path = None -> Flat._read_proc_file fs path = "") /\
  Flat._capture_stats fs 42 = Ok zeros /\
  Flat.init fs 42 = Ok {| start_stats := zeros; end_stats := None |} /\
  (forall m, Flat.stop fs 42 m
             = Ok {| start_stats := start_stats m; end_stats := Some zeros |}) /\
  (forall m, exists r m', Flat.get_metrics fs 42 m = Ok (r, m')).
Proof.
  exact (capture_degrades (fun _ => None) 42 eq_refl eq_refl eq_refl).
Defined.

(** A readable [/proc]: the counters are parsed from the three files. *)
Example capture_reads_counters :
  let lf := String "010" "" in
  let fs : filesystem := fun path =>
    if String.eqb path "/proc/stat"
    then Some ("cpu  100 0 50 800 25 0 25 0" ++ lf ++ "cpu0 100 0 50 800 25 0 25 0" ++ lf)
    else if String.eqb path "/proc/diskstats"
    then Some (" 8 0 sda 10 0 2000 5 20 0 3000 7 0 9 12 0 0 0 0" ++ lf
               ++ " 7 0 loop0 1 0 8 0 0 0 0 0 0 0 0 0 0 0 0" ++ lf)
    else if String.eqb path "/proc/meminfo"
    then Some ("MemTotal:       16000000 kB" ++ lf ++ "MemFree:   100 kB" ++ lf
               ++ "MemAvailable:   12000000 kB" ++ lf)
    else None in
  Flat._capture_stats fs 42
  = Ok {| time := 42; cpu_total := 1000; cpu_idle := 800;
          disk_read_bytes := 1024000; disk_write_bytes := 1536000;
          mem_total_kb := 16000000; mem_used_kb := 4000000 |}.
Proof. vm_compute. reflexivity. Qed.

(** ** More on the counters of the concurrency test *)

Lemma sumZ_set_nth {A : Type} (f : A -> Z) (l : list A) (t : nat) (a a' : A) :
  nth_error l t = Some a ->
  sumZ (map f (set_nth t a' l)) = sumZ (map f l) - f a + f a'.
Proof.
  unfold sumZ. revert t. induction l as [|x l IH]; intros t H.
  - destruct t; discriminate.
  - destruct t as [|t]; cbn in *.
    + inversion H; subst. lia.
    + rewrite (IH t H). lia.
Qed.

Lemma Forall_set_nth {A : Type} (P : A -> Prop) (l : list A) (t : nat) (a' : A) :
  Forall P l -> P a' -> Forall P (set_nth t a' l).
Proof.
  intros Hl Ha. revert t. induction Hl as [|x l Hx Hl IH]; intros t.
  - destruct t; constructor.
  - destruct t as [|t]; cbn; constructor; auto.
Qed.

Lemma store_bounded_mono (ws ws' : list worker) (w : worker) :
  settled_ops ws <= settled_ops ws' ->
  settled_errors ws <= settled_errors ws' ->
  store_bounded ws w -> store_bounded ws' w.
Proof.
  unfold store_bounded. destruct (at_pc w); intros; auto; lia.
Qed.

Lemma settled_set_nth (ws : list worker) (t : nat) (w w' : worker) :
  nth_error ws t = Some w ->
  settled_ops (set_nth t w' ws)
  = settled_ops ws - (succeeded w - pending_ops w) + (succeeded w' - pending_ops w') /\
  settled_errors (set_nth t w' ws)
  = settled_errors ws - (failed w - pending_errors w) + (failed w' - pending_errors w').
Proof.
  intros H. unfold settled_ops, settled_errors. split.
  - apply (sumZ_set_nth (fun w => succeeded w - pending_ops w)). exact H.
  - apply (sumZ_set_nth (fun w => failed w - pending_errors w)). exact H.
Qed.

(** One step of one thread, seen from the totals [so] and [se] of what is
    settled in the whole pool. *)
Lemma worker_step_local (reply stop : bool) (res res' : counters)
  (w w' : worker) (so se : Z) :
  Flat.worker_step reply res stop w = Some (res', w') ->
  ops res <= so ->
  errors res <= se ->
  match at_pc w with
  | AtStoreOps v => v <= so + 1
  | AtStoreErrors v => v <= se + 1
  | _ => True
  end ->
  let so' := so - (succeeded w - pending_ops w) + (succeeded w' - pending_ops w') in
  let se' := se - (failed w - pending_errors w) + (failed w' - pending_errors w') in
  so <= so' /\ se <= se' /\
  ops res' <= so' /\ errors res' <= se' /\
  match at_pc w' with
  | AtStoreOps v => v <= so' + 1
  | AtStoreErrors v => v <= se' + 1
  | _ => True
  end.
Proof.
  intros Hw Ho He Hb. unfold Flat.worker_step in Hw.
  destruct w as [pcw sw fw]. unfold pending_ops, pending_errors.
  cbn [at_pc succeeded failed] in *.
  destruct pcw; [destruct stop|destruct reply| | | | |];
    inversion Hw; subst; clear Hw;
    cbn [at_pc succeeded failed ops errors];
    repeat split; try exact I; lia.
Qed.

(** No step of any thread lets a counter get ahead of what is settled. *)
Lemma step_never_ahead (ev : event) (s s' : system) :
  Flat.step ev s = Some s' -> never_ahead s -> never_ahead s'.
Proof.
  intros Hstep (Hops & Herr & Hall).
  destruct ev as [t reply|]; cbn in Hstep.
  2: { inversion Hstep; subst. repeat split; assumption. }
  destruct (nth_error (pool s) t) as [w|] eqn:Hn; [|discriminate].
  destruct (Flat.worker_step reply (results s) (stop_event s) w)
    as [[res' w']|] eqn:Hw; [|discriminate].
  inversion Hstep; subst; clear Hstep.
  destruct (settled_set_nth (pool s) t w w' Hn) as [So Se].
  assert (Hb : store_bounded (pool s) w).
  { rewrite Forall_forall in Hall. apply Hall. eapply nth_error_In; eauto. }
  destruct (worker_step_local _ _ _ _ _ _ _ _ Hw Hops Herr Hb)
    as (H1 & H2 & H3 & H4 & H5).
  cbv zeta in *. rewrite <- So, <- Se in *.
  unfold never_ahead. cbn [results pool].
  split; [exact H3|]. split; [exact H4|].
  apply Forall_set_nth.
  - eapply Forall_impl; [|exact Hall].
    intros x. apply store_bounded_mono; assumption.
  - exact H5.
Qed.

Lemma exec_never_ahead (schedule : list event) :
  forall s s', Flat.exec schedule s = Some s' -> never_ahead s -> never_ahead s'.
Proof.
  induction schedule as [|ev rest IH]; intros s s' H Hinv; cbn in H.
  - inversion H; subst. exact Hinv.
  - destruct (Flat.step ev s) as [s1|] eqn:E; [|discriminate].
    eapply IH; [exact H|]. eapply step_never_ahead; eauto.
Qed.

Lemma spawn_never_ahead (threads : nat) : never_ahead (Flat.spawn threads).
Proof.
  assert (Hz : forall n,
             settled_ops (repeat (mkWorker AtCheck 0 0) n) = 0 /\
             settled_errors (repeat (mkWorker AtCheck 0 0) n) = 0).
  { unfold settled_ops, settled_errors, sumZ.
    induction n as [|n [IH1 IH2]]; split; try reflexivity.
    - cbn in *. rewrite IH1. reflexivity.
    - cbn in *. rewrite IH2. reflexivity. }
  destruct (Hz threads) as [H1 H2].
  unfold never_ahead, Flat.spawn. cbn [results pool ops errors].
  rewrite H1, H2. repeat split; try lia.
  apply Forall_forall. intros w Hw. apply repeat_spec in Hw. subst.
  exact I.
Qed.

Lemma settled_when_joined (ws : list worker) :
  forallb is_exited ws = true ->
  settled_ops ws = sumZ (map succeeded ws) /\
  settled_errors ws = sumZ (map failed ws).
Proof.
  unfold settled_ops, settled_errors, sumZ.
  induction ws as [|w ws IH]; cbn; intros H; [split; reflexivity|].
  apply andb_true_iff in H as [Hw Hws]. destruct (IH Hws) as [IH1 IH2].
  unfold is_exited in Hw. unfold pending_ops, pending_errors in *.
  destruct (at_pc w); try discriminate. split; lia.
Qed.

Lemma settled_below_total (ws : list worker) :
  settled_ops ws <= sumZ (map succeeded ws) /\
  settled_errors ws <= sumZ (map failed ws).
Proof.
  unfold settled_ops, settled_errors, sumZ.
  induction ws as [|w ws [IH1 IH2]]; cbn; [split; lia|].
  unfold pending_ops, pending_errors in *.
  destruct (at_pc w); split; lia.
Qed.

(** X1.  Whatever the number of threads and the interleaving, the
    counters never over-count: at the end of a run [ops] is at most the
    number of lookups that returned and [errors] at most the number that
    raised, in both scripts.  The throughput reported is never above the
    real one. *)
Theorem counters_never_overcount (threads : nat) (duration_sec : Q)
  (schedule : list event) (s : system) (r : result Q) :
  Flat.run_concurrency_test threads duration_sec schedule = Some (s, r) ->
  ops (results s) <= sumZ (map succeeded (pool s)) /\
  errors (results s) <= sumZ (map failed (pool s)) /\
  Optimized.run_concurrency_test threads duration_sec schedule = Some (s, r).
Proof.
  intros H.
  assert (H' : Optimized.run_concurrency_test threads duration_sec schedule
               = Some (s, r)) by exact H.
  unfold Flat.run_concurrency_test in H.
  destruct (Flat.exec schedule (Flat.spawn threads)) as [s1|] eqn:E; [|discriminate].
  destruct (exec_never_ahead _ _ _ E (spawn_never_ahead threads))
    as (Ho & He & _).
  destruct (settled_below_total (pool s1)) as [S1 S2].
  assert (Hs : s = s1).
  { destruct (Qle_bool 0 duration_sec).
    - destruct (stop_event s1 && Flat.joined s1); [|discriminate].
      inversion H; reflexivity.
    - destruct (stop_event s1); [discriminate|]. inversion H; reflexivity. }
  subst s1. split; [lia|]. split; [lia|exact H'].
Qed.

Lemma counters_never_overcount_witness :
  match Flat.run_concurrency_test 2 10
          [Run 0 true; Run 1 true; Run 0 true; Run 1 false;
           Run 0 true; Run 1 true; Run 0 true; Run 1 true;
           SetStop; Run 0 true; Run 1 true] with
  | Some (s, _) =>
      ops (results s) <= sumZ (map succeeded (pool s)) /\
      errors (results s) <= sumZ (map failed (pool s))
  | None => False
  end.
Proof.
  destruct (Flat.run_concurrency_test 2 10
              [Run 0 true; Run 1 true; Run 0 true; Run 1 false;
               Run 0 true; Run 1 true; Run 0 true; Run 1 true;
               SetStop; Run 0 true; Run 1 true]) as [[s r]|] eqn:E.
  - destruct (counters_never_overcount _ _ _ _ _ E) as (H1 & H2 & _).
    exact (conj H1 H2).
  - vm_compute in E. discriminate E.
Defined.





(** ** More on the retry loop *)

(** X3.  The books of one [_run_batch] call, whatever the store replies:
    with [f] the number of retries used up ([3 - retries]), the call has
    slept exactly [f] times 2 seconds and printed [f] warnings; it has
    made [f] attempts when the budget is used up and [f + 1] otherwise;
    and a used-up budget always ends in the fatal error.  Both scripts
    agree. *)
Theorem run_batch_accounting (B : Type) (db : store B) (query : string)
  (batch : B) (w : world) :
  let r := Flat._run_batch db query batch w in
  let f := (3 - retries_left r)%nat in
  (retries_left r <= 3)%nat /\
  slept (world_after r) = (repeat 2 f ++ slept w)%list /\
  total_sleep (world_after r) = total_sleep w + 2 * Z.of_nat f /\
  attempts (world_after r)
  = (attempts w + f + (if (retries_left r =? 0)%nat then 0 else 1))%nat /\
  List.length (printed (world_after r)) = (List.length (printed w) + f)%nat /\
  (retries_left r = 0%nat ->
   outcome r = Raise (Exception "Failed to import batch after retries")) /\
  Optimized._run_batch db query batch w = r.
Proof.
  cbv zeta. unfold Flat._run_batch, Optimized._run_batch, total_sleep.
  cbn [Flat.retry_loop Optimized.retry_loop].
  destruct (db query batch (attempts w)) as [e1|];
    [destruct (is_transient e1)|];
    cbn [attempts slept printed count_attempt time_sleep print world_after
         retries_left outcome];
    try (repeat split;
         cbn [fold_right repeat app List.length Nat.sub Nat.eqb];
         try lia; try discriminate; fail).
  destruct (db query batch (S (attempts w))) as [e2|];
    [destruct (is_transient e2)|];
    cbn [attempts slept printed count_attempt time_sleep print world_after
         retries_left outcome];
    try (repeat split;
         cbn [fold_right repeat app List.length Nat.sub Nat.eqb];
         try lia; try discriminate; fail).
  destruct (db query batch (S (S (attempts w)))) as [e3|];
    [destruct (is_transient e3)|];
    cbn [attempts slept printed count_attempt time_sleep print world_after
         retries_left outcome];
    repeat split;
    cbn [fold_right repeat app List.length Nat.sub Nat.eqb];
    try lia; try discriminate.
Qed.

(** X4.  When the import of a batch succeeds: [_run_batch] returns
    normally exactly when one of the first three replies of the store is
    a success and every reply before it is a transient error. *)
Theorem run_batch_succeeds_iff (B : Type) (db : store B) (query : string)
  (batch : B) (w : world) :
  outcome (Flat._run_batch db query batch w) = Ok tt <->
  exists k, (k < 3)%nat /\
    db query batch (attempts w + k)%nat = None /\
    forall j, (j < k)%nat ->
      exists e, db query batch (attempts w + j)%nat = Some e /\
                is_transient e = true.
Proof.
  unfold Flat._run_batch. cbn [Flat.retry_loop].
  replace (S (attempts w)) with (attempts w + 1)%nat by lia.
  replace (S (attempts w + 1)) with (attempts w + 2)%nat by lia.
  pose proof (Nat.add_0_r (attempts w)) as E0.
  split.
  - intros H.
    destruct (db query batch (attempts w)) as [e1|] eqn:D1.
    2: { exists 0%nat. rewrite E0. repeat split; [lia|exact D1|lia]. }
    destruct (is_transient e1) eqn:T1; [|discriminate].
    cbn [attempts count_attempt time_sleep print] in H.
    replace (S (attempts w)) with (attempts w + 1)%nat in H by lia.
    destruct (db query batch (attempts w + 1)%nat) as [e2|] eqn:D2.
    2: { exists 1%nat. repeat split; [lia|exact D2|].
         intros j Hj. assert (j = 0)%nat by lia. subst.
         rewrite E0. eauto. }
    destruct (is_transient e2) eqn:T2; [|discriminate].
    cbn [attempts count_attempt time_sleep print] in H.
    replace (S (attempts w + 1)) with (attempts w + 2)%nat in H by lia.
    destruct (db query batch (attempts w + 2)%nat) as [e3|] eqn:D3.
    2: { exists 2%nat. repeat split; [lia|exact D3|].
         intros j Hj. assert (j = 0 \/ j = 1)%nat as [->| ->] by lia.
         - rewrite E0. eauto.
         - eauto. }
    destruct (is_transient e3); discriminate.
  - intros (k & Hk & Hnone & Hbefore).
    assert (k = 0 \/ k = 1 \/ k = 2)%nat as [->|[->| ->]] by lia.
    + rewrite E0 in Hnone. rewrite Hnone. reflexivity.
    + destruct (Hbefore 0%nat ltac:(lia)) as (e & He & Ht).
      rewrite E0 in He. rewrite He, Ht.
      cbn [attempts count_attempt time_sleep print].
      replace (S (attempts w)) with (attempts w + 1)%nat by lia.
      rewrite Hnone. reflexivity.
    + destruct (Hbefore 0%nat ltac:(lia)) as (e & He & Ht).
      destruct (Hbefore 1%nat ltac:(lia)) as (e' & He' & Ht').
      rewrite E0 in He. rewrite He, Ht.
      cbn [attempts count_attempt time_sleep print].
      replace (S (attempts w)) with (attempts w + 1)%nat by lia.
      rewrite He', Ht'.
      cbn [attempts count_attempt time_sleep print].
      replace (S (attempts w + 1)) with (attempts w + 2)%nat by lia.
      rewrite Hnone. reflexivity.
Qed.

(** ** The import phase *)

Lemma print_keeps (line : string) (w : world) :
  attempts (print line w) = attempts w /\ slept (print line w) = slept w.
Proof. split; reflexivity. Qed.

(** The import loop over a generator when every import returns at its
    first attempt. *)
Lemma import_loop_all_ok {A : Type} (body : nat -> A) (count batch_size : Z)
  (import : list A -> world -> ending) (what : string) :
  (forall b w, import b w
               = {| outcome := Ok tt; retries_left := 3;
                    world_after := count_attempt w |}) ->
  forall (fuel remaining i : nat) (batch : list A) (done : Z) (w : world),
    (remaining + 1 < fuel)%nat ->
    (Z.to_nat count - i = remaining)%nat ->
    exists w',
      Flat.import_loop (Flat.next body count batch_size) import what fuel
        (Flat.AtLoop i batch) done w
      = Some (Ok (done + Z.of_nat (List.length
                      (List.concat (Flat.drain body batch_size remaining i batch)))),
              Flat.Finished, w') /\
      attempts w'
      = (attempts w + List.length (Flat.drain body batch_size remaining i batch))%nat /\
      slept w' = slept w.
Proof.
  intros Himp.
  induction fuel as [|fuel IH]; intros remaining i batch done w Hfuel Hrem; [lia|].
  cbn [Flat.import_loop Flat.next]. rewrite Hrem.
  destruct (Flat.resume_loop body batch_size remaining i batch) as [out f] eqn:E.
  destruct (resume_loop_drain _ _ _ _ _ _ _ E)
    as [(b & j & r & -> & -> & Hr & Hj & Hd)|[(b & -> & -> & Hd)|(-> & -> & Hd)]].
  - rewrite Himp. cbn [outcome world_after].
    set (done' := done + Z.of_nat (List.length b)).
    set (w1 := if done' mod 100000 =? 0
               then print (Flat.progress_line done' what) (count_attempt w)
               else count_attempt w).
    assert (Hw1 : attempts w1 = S (attempts w) /\ slept w1 = slept w).
    { subst w1. destruct (done' mod 100000 =? 0); split; reflexivity. }
    destruct (IH r j [] done' w1 ltac:(lia) ltac:(lia)) as (w' & Hrun & Ha & Hs).
    exists w'. rewrite Hrun, Hd. cbn [List.concat List.length].
    rewrite length_app. destruct Hw1 as [Ha1 Hs1].
    split; [|split].
    + replace (done + Z.of_nat (List.length b
                 + List.length (List.concat (Flat.drain body batch_size r j []))))
        with (done' + Z.of_nat (List.length
                 (List.concat (Flat.drain body batch_size r j []))))
        by (subst done'; lia).
      reflexivity.
    + rewrite Ha, Ha1. cbn [List.length]. lia.
    + rewrite Hs, Hs1. reflexivity.
  - rewrite Himp. cbn [outcome world_after].
    destruct fuel as [|fuel']; [lia|].
    cbn [Flat.import_loop Flat.next].
    eexists. rewrite Hd. cbn [List.concat List.length]. rewrite app_nil_r.
    split; [reflexivity|].
    destruct ((done + Z.of_nat (List.length b)) mod 100000 =? 0);
      split; cbn; lia || reflexivity.
  - exists w. rewrite Hd. cbn [List.concat List.length].
    split; [|split; [lia|reflexivity]].
    replace (done + Z.of_nat 0) with done by lia. reflexivity.
Qed.

(** X5.  Import against a store that never fails: both import loops of
    [main] run to the end of their generator, send every batch exactly
    once (one attempt per batch, as many attempts as the generator has
    batches), never sleep, and count exactly the records asked for. *)
Theorem import_all_succeeds (dba : store (list Flat.account))
  (dbt : store (list Flat.transaction)) (g : Flat.DataGenerator)
  (randint : nat -> Z) (random : nat -> R) (batch_size : Z) (fuel : nat)
  (w : world) :
  (forall q b k, dba q b k = None) ->
  (forall q b k, dbt q b k = None) ->
  0 < batch_size ->
  0 <= Flat.num_accounts g ->
  0 <= Flat.num_transactions g ->
  (Z.to_nat (Flat.num_accounts g) + 2 <= fuel)%nat ->
  (Z.to_nat (Flat.num_transactions g) + 2 <= fuel)%nat ->
  (exists w',
      Flat.import_all_accounts dba g randint batch_size fuel w
      = Some (Ok (Flat.num_accounts g), Flat.Finished, w') /\
      attempts w'
      = (attempts w
         + List.length (fst (Flat.consume (Flat.generate_accounts g randint batch_size)
                               fuel Flat.start)))%nat /\
      slept w' = slept w) /\
  (exists w',
      Flat.import_all_transactions dbt g random batch_size fuel w
      = Some (Ok (Flat.num_transactions g), Flat.Finished, w') /\
      attempts w'
      = (attempts w
         + List.length (fst (Flat.consume (Flat.generate_transactions g random batch_size)
                               fuel Flat.start)))%nat /\
      slept w' = slept w).
Proof.
  intros Hdba Hdbt Hbs Ha Ht Hfa Hft. split.
  - destruct (import_loop_all_ok (Flat.account_of g randint) (Flat.num_accounts g)
                batch_size (Flat.import_accounts dba) "accounts"
                ltac:(intros b w0; apply run_batch_first_success; apply Hdba)
                fuel (Z.to_nat (Flat.num_accounts g)) 0%nat [] 0 w
                ltac:(lia) ltac:(lia)) as (w' & Hrun & Hatt & Hs).
    exists w'. split; [|split; [|exact Hs]].
    + unfold Flat.import_all_accounts. unfold Flat.start.
      change (Flat.generate_accounts g randint batch_size)
        with (Flat.next (Flat.account_of g randint) (Flat.num_accounts g) batch_size).
      rewrite Hrun. rewrite drain_concat. cbn [app].
      rewrite length_map, length_seq.
      replace (0 + Z.of_nat (Z.to_nat (Flat.num_accounts g)))
        with (Flat.num_accounts g) by lia.
      reflexivity.
    + change (Flat.generate_accounts g randint batch_size)
        with (Flat.next (Flat.account_of g randint) (Flat.num_accounts g) batch_size).
      unfold Flat.start.
      rewrite (consume_drain _ _ _ fuel (Z.to_nat (Flat.num_accounts g)) 0%nat [])
        by lia.
      exact Hatt.
  - destruct (import_loop_all_ok (Flat.transaction_of g random)
                (Flat.num_transactions g)
                batch_size (Flat.import_transactions dbt) "transactions"
                ltac:(intros b w0; apply run_batch_first_success; apply Hdbt)
                fuel (Z.to_nat (Flat.num_transactions g)) 0%nat [] 0 w
                ltac:(lia) ltac:(lia)) as (w' & Hrun & Hatt & Hs).
    exists w'. split; [|split; [|exact Hs]].
    + unfold Flat.import_all_transactions. unfold Flat.start.
      change (Flat.generate_transactions g random batch_size)
        with (Flat.next (Flat.transaction_of g random) (Flat.num_transactions g)
                batch_size).
      rewrite Hrun. rewrite drain_concat. cbn [app].
      rewrite length_map, length_seq.
      replace (0 + Z.of_nat (Z.to_nat (Flat.num_transactions g)))
        with (Flat.num_transactions g) by lia.
      reflexivity.
    + change (Flat.generate_transactions g random batch_size)
        with (Flat.next (Flat.transaction_of g random) (Flat.num_transactions g)
                batch_size).
      unfold Flat.start.
      rewrite (consume_drain _ _ _ fuel (Z.to_nat (Flat.num_transactions g)) 0%nat [])
        by lia.
      exact Hatt.
Qed.

Lemma import_all_succeeds_witness :
  let dba : store (list Flat.account) := fun _ _ _ => None in
  let g := Flat.mkDataGenerator 5 3 0 in
  exists w',
    Flat.import_all_accounts dba g (fun _ => 7) 2 7 fresh
    = Some (Ok 5, Flat.Finished, w') /\
    attempts w'
    = Nat.add 0 (List.length
                   (fst (Flat.consume (Flat.generate_accounts g (fun _ => 7) 2)
                           7 Flat.start))) /\
    slept w' = [].
Proof.
  exact (proj1 (import_all_succeeds (fun _ _ _ => None) (fun _ _ _ => None)
                  (Flat.mkDataGenerator 5 3 0) (fun _ => 7) (fun _ => 0%R) 2 7 fresh
                  ltac:(reflexivity) ltac:(reflexivity) ltac:(reflexivity)
                  ltac:(discriminate) ltac:(discriminate)
                  ltac:(simpl; lia) ltac:(simpl; lia))).
Defined.

(** The first [next] of a generator with something to generate yields a
    batch and leaves the generator unfinished. *)
Lemma first_batch {A : Type} (body : nat -> A) (count batch_size : Z) :
  0 < count ->
  exists b f,
    Flat.next body count batch_size Flat.start = (Some b, f) /\ f <> Flat.Finished.
Proof.
  intros Hc. unfold Flat.start. cbn [Flat.next].
  destruct (Flat.resume_loop body batch_size (Z.to_nat count - 0) 0 []) as [out f] eqn:E.
  destruct (resume_loop_drain _ _ _ _ _ _ _ E)
    as [(b & j & r & -> & -> & _)|[(b & -> & -> & _)|(_ & _ & Hd)]].
  - eexists. eexists. split; [reflexivity|discriminate].
  - eexists. eexists. split; [reflexivity|discriminate].
  - exfalso.
    pose proof (drain_concat body batch_size (Z.to_nat count - 0) 0 []) as Hc'.
    rewrite Hd in Hc'. cbn [List.concat app] in Hc'.
    apply (f_equal (@List.length A)) in Hc'.
    rewrite length_map, length_seq in Hc'. cbn [List.length] in Hc'. lia.
Qed.

(** The import loop stops at the first batch whose import raises. *)
Lemma import_loop_first_failure {A : Type} (body : nat -> A)
  (count batch_size : Z) (db : store (list A)) (query what : string)
  (e : exn) (fuel : nat) (w : world) :
  (forall q b k, db q b k = Some e) ->
  0 < count ->
  (0 < fuel)%nat ->
  exists f w',
    Flat.import_loop (Flat.next body count batch_size)
      (fun b w => Flat._run_batch db query b w) what fuel Flat.start 0 w
    = Some (Raise (if is_transient e
                   then Exception "Failed to import batch after retries"
                   else e), f, w') /\
    f <> Flat.Finished /\
    attempts w' = (attempts w + (if is_transient e then 3 else 1))%nat /\
    total_sleep w' = total_sleep w + (if is_transient e then 6 else 0).
Proof.
  intros Hdb Hc Hfuel.
  destruct fuel as [|fuel]; [lia|].
  destruct (first_batch body count batch_size Hc) as (b & f & Hnext & Hf).
  cbn [Flat.import_loop]. rewrite Hnext.
  unfold Flat._run_batch, total_sleep.
  destruct (is_transient e) eqn:Et.
  - repeat (cbn [Flat.retry_loop attempts count_attempt time_sleep print];
            rewrite ?Hdb, ?Et).
    cbn [outcome world_after].
    eexists. eexists. split; [reflexivity|]. split; [exact Hf|].
    cbn [attempts slept count_attempt time_sleep print fold_right]. split; lia.
  - cbn [Flat.retry_loop]. rewrite Hdb, Et.
    cbn [outcome world_after].
    eexists. eexists. split; [reflexivity|]. split; [exact Hf|].
    cbn [attempts slept count_attempt]. split; lia.
Qed.

(** X6.  Import against a store that fails every call with the same
    error: the account import loop of [main] stops at the first batch.
    A non-transient error leaves after one attempt and no sleep; a
    transient one after three attempts and six seconds, as the fatal
    error.  No later batch is asked of the generator, which stays
    unfinished: there is no skipping and no partial-batch recovery.  The
    transaction import loop behaves the same. *)
Theorem import_aborts_on_failure (dba : store (list Flat.account))
  (dbt : store (list Flat.transaction)) (g : Flat.DataGenerator)
  (randint : nat -> Z) (random : nat -> R) (batch_size : Z) (fuel : nat)
  (w : world) (e : exn) :
  (forall q b k, dba q b k = Some e) ->
  (forall q b k, dbt q b k = Some e) ->
  0 < Flat.num_accounts g ->
  0 < Flat.num_transactions g ->
  (0 < fuel)%nat ->
  let raised := if is_transient e
                then Exception "Failed to import batch after retries" else e in
  (exists f w',
      Flat.import_all_accounts dba g randint batch_size fuel w
      = Some (Raise raised, f, w') /\
      f <> Flat.Finished /\
      attempts w' = (attempts w + (if is_transient e then 3 else 1))%nat /\
      total_sleep w' = total_sleep w + (if is_transient e then 6 else 0)) /\
  (exists f w',
      Flat.import_all_transactions dbt g random batch_size fuel w
      = Some (Raise raised, f, w') /\
      f <> Flat.Finished /\
      attempts w' = (attempts w + (if is_transient e then 3 else 1))%nat /\
      total_sleep w' = total_sleep w + (if is_transient e then 6 else 0)).
Proof.
  intros Hdba Hdbt Ha Ht Hfuel raised. split.
  - exact (import_loop_first_failure (Flat.account_of g randint)
             (Flat.num_accounts g) batch_size dba _ "accounts" e fuel w
             Hdba Ha Hfuel).
  - exact (import_loop_first_failure (Flat.transaction_of g random)
             (Flat.num_transactions g) batch_size dbt _ "transactions" e fuel w
             Hdbt Ht Hfuel).
Qed.

Lemma import_aborts_on_failure_witness :
  let e := ServiceUnavailable "down" in
  let dba : store (list Flat.account) := fun _ _ _ => Some e in
  let g := Flat.mkDataGenerator 5 3 0 in
  exists f w',
    Flat.import_all_accounts dba g (fun _ => 7) 2 7 fresh
    = Some (Raise (Exception "Failed to import batch after retries"), f, w') /\
    f <> Flat.Finished /\
    attempts w' = 3%nat /\
    total_sleep w' = 6.
Proof.
  exact (proj1 (import_aborts_on_failure
                  (fun _ _ _ => Some (ServiceUnavailable "down"))
                  (fun _ _ _ => Some (ServiceUnavailable "down"))
                  (Flat.mkDataGenerator 5 3 0) (fun _ => 7) (fun _ => 0%R) 2 7 fresh
                  (ServiceUnavailable "down")
                  ltac:(reflexivity) ltac:(reflexivity)
                  ltac:(reflexivity) ltac:(reflexivity) ltac:(lia))).
Defined.

(** ** More on the generators *)

(** Whatever the batch size, a whole run of a generator sees the records
    of all iterations, in order. *)
Lemma consume_all {A : Type} (body : nat -> A) (count batch_size : Z) (fuel : nat) :
  (Z.to_nat count + 2 <= fuel)%nat ->
  Flat.consume (Flat.next body count batch_size) fuel Flat.start
  = (Flat.drain body batch_size (Z.to_nat count) 0 [], Flat.Finished) /\
  List.concat (fst (Flat.consume (Flat.next body count batch_size) fuel Flat.start))
  = map body (seq 0 (Z.to_nat count)).
Proof.
  intros Hfuel.
  assert (H : Flat.consume (Flat.next body count batch_size) fuel Flat.start
              = (Flat.drain body batch_size (Z.to_nat count) 0 [], Flat.Finished)).
  { unfold Flat.start. apply consume_drain; lia. }
  split; [exact H|]. rewrite H. cbn [fst].
  exact (drain_concat body batch_size (Z.to_nat count) 0 []).
Qed.

Lemma ids_nodup (n : nat) : NoDup (map Z.of_nat (seq 0 n)).
Proof.
  apply Finite.Injective_map_NoDup; [|apply seq_NoDup].
  intros a b. apply Nat2Z.inj.
Qed.

(** X7.  The ids of a run: over a whole run of [generate_accounts] the
    account ids are 0, 1, ..., [num_accounts - 1] in this order, each
    once, and likewise the transaction ids of [generate_transactions],
    for every batch size. *)
Theorem generated_ids_dense (g : Flat.DataGenerator) (randint : nat -> Z)
  (random : nat -> R) (batch_size : Z) (fuel : nat) :
  (Z.to_nat (Flat.num_accounts g) + 2 <= fuel)%nat ->
  (Z.to_nat (Flat.num_transactions g) + 2 <= fuel)%nat ->
  let accounts :=
    List.concat (fst (Flat.consume (Flat.generate_accounts g randint batch_size)
                        fuel Flat.start)) in
  let transactions :=
    List.concat (fst (Flat.consume (Flat.generate_transactions g random batch_size)
                        fuel Flat.start)) in
  map Flat.acc_id accounts = map Z.of_nat (seq 0 (Z.to_nat (Flat.num_accounts g))) /\
  NoDup (map Flat.acc_id accounts) /\
  map Flat.id transactions
  = map Z.of_nat (seq 0 (Z.to_nat (Flat.num_transactions g))) /\
  NoDup (map Flat.id transactions).
Proof.
  intros Hfa Hft accounts transactions.
  assert (Ha : map Flat.acc_id accounts
               = map Z.of_nat (seq 0 (Z.to_nat (Flat.num_accounts g)))).
  { subst accounts.
    change (Flat.generate_accounts g randint batch_size)
      with (Flat.next (Flat.account_of g randint) (Flat.num_accounts g) batch_size).
    rewrite (proj2 (consume_all _ _ _ fuel Hfa)).
    rewrite map_map. reflexivity. }
  assert (Ht : map Flat.id transactions
               = map Z.of_nat (seq 0 (Z.to_nat (Flat.num_transactions g)))).
  { subst transactions.
    change (Flat.generate_transactions g random batch_size)
      with (Flat.next (Flat.transaction_of g random) (Flat.num_transactions g)
              batch_size).
    rewrite (proj2 (consume_all _ _ _ fuel Hft)).
    rewrite map_map. reflexivity. }
  split; [exact Ha|]. split; [rewrite Ha; apply ids_nodup|].
  split; [exact Ht|]. rewrite Ht. apply ids_nodup.
Qed.

Lemma generated_ids_dense_witness :
  let g := Flat.mkDataGenerator 5 3 0 in
  let accounts :=
    List.concat (fst (Flat.consume (Flat.generate_accounts g (fun _ => 7) 2)
                        7 Flat.start)) in
  map Flat.acc_id accounts = map Z.of_nat (seq 0 (Z.to_nat 5)) /\
  NoDup (map Flat.acc_id accounts).
Proof.
  intros g accounts.
  destruct (generated_ids_dense g (fun _ => 7) (fun _ => 0%R) 2 7
              ltac:(simpl; lia) ltac:(simpl; lia)) as (H1 & H2 & _).
  exact (conj H1 H2).
Defined.

(** Every record of a run was built by an iteration, whatever the batch
    size. *)
Lemma consumed_record {A : Type} (body : nat -> A) (count batch_size : Z)
  (fuel : nat) (batch : list A) (t : A) :
  (Z.to_nat count + 2 <= fuel)%nat ->
  In batch (fst (Flat.consume (Flat.next body count batch_size) fuel Flat.start)) ->
  In t batch ->
  exists i, (i < Z.to_nat count)%nat /\ t = body i.
Proof.
  intros Hfuel Hb Ht.
  assert (Hin : In t (List.concat
                        (fst (Flat.consume (Flat.next body count batch_size)
                                fuel Flat.start))))
    by (apply in_concat; eauto).
  rewrite (proj2 (consume_all body count batch_size fuel Hfuel)) in Hin.
  apply in_map_iff in Hin as (i & <- & Hi).
  apply in_seq in Hi. exists i. split; [lia|reflexivity].
Qed.

(** X8.  Every account that [generate_accounts] yields is Premium exactly
    when its id is a multiple of 10 and Standard otherwise, carries its
    id in its name, and, the draws of [randint] being in their range, was
    created in the 30 days after [start_time]. *)
Theorem generated_account_shape (g : Flat.DataGenerator) (randint : nat -> Z)
  (batch_size : Z) (fuel : nat) (batch : list Flat.account) (a : Flat.account) :
  (forall k, 0 <= randint k <= 30 * 24 * 3600) ->
  (Z.to_nat (Flat.num_accounts g) + 2 <= fuel)%nat ->
  In batch (fst (Flat.consume (Flat.generate_accounts g randint batch_size)
                   fuel Flat.start)) ->
  In a batch ->
  0 <= Flat.acc_id a < Flat.num_accounts g /\
  (Flat.acc_type a = "Premium" <-> Flat.acc_id a mod 10 = 0) /\
  (Flat.acc_type a = "Standard" <-> Flat.acc_id a mod 10 <> 0) /\
  Flat.acc_name a = Flat.account_name (Flat.acc_id a) /\
  Flat.start_time g <= Flat.acc_created_at a <= Flat.start_time g + 2592000.
Proof.
  intros Hr Hfuel Hb Ha.
  destruct (consumed_record (Flat.account_of g randint) (Flat.num_accounts g)
              batch_size fuel batch a Hfuel Hb Ha) as (i & Hi & ->).
  unfold Flat.account_of.
  cbn [Flat.acc_id Flat.acc_type Flat.acc_name Flat.acc_created_at].
  split; [lia|].
  destruct (Z.of_nat i mod 10 =? 0) eqn:E; cbn [negb].
  - apply Z.eqb_eq in E. repeat split; try tauto; try discriminate;
      try (intros; congruence); try (pose proof (Hr i); lia).
  - apply Z.eqb_neq in E. repeat split; try tauto; try discriminate;
      try (intros; congruence); try (pose proof (Hr i); lia).
Qed.

Lemma generated_account_shape_witness :
  let g := Flat.mkDataGenerator 5 3 1000 in
  let a := Flat.account_of g (fun _ => 7) 0 in
  (Flat.acc_type a = "Premium" <-> Flat.acc_id a mod 10 = 0) /\
  1000 <= Flat.acc_created_at a <= 1000 + 2592000.
Proof.
  intros g a.
  destruct (generated_account_shape g (fun _ => 7) 2 7
              [Flat.account_of g (fun _ => 7) 0; Flat.account_of g (fun _ => 7) 1] a
              ltac:(intros; lia) ltac:(simpl; lia)
              ltac:(left; reflexivity) ltac:(left; reflexivity))
    as (_ & H1 & _ & _ & H2).
  exact (conj H1 H2).
Defined.

Lemma amount_range (u : R) :
  (0 <= u < 1)%R ->
  (1 <= round2_R (Flat.uniform 1 10000 u) <= 10000)%R /\
  exists cents : Z,
    round2_R (Flat.uniform 1 10000 u) = (IZR cents / 100)%R /\
    100 <= cents <= 1000000.
Proof.
  intros [H0 H1]. unfold round2_R, Flat.uniform.
  set (x := ((1 + (10000 - 1) * u) * 100)%R).
  destruct (round_half_even_R_bounds x 100) as [Hlo _].
  destruct (round_half_even_R_bounds x 1000000) as [_ Hhi].
  assert (Hl : 100 <= round_half_even_R x) by (apply Hlo; subst x; lra).
  assert (Hh : round_half_even_R x <= 1000000) by (apply Hhi; subst x; lra).
  apply IZR_le in Hl. apply IZR_le in Hh.
  split; [lra|].
  exists (round_half_even_R x). split; [reflexivity|].
  split; apply le_IZR; assumption.
Qed.

(** X9.  Draws in [[0, 1)] give every yielded transaction an amount
    between 1.00 and 10000.00 that is a whole number of cents. *)
Theorem generated_amount_range (g : Flat.DataGenerator) (random : nat -> R)
  (batch_size : Z) (fuel : nat) (batch : list Flat.transaction)
  (t : Flat.transaction) :
  (forall k, 0 <= random k < 1)%R ->
  (Z.to_nat (Flat.num_transactions g) + 2 <= fuel)%nat ->
  In batch (fst (Flat.consume (Flat.generate_transactions g random batch_size)
                   fuel Flat.start)) ->
  In t batch ->
  (1 <= Flat.amount t <= 10000)%R /\
  (exists cents : Z,
      Flat.amount t = (IZR cents / 100)%R /\ 100 <= cents <= 1000000) /\
  Flat.currency t = "USD" /\ Flat.status t = "COMPLETED".
Proof.
  intros Hr Hfuel Hb Ht.
  destruct (consumed_record (Flat.transaction_of g random) (Flat.num_transactions g)
              batch_size fuel batch t Hfuel Hb Ht) as (i & _ & ->).
  unfold Flat.transaction_of. cbn [Flat.amount Flat.currency Flat.status].
  destruct (amount_range (random (4 * i + 1)%nat) (Hr _)) as [H1 H2].
  repeat split; try apply H1. exact H2.
Qed.

Lemma generated_amount_range_witness :
  let g := Flat.mkDataGenerator 5 1 0 in
  let t := Flat.transaction_of g (fun _ => (1 / 2)%R) 0 in
  (1 <= Flat.amount t <= 10000)%R.
Proof.
  intros g t.
  destruct (generated_amount_range g (fun _ => (1 / 2)%R) 2 3 [t] t
              ltac:(intros; lra) ltac:(simpl; lia)
              ltac:(left; reflexivity) ltac:(left; reflexivity)) as (H & _).
  exact H.
Defined.

(** The number of batches still to come is the number of records still
    to come over the batch size, rounded up. *)
Lemma drain_length {A : Type} (body : nat -> A) (batch_size : Z) :
  0 < batch_size ->
  forall (remaining i : nat) (batch : list A),
    Z.of_nat (List.length batch) < batch_size ->
    Z.of_nat (List.length (Flat.drain body batch_size remaining i batch))
    = (Z.of_nat (List.length batch) + Z.of_nat remaining + batch_size - 1)
      / batch_size.
Proof.
  intros Hbs. induction remaining as [|r IH]; intros i batch Hlen.
  - cbn [Flat.drain]. destruct batch as [|a batch].
    + cbn [List.length]. symmetry. apply Z.div_small. lia.
    + cbn [List.length] in *. change (Z.of_nat 1) with 1.
      apply (Z.div_unique _ _ 1 (Z.of_nat (S (List.length batch)) - 1)); lia.
  - cbn [Flat.drain].
    assert (Hlen' : Z.of_nat (List.length (batch ++ [body i]))
                    = Z.of_nat (List.length batch) + 1).
    { rewrite length_app. cbn [List.length]. lia. }
    rewrite Z.geb_leb.
    destruct (batch_size <=? Z.of_nat (List.length (batch ++ [body i]))) eqn:E.
    + apply Z.leb_le in E. cbn [List.length].
      rewrite Nat2Z.inj_succ, (IH (S i) []) by (cbn [List.length]; lia).
      cbn [List.length].
      replace (Z.of_nat (List.length batch) + Z.of_nat (S r) + batch_size - 1)
        with (Z.of_nat 0 + Z.of_nat r + batch_size - 1 + 1 * batch_size) by lia.
      rewrite Z.div_add by lia. lia.
    + apply Z.leb_gt in E. rewrite IH by lia. f_equal. lia.
Qed.

(** X10.  The number of batches: for a positive batch size a whole run
    of a generator yields [ceil(count / batch_size)] batches, so that many
    store calls are needed to import the records. *)
Theorem generated_batch_count (g : Flat.DataGenerator) (randint : nat -> Z)
  (random : nat -> R) (batch_size : Z) (fuel : nat) :
  0 < batch_size ->
  0 <= Flat.num_accounts g ->
  0 <= Flat.num_transactions g ->
  (Z.to_nat (Flat.num_accounts g) + 2 <= fuel)%nat ->
  (Z.to_nat (Flat.num_transactions g) + 2 <= fuel)%nat ->
  Z.of_nat (List.length
              (fst (Flat.consume (Flat.generate_accounts g randint batch_size)
                      fuel Flat.start)))
  = (Flat.num_accounts g + batch_size - 1) / batch_size /\
  Z.of_nat (List.length
              (fst (Flat.consume (Flat.generate_transactions g random batch_size)
                      fuel Flat.start)))
  = (Flat.num_transactions g + batch_size - 1) / batch_size.
Proof.
  intros Hbs Ha Ht Hfa Hft. split.
  - change (Flat.generate_accounts g randint batch_size)
      with (Flat.next (Flat.account_of g randint) (Flat.num_accounts g) batch_size).
    rewrite (proj1 (consume_all _ _ _ fuel Hfa)). cbn [fst].
    rewrite drain_length by (cbn [List.length]; lia).
    cbn [List.length]. f_equal. lia.
  - change (Flat.generate_transactions g random batch_size)
      with (Flat.next (Flat.transaction_of g random) (Flat.num_transactions g)
              batch_size).
    rewrite (proj1 (consume_all _ _ _ fuel Hft)). cbn [fst].
    rewrite drain_length by (cbn [List.length]; lia).
    cbn [List.length]. f_equal. lia.
Qed.

Lemma generated_batch_count_witness :
  let g := Flat.mkDataGenerator 5 3 0 in
  Z.of_nat (List.length
              (fst (Flat.consume (Flat.generate_accounts g (fun _ => 7) 2)
                      7 Flat.start)))
  = (5 + 2 - 1) / 2.
Proof.
  exact (proj1 (generated_batch_count (Flat.mkDataGenerator 5 3 0) (fun _ => 7)
                  (fun _ => 0%R) 2 7
                  ltac:(reflexivity) ltac:(discriminate) ltac:(discriminate)
                  ltac:(simpl; lia) ltac:(simpl; lia))).
Defined.

Lemma drain_singletons {A : Type} (body : nat -> A) (batch_size : Z) :
  batch_size <= 0 ->
  forall remaining i : nat,
    Flat.drain body batch_size remaining i []
    = map (fun j => [body j]) (seq i remaining).
Proof.
  intros Hbs. induction remaining as [|r IH]; intros i; [reflexivity|].
  cbn [Flat.drain app List.length seq map].
  rewrite Z.geb_leb.
  destruct (batch_size <=? Z.of_nat 1) eqn:E.
  - rewrite IH. reflexivity.
  - apply Z.leb_gt in E. lia.
Qed.

(** X11.  A batch size of zero or less does not stall or empty the
    generators: every record is then yielded alone, in a batch of one. *)
Theorem nonpositive_batch_size (g : Flat.DataGenerator) (randint : nat -> Z)
  (random : nat -> R) (batch_size : Z) (fuel : nat) :
  batch_size <= 0 ->
  (Z.to_nat (Flat.num_accounts g) + 2 <= fuel)%nat ->
  (Z.to_nat (Flat.num_transactions g) + 2 <= fuel)%nat ->
  Flat.consume (Flat.generate_accounts g randint batch_size) fuel Flat.start
  = (map (fun i => [Flat.account_of g randint i])
       (seq 0 (Z.to_nat (Flat.num_accounts g))), Flat.Finished) /\
  Flat.consume (Flat.generate_transactions g random batch_size) fuel Flat.start
  = (map (fun i => [Flat.transaction_of g random i])
       (seq 0 (Z.to_nat (Flat.num_transactions g))), Flat.Finished).
Proof.
  intros Hbs Hfa Hft. split.
  - change (Flat.generate_accounts g randint batch_size)
      with (Flat.next (Flat.account_of g randint) (Flat.num_accounts g) batch_size).
    rewrite (proj1 (consume_all _ _ _ fuel Hfa)).
    rewrite drain_singletons by exact Hbs. reflexivity.
  - change (Flat.generate_transactions g random batch_size)
      with (Flat.next (Flat.transaction_of g random) (Flat.num_transactions g)
              batch_size).
    rewrite (proj1 (consume_all _ _ _ fuel Hft)).
    rewrite drain_singletons by exact Hbs. reflexivity.
Qed.

Lemma nonpositive_batch_size_witness :
  let g := Flat.mkDataGenerator 3 0 0 in
  Flat.consume (Flat.generate_accounts g (fun _ => 7) 0) 5 Flat.start
  = (map (fun i => [Flat.account_of g (fun _ => 7) i]) (seq 0 (Z.to_nat 3)),
     Flat.Finished).
Proof.
  exact (proj1 (nonpositive_batch_size (Flat.mkDataGenerator 3 0 0) (fun _ => 7)
                  (fun _ => 0%R) 0 5
                  ltac:(discriminate) ltac:(simpl; lia) ltac:(simpl; lia))).
Defined.

(** ** The direction of the two skews *)

Lemma int_of_R_mono (x y : R) :
  (0 <= x <= y)%R -> int_of_R x <= int_of_R y.
Proof.
  intros [H0 Hxy]. unfold int_of_R.
  destruct (Rle_dec 0 x) as [_|H]; [|contradiction].
  destruct (Rle_dec 0 y) as [_|H]; [|exfalso; apply H; lra].
  apply Zfloor_le. exact Hxy.
Qed.

Lemma float_pow_nonneg (u s : R) : (0 <= u)%R -> (0 <= float_pow u s)%R.
Proof.
  intros Hu. unfold float_pow.
  destruct (Req_dec_T u 0); [destruct (Req_dec_T s 0); lra|].
  unfold Rpower. left. apply exp_pos.
Qed.

Lemma exp_monotone (x y : R) : (x <= y)%R -> (exp x <= exp y)%R.
Proof.
  intros [H|H]; [left; apply exp_increasing; exact H|right; rewrite H; reflexivity].
Qed.

Lemma ln_monotone (x y : R) : (0 < x)%R -> (x <= y)%R -> (ln x <= ln y)%R.
Proof.
  intros Hx [H|H]; [left; apply ln_increasing; assumption|right; rewrite H; reflexivity].
Qed.

Lemma float_pow_mono (u v s : R) :
  (0 <= u <= v)%R -> (0 < s)%R -> (float_pow u s <= float_pow v s)%R.
Proof.
  intros [H0 Huv] Hs.
  destruct (Req_dec_T u 0) as [Hu|Hu].
  - subst u. assert (E : float_pow 0 s = 0%R).
    { unfold float_pow. destruct (Req_dec_T 0 0); [|lra].
      destruct (Req_dec_T s 0); lra. }
    rewrite E. apply float_pow_nonneg. exact Huv.
  - unfold float_pow.
    destruct (Req_dec_T u 0); [contradiction|].
    destruct (Req_dec_T v 0); [lra|].
    unfold Rpower. apply exp_monotone.
    apply Rmult_le_compat_l; [lra|]. apply ln_monotone; lra.
Qed.

Lemma float_pow_below_base (u s : R) :
  (0 <= u < 1)%R -> (1 <= s)%R -> (float_pow u s <= u)%R.
Proof.
  intros [H0 H1] Hs. unfold float_pow.
  destruct (Req_dec_T u 0) as [Hu|Hu].
  - destruct (Req_dec_T s 0); lra.
  - assert (Hpos : (0 < u)%R) by lra.
    unfold Rpower. rewrite <- (exp_ln u Hpos) at 2. apply exp_monotone.
    assert (Hln : (ln u < 0)%R).
    { rewrite <- ln_1. apply ln_increasing; lra. }
    nra.
Qed.

(** X12.  The popularity skew points to the low ids: for [N > 0]
    accounts the pick grows with the draw, the draw 0 picks account 0,
    and the pick is never above [int(N * u)], the pick that a uniform
    choice would make from the same draw. *)
Theorem pick_skews_low (g : Flat.DataGenerator) (u v : R) :
  0 < Flat.num_accounts g ->
  (0 <= u <= v)%R -> (v < 1)%R ->
  Flat._pick_account_id g u <= Flat._pick_account_id g v /\
  Flat._pick_account_id g u <= int_of_R (IZR (Flat.num_accounts g) * u) /\
  Flat._pick_account_id g 0 = 0.
Proof.
  intros Hn [H0 Huv] Hv.
  assert (HN : (0 < IZR (Flat.num_accounts g))%R) by (apply IZR_lt; exact Hn).
  assert (H2 : (0 < Flat.ZIPF_SKEW)%R) by (unfold Flat.ZIPF_SKEW; lra).
  unfold Flat._pick_account_id, Flat.pick_skewed.
  pose proof (float_pow_nonneg u Flat.ZIPF_SKEW H0) as Hpu.
  split; [|split].
  - apply int_of_R_mono. split; [nra|].
    apply Rmult_le_compat_l; [lra|]. apply float_pow_mono; [lra|exact H2].
  - apply int_of_R_mono. split; [nra|].
    apply Rmult_le_compat_l; [lra|].
    apply float_pow_below_base; [lra|unfold Flat.ZIPF_SKEW; lra].
  - assert (E : float_pow 0 Flat.ZIPF_SKEW = 0%R).
    { unfold float_pow. destruct (Req_dec_T 0 0); [|lra].
      destruct (Req_dec_T Flat.ZIPF_SKEW 0); lra. }
    rewrite E, Rmult_0_r. unfold int_of_R.
    destruct (Rle_dec 0 0); [|lra]. apply (ZfloorZ 0).
Qed.

Lemma pick_skews_low_witness :
  let g := Flat.mkDataGenerator 10 1 0 in
  Flat._pick_account_id g (1 / 4) <= Flat._pick_account_id g (1 / 2) /\
  Flat._pick_account_id g (1 / 4) <= int_of_R (10 * (1 / 4)) /\
  Flat._pick_account_id g 0 = 0.
Proof.
  exact (pick_skews_low (Flat.mkDataGenerator 10 1 0) (1 / 4) (1 / 2)
           ltac:(reflexivity) ltac:(lra) ltac:(lra)).
Defined.

Lemma sqrt_above (u : R) : (0 <= u <= 1)%R -> (u <= sqrt u)%R.
Proof.
  intros [H0 H1].
  assert (Hs : (0 <= sqrt u)%R) by apply sqrt_pos.
  assert (Hs1 : (sqrt u <= 1)%R).
  { rewrite <- sqrt_1. apply sqrt_le_1; lra. }
  pose proof (sqrt_sqrt u H0) as Hsq. nra.
Qed.

(** X13.  The temporal skew points to the end of the year: the offset
    grows with the draw, the draw 0 gives the start of the window, and
    the offset is never below [int(YearSeconds * u)], the offset that a
    uniform spread would give to the same draw. *)
Theorem offset_skews_late (u v : R) :
  (0 <= u <= v)%R -> (v <= 1)%R ->
  Flat.time_offset u <= Flat.time_offset v /\
  int_of_R (IZR Flat.YEAR_SECONDS * u) <= Flat.time_offset u /\
  Flat.time_offset 0 = 0.
Proof.
  intros [H0 Huv] Hv.
  assert (HY : (0 < IZR Flat.YEAR_SECONDS)%R) by (apply IZR_lt; reflexivity).
  unfold Flat.time_offset.
  pose proof (sqrt_pos u) as Hsu.
  split; [|split].
  - apply int_of_R_mono. split; [nra|].
    apply Rmult_le_compat_l; [lra|]. apply sqrt_le_1; lra.
  - apply int_of_R_mono. split; [nra|].
    apply Rmult_le_compat_l; [lra|]. apply sqrt_above. lra.
  - rewrite sqrt_0, Rmult_0_r. unfold int_of_R.
    destruct (Rle_dec 0 0); [|lra]. apply (ZfloorZ 0).
Qed.

Lemma offset_skews_late_witness :
  Flat.time_offset (1 / 4) <= Flat.time_offset (1 / 2) /\
  int_of_R (IZR Flat.YEAR_SECONDS * (1 / 4)) <= Flat.time_offset (1 / 4) /\
  Flat.time_offset 0 = 0.
Proof.
  exact (offset_skews_late (1 / 4) (1 / 2) ltac:(lra) ltac:(lra)).
Defined.

(** ** More on the monitor *)

Lemma round_half_even_Q_bounds (x : Q) (n : Z) :
  ((inject_Z n <= x)%Q -> n <= round_half_even_Q x) /\
  ((x <= inject_Z n)%Q -> round_half_even_Q x <= n).
Proof.
  unfold round_half_even_Q. split; intros H.
  - assert (Hf : n <= Qfloor x).
    { rewrite <- (Qfloor_Z n). apply Qfloor_resp_le. exact H. }
    destruct (x - inject_Z (Qfloor x) ?= 1 # 2)%Q; [destruct (Z.even (Qfloor x))| |]; lia.
  - assert (Hf : Qfloor x <= n).
    { rewrite <- (Qfloor_Z n). apply Qfloor_resp_le. exact H. }
    destruct (Z.eq_dec (Qfloor x) n) as [E|E].
    + assert (Hlt : (x - inject_Z (Qfloor x) < 1 # 2)%Q).
      { rewrite E. apply Qle_lt_trans with (y := 0%Q); [|reflexivity].
        apply (Qplus_le_l _ _ (inject_Z n)). ring_simplify. exact H. }
      destruct (x - inject_Z (Qfloor x) ?= 1 # 2)%Q eqn:C; [| lia |].
      * apply Qeq_alt in C. rewrite C in Hlt. discriminate.
      * apply Qgt_alt in C. exfalso. apply (Qlt_irrefl (1 # 2)).
        eapply Qlt_trans; eassumption.
    + destruct (x - inject_Z (Qfloor x) ?= 1 # 2)%Q;
        [destruct (Z.even (Qfloor x))| |]; lia.
Qed.

(** Rounding to two places keeps a value between two whole numbers. *)
Lemma round2_bounds (x : Q) (lo hi : Z) :
  (inject_Z lo <= x)%Q -> (x <= inject_Z hi)%Q ->
  (inject_Z lo <= round2 x)%Q /\ (round2 x <= inject_Z hi)%Q.
Proof.
  intros Hlo Hhi. unfold round2.
  destruct (round_half_even_Q_bounds (x * 100) (lo * 100)) as [Hl _].
  destruct (round_half_even_Q_bounds (x * 100) (hi * 100)) as [_ Hh].
  assert (H1 : lo * 100 <= round_half_even_Q (x * 100)).
  { apply Hl. rewrite inject_Z_mult. apply Qmult_le_compat_r; [exact Hlo|discriminate]. }
  assert (H2 : round_half_even_Q (x * 100) <= hi * 100).
  { apply Hh. rewrite inject_Z_mult. apply Qmult_le_compat_r; [exact Hhi|discriminate]. }
  set (k := round_half_even_Q (x * 100)) in *.
  split.
  - apply Qle_shift_div_l; [reflexivity|].
    change (inject_Z lo * inject_Z 100 <= inject_Z k)%Q.
    rewrite <- (inject_Z_mult lo 100). rewrite <- Zle_Qle. exact H1.
  - apply Qle_shift_div_r; [reflexivity|].
    change (inject_Z k <= inject_Z hi * inject_Z 100)%Q.
    rewrite <- (inject_Z_mult hi 100). rewrite <- Zle_Qle. exact H2.
Qed.

Lemma round2_nonneg (x : Q) : (0 <= x)%Q -> (0 <= round2 x)%Q.
Proof.
  intros H. unfold round2.
  destruct (round_half_even_Q_bounds (x * 100) 0) as [Hl _].
  assert (H1 : 0 <= round_half_even_Q (x * 100)).
  { apply Hl. apply Qmult_le_0_compat; [exact H|discriminate]. }
  apply Qle_shift_div_l; [reflexivity|].
  rewrite Qmult_0_l. change 0%Q with (inject_Z 0). rewrite <- Zle_Qle. exact H1.
Qed.

(** X14.  Counters that only grow give sane metrics: when the idle ticks
    grew by no more than all ticks, the load reported is between 0 and
    100 percent; a disk throughput is not negative when its byte counter
    did not go down, nor is the memory used when the count of used
    kilobytes is not. *)
Theorem metrics_ranges (s e : snapshot) (r : metrics) :
  Flat.metrics_of s e = Ok r ->
  ((0 <= cpu_idle e - cpu_idle s)%Q ->
   (cpu_idle e - cpu_idle s <= cpu_total e - cpu_total s)%Q ->
   (0 <= cpu_load_percent r)%Q /\ (cpu_load_percent r <= 100)%Q) /\
  (disk_read_bytes s <= disk_read_bytes e -> (0 <= disk_read_mb_s r)%Q) /\
  (disk_write_bytes s <= disk_write_bytes e -> (0 <= disk_write_mb_s r)%Q) /\
  (0 <= mem_used_kb e -> (0 <= memory_used_gb r)%Q).
Proof.
  intros Hr.
  destruct (cpu_load_pct_total s e) as [load Hload].
  rewrite (metrics_of_value s e load Hload) in Hr.
  inversion Hr; subst; clear Hr.
  cbn [cpu_load_percent disk_read_mb_s disk_write_mb_s memory_used_gb].
  destruct (effective_duration_spec s e) as (_ & _ & Hdur).
  assert (Hthru : forall d : Z, 0 <= d ->
             (0 <= round2 (inject_Z d / Flat.effective_duration s e
                           / inject_Z (1024 * 1024)))%Q).
  { intros d Hd. apply round2_nonneg.
    apply Qle_shift_div_l; [reflexivity|]. rewrite Qmult_0_l.
    apply Qle_shift_div_l; [exact Hdur|]. rewrite Qmult_0_l.
    change 0%Q with (inject_Z 0). rewrite <- Zle_Qle. exact Hd. }
  split; [|split; [|split]].
  - intros Hi Hit.
    destruct (cpu_load_pct_spec s e) as [Hpos Hneg].
    destruct (Qlt_le_dec 0 (cpu_total e - cpu_total s)) as [Hlt|Hle].
    + rewrite (Hpos Hlt) in Hload. inversion Hload; subst; clear Hload.
      set (q := ((cpu_idle e - cpu_idle s) / (cpu_total e - cpu_total s))%Q).
      assert (Hq0 : (0 <= q)%Q).
      { subst q. apply Qle_shift_div_l; [exact Hlt|]. rewrite Qmult_0_l. exact Hi. }
      assert (Hq1 : (q <= 1)%Q).
      { subst q. apply Qle_shift_div_r; [exact Hlt|]. rewrite Qmult_1_l. exact Hit. }
      apply (round2_bounds _ 0 100).
      * change (inject_Z 0) with 0%Q.
        apply Qmult_le_0_compat; [discriminate|].
        apply (Qplus_le_l _ _ q). ring_simplify. exact Hq1.
      * change (inject_Z 100) with (100 * 1)%Q.
        apply Qmult_le_l; [reflexivity|].
        apply (Qplus_le_l _ _ q). ring_simplify.
        apply (Qplus_le_l _ _ (-(1))%Q). ring_simplify. exact Hq0.
    + rewrite (Hneg Hle) in Hload. inversion Hload; subst. split; discriminate.
  - intros H. apply Hthru. lia.
  - intros H. apply Hthru. lia.
  - intros H. apply round2_nonneg.
    apply Qle_shift_div_l; [reflexivity|]. rewrite Qmult_0_l.
    change 0%Q with (inject_Z 0). rewrite <- Zle_Qle. exact H.
Qed.

Lemma metrics_ranges_witness :
  let s := mkSnapshot 100 5000 4000 0 0 16000000 0 in
  let e := mkSnapshot 110 6000 4250 20971520 0 16000000 8388608 in
  exists r, Flat.metrics_of s e = Ok r /\
    (0 <= cpu_load_percent r)%Q /\ (cpu_load_percent r <= 100)%Q /\
    (0 <= disk_read_mb_s r)%Q.
Proof.
  intros s e. eexists.
  assert (H : Flat.metrics_of s e = Ok _) by (vm_compute; reflexivity).
  split; [exact H|].
  destruct (metrics_ranges s e _ H) as (H1 & H2 & _).
  destruct (H1 ltac:(discriminate) ltac:(discriminate)) as [Ha Hb].
  split; [exact Ha|]. split; [exact Hb|].
  apply H2. discriminate.
Defined.

(** X15.  [get_metrics] stops the monitor once: after a first call the
    monitor is stopped and has kept its start snapshot, and every later
    call returns the same metrics and the same monitor, whatever the
    counter files and the clock have become; a monitor that was stopped
    already is left as it is. *)
Theorem get_metrics_settles (fs : filesystem) (now : Q) (m m' : monitor)
  (r : metrics) :
  Flat.get_metrics fs now m = Ok (r, m') ->
  start_stats m' = start_stats m /\
  (exists e, end_stats m' = Some e) /\
  (end_stats m <> None -> m' = m) /\
  forall fs' now', Flat.get_metrics fs' now' m' = Ok (r, m').
Proof.
  unfold Flat.get_metrics. intros H.
  destruct (end_stats m) as [e|] eqn:E; cbn [bind] in H.
  - rewrite E in H.
    destruct (Flat.metrics_of (start_stats m) e) as [r0|x] eqn:Em;
      cbn [bind] in H; [|discriminate].
    inversion H; subst; clear H.
    split; [reflexivity|]. split; [eauto|]. split; [reflexivity|].
    intros fs' now'. rewrite E. cbn [bind]. rewrite E, Em. reflexivity.
  - unfold Flat.stop in H.
    destruct (Flat._capture_stats fs now) as [snap|x]; cbn [bind] in H; [|discriminate].
    cbn [end_stats start_stats] in H.
    destruct (Flat.metrics_of (start_stats m) snap) as [r0|x] eqn:Em;
      cbn [bind] in H; [|discriminate].
    inversion H; subst; clear H. cbn [start_stats end_stats].
    split; [reflexivity|]. split; [eauto|]. split; [congruence|].
    intros fs' now'. cbn [bind end_stats start_stats]. rewrite Em. reflexivity.
Qed.

Lemma get_metrics_settles_witness :
  let fs : filesystem := fun _ => None in
  exists r m',
    Flat.get_metrics fs 7 (mkMonitor (mkSnapshot 5 0 0 0 0 0 0) None) = Ok (r, m') /\
    forall fs' now', Flat.get_metrics fs' now' m' = Ok (r, m').
Proof.
  intros fs. eexists. eexists.
  assert (H : Flat.get_metrics fs 7 (mkMonitor (mkSnapshot 5 0 0 0 0 0 0) None)
              = Ok _) by (vm_compute; reflexivity).
  split; [exact H|].
  destruct (get_metrics_settles _ _ _ _ _ H) as (_ & _ & _ & H4).
  exact H4.
Defined.

(** ** The readers of the counter files *)

(** The loop of [_get_mem_info] over lines that do not mention
    [MemAvailable] keeps the available memory it started with. *)
Lemma mem_info_without_available (lines : list string) :
  Forall (fun line => contains "MemAvailable" line = false) lines ->
  forall total avail res,
    Flat.mem_info_of lines total avail = Ok res ->
    snd res = fst res - avail.
Proof.
  induction 1 as [|line lines Hline _ IH]; intros total avail res H.
  - cbn in H. inversion H; subst. reflexivity.
  - cbn [Flat.mem_info_of] in H. rewrite Hline in H.
    destruct (if contains "MemTotal" line then Flat.second_field line else Ok total)
      as [total'|x]; cbn [bind] in H; [|discriminate].
    eapply IH. exact H.
Qed.

(** X16.  A [/proc/meminfo] without a [MemAvailable] line (an old
    kernel): the available memory counts as 0, so the memory reported as
    used is the whole of [MemTotal]. *)
Theorem mem_used_without_available (fs : filesystem) (content : string)
  (total used : Z) :
  fs "/proc/meminfo" = Some content ->
  Forall (fun line => contains "MemAvailable" line = false) (splitlines content) ->
  Flat._get_mem_info fs = Ok (total, used) ->
  used = total.
Proof.
  intros Hfs Hlines H. unfold Flat._get_mem_info, Flat._read_proc_file in H.
  rewrite Hfs in H.
  pose proof (mem_info_without_available _ Hlines _ _ _ H) as E.
  cbn [fst snd] in E. lia.
Qed.

Lemma mem_used_without_available_witness :
  let lf := String "010" "" in
  let content :=
    ("MemTotal:       16000000 kB" ++ lf ++ "MemFree:   100 kB" ++ lf)%string in
  let fs : filesystem := fun _ => Some content in
  Flat._get_mem_info fs = Ok (16000000, 16000000) /\ 16000000 = 16000000.
Proof.
  intros lf content fs.
  assert (H : Flat._get_mem_info fs = Ok (16000000, 16000000))
    by (vm_compute; reflexivity).
  split; [exact H|].
  apply (mem_used_without_available fs content 16000000 16000000 eq_refl);
    [repeat constructor|exact H].
Defined.

(** X17.  Which lines of [/proc/diskstats] count: a line with fewer than
    14 fields, or whose device name contains none of [nvme], [sd], [vd]
    and [xvd], changes nothing, wherever it stands; whatever the lines
    before and after it do, the result is the same without it. *)
Theorem disk_line_ignored (before after : list string) (line : string)
  (read_sectors write_sectors : Z) :
  ((List.length (split line) < 14)%nat \/
   exists name, getitem (split line) 2 = Ok name /\ Flat.is_disk name = false) ->
  Flat.disk_io_of (before ++ line :: after) read_sectors write_sectors
  = Flat.disk_io_of (before ++ after) read_sectors write_sectors.
Proof.
  intros Hline. revert read_sectors write_sectors.
  induction before as [|l before IH]; intros rs ws.
  - cbn [app Flat.disk_io_of].
    destruct Hline as [Hshort|(name & Hname & Hdisk)].
    + apply Nat.ltb_lt in Hshort. rewrite Hshort. reflexivity.
    + destruct (List.length (split line) <? 14)%nat; [reflexivity|].
      rewrite Hname. cbn [bind]. rewrite Hdisk. reflexivity.
  - cbn [app Flat.disk_io_of].
    destruct (List.length (split l) <? 14)%nat; [apply IH|].
    destruct (getitem (split l) 2) as [name|x]; cbn [bind]; [|reflexivity].
    destruct (Flat.is_disk name); [|apply IH].
    destruct (getitem (split l) 5) as [p5|x]; cbn [bind]; [|reflexivity].
    destruct (int_of_string p5) as [r|x]; cbn [bind]; [|reflexivity].
    destruct (getitem (split l) 9) as [p9|x]; cbn [bind]; [|reflexivity].
    destruct (int_of_string p9) as [w|x]; cbn [bind]; [|reflexivity].
    apply IH.
Qed.

Lemma disk_line_ignored_witness :
  Flat.disk_io_of
    ([" 8 0 sda 10 0 2000 5 20 0 3000 7 0 9 12 0 0 0 0"]
     ++ " 7 0 loop0 1 0 8 0 0 0 0 0 0 0 0 0 0 0 0" :: []) 0 0
  = Flat.disk_io_of
      ([" 8 0 sda 10 0 2000 5 20 0 3000 7 0 9 12 0 0 0 0"] ++ []) 0 0.
Proof.
  apply disk_line_ignored. right. exists "loop0". split; reflexivity.
Defined.

(** X18.  Only the first line of [/proc/stat] that starts with [cpu ]
    is read: the lines before it that do not start so are skipped, and
    nothing after it (the per-core lines, anything malformed) is looked
    at.  Without such a line the times are 0 and 0. *)
Theorem cpu_first_line_only (before after : list string) (line : string) :
  Forall (fun l => startswith l "cpu " = false) before ->
  (startswith line "cpu " = true ->
   Flat.cpu_times_of (before ++ line :: after) = Flat.cpu_times_of [line]) /\
  Flat.cpu_times_of before = Ok (0%Q, 0%Q).
Proof.
  induction 1 as [|l before Hl _ [IH1 IH2]].
  - split; [|reflexivity]. intros Hline.
    cbn [app Flat.cpu_times_of]. rewrite Hline. reflexivity.
  - split.
    + intros Hline. cbn [app Flat.cpu_times_of]. rewrite Hl. apply IH1. exact Hline.
    + cbn [Flat.cpu_times_of]. rewrite Hl. exact IH2.
Qed.

Lemma cpu_first_line_only_witness :
  Flat.cpu_times_of (["intr 5"] ++ "cpu  100 0 50 800" :: ["cpu0 x y"])
  = Flat.cpu_times_of ["cpu  100 0 50 800"].
Proof.
  apply (cpu_first_line_only ["intr 5"] ["cpu0 x y"] "cpu  100 0 50 800").
  - repeat constructor.
  - reflexivity.
Defined.

(** A line of [/proc/stat] with a fraction, an exponent and grouped
    digits is read as [float] reads it: nothing is raised, the total is
    1.5 + 2000 + 3000 + 4 and the idle time is 4. *)
Example cpu_line_with_float_literals :
  match Flat.cpu_times_of ["cpu  1.5 2e3 3_000 4"] with
  | Ok (total, idle) => (total == 50055 # 10)%Q /\ (idle == 4)%Q
  | Raise _ => False
  end.
Proof. vm_compute. split; reflexivity. Qed.



(** ** More on the percentiles *)

(** The three items that the computation returns on a non-empty list. *)
Lemma percentiles_items (data : list Q) :
  data <> [] ->
  let n := Z.of_nat (List.length data) in
  exists p50 p90 p99,
    nth_error (sort data) (Z.to_nat (n * 5 / 10)) = Some p50 /\
    nth_error (sort data) (Z.to_nat (n * 9 / 10)) = Some p90 /\
    nth_error (sort data) (Z.to_nat (n * 99 / 100)) = Some p99 /\
    Flat._calc_percentiles data
    = Ok [("p50_ms", p50); ("p90_ms", p90); ("p99_ms", p99)].
Proof.
  intros Hne n.
  assert (Hn : 0 < n).
  { subst n. destruct data; [contradiction|]. cbn [List.length]. lia. }
  assert (Hlen : Z.of_nat (List.length (sort data)) = n).
  { subst n. rewrite sort_length. reflexivity. }
  destruct (getitem_in_range (sort data) (n * 5 / 10)) as (p50 & G50 & N50).
  { rewrite Hlen. split; [apply Z.div_pos; lia|].
    apply Z.div_lt_upper_bound; lia. }
  destruct (getitem_in_range (sort data) (n * 9 / 10)) as (p90 & G90 & N90).
  { rewrite Hlen. split; [apply Z.div_pos; lia|].
    apply Z.div_lt_upper_bound; lia. }
  destruct (getitem_in_range (sort data) (n * 99 / 100)) as (p99 & G99 & N99).
  { rewrite Hlen. split; [apply Z.div_pos; lia|].
    apply Z.div_lt_upper_bound; lia. }
  exists p50, p90, p99. repeat split; try assumption.
  unfold Flat._calc_percentiles.
  destruct data as [|q data']; [contradiction|].
  cbv zeta. rewrite Hlen.
  rewrite !int_of_fraction by lia.
  rewrite G50, G90, G99. reflexivity.
Qed.

(** The last item of an ascending list bounds all the others. *)
Lemma sorted_last_is_max (data : list Q) (top : Q) :
  nth_error (sort data) (List.length data - 1) = Some top ->
  forall x, In x data -> (x <= top)%Q.
Proof.
  intros Htop x Hx.
  assert (Hin : In x (sort data)).
  { eapply Permutation_in; [apply sort_perm|exact Hx]. }
  apply In_nth_error in Hin as [j Hj].
  assert (Hlt : (j < List.length (sort data))%nat).
  { apply nth_error_Some. congruence. }
  rewrite sort_length in Hlt.
  eapply (sorted_nth (sort data) (sort_sorted data)); [|exact Hj|exact Htop]. lia.
Qed.

(** X20.  Small samples: with at most 100 samples the 99th percentile
    returned is the largest sample, and with at most 10 samples the 90th
    percentile is too.  (The multi-hop test takes 100 samples.) *)
Theorem small_sample_percentiles (data : list Q) :
  data <> [] ->
  exists p50 p90 p99,
    Flat._calc_percentiles data
    = Ok [("p50_ms", p50); ("p90_ms", p90); ("p99_ms", p99)] /\
    ((List.length data <= 100)%nat -> forall x, In x data -> (x <= p99)%Q) /\
    ((List.length data <= 10)%nat -> forall x, In x data -> (x <= p90)%Q).
Proof.
  intros Hne.
  destruct (percentiles_items data Hne) as (p50 & p90 & p99 & N50 & N90 & N99 & Hres).
  cbv zeta in *.
  assert (Hn : 0 < Z.of_nat (List.length data)).
  { destruct data; [contradiction|]. cbn [List.length]. lia. }
  exists p50, p90, p99. split; [exact Hres|]. split.
  - intros Hsmall. apply sorted_last_is_max.
    replace (List.length data - 1)%nat
      with (Z.to_nat (Z.of_nat (List.length data) * 99 / 100)); [exact N99|].
    assert (E : Z.of_nat (List.length data) * 99 / 100
                = Z.of_nat (List.length data) - 1).
    { symmetry.
      apply (Z.div_unique _ _ _ (100 - Z.of_nat (List.length data))); lia. }
    rewrite E. lia.
  - intros Hsmall. apply sorted_last_is_max.
    replace (List.length data - 1)%nat
      with (Z.to_nat (Z.of_nat (List.length data) * 9 / 10)); [exact N90|].
    assert (E : Z.of_nat (List.length data) * 9 / 10
                = Z.of_nat (List.length data) - 1).
    { symmetry.
      apply (Z.div_unique _ _ _ (10 - Z.of_nat (List.length data))); lia. }
    rewrite E. lia.
Qed.

Lemma small_sample_percentiles_witness :
  exists p50 p90 p99,
    Flat._calc_percentiles [3; 10; 1; 7; 5]%Q
    = Ok [("p50_ms", p50); ("p90_ms", p90); ("p99_ms", p99)] /\
    forall x, In x [3; 10; 1; 7; 5]%Q -> (x <= p99)%Q.
Proof.
  destruct (small_sample_percentiles [3; 10; 1; 7; 5]%Q ltac:(discriminate))
    as (p50 & p90 & p99 & H & Hmax & _).
  exists p50, p90, p99. split; [exact H|].
  apply Hmax. cbn [List.length]. lia.
Defined.

(** ** The write test *)

(** X21.  The batch of the write test: its ids are [2000000000 + i] for
    [i] below [count], each once, none of them below 2000000000, so none
    is the id of a generated transaction as long as no more than
    2000000000 transactions were generated; and with draws in [[0, 1)]
    both ends of every row are ids of existing accounts. *)
Theorem write_batch_ids (gen g : Flat.DataGenerator) (clock : nat -> Q)
  (random random' : nat -> R) (count batch_size : Z) (fuel : nat) :
  0 < Flat.num_accounts gen ->
  (forall k, 0 <= random k < 1)%R ->
  Flat.num_transactions g <= Flat.OFFSET_ID ->
  (Z.to_nat (Flat.num_transactions g) + 2 <= fuel)%nat ->
  let batch := Flat.write_batch gen clock random count in
  map Flat.w_id batch
  = map (fun i => 2000000000 + Z.of_nat i) (seq 0 (Z.to_nat count)) /\
  NoDup (map Flat.w_id batch) /\
  (forall row, In row batch ->
     2000000000 <= Flat.w_id row /\
     0 <= Flat.w_from_acc row < Flat.num_accounts gen /\
     0 <= Flat.w_to_acc row < Flat.num_accounts gen) /\
  (forall row b t,
     In row batch ->
     In b (fst (Flat.consume (Flat.generate_transactions g random' batch_size)
                  fuel Flat.start)) ->
     In t b ->
     Flat.id t <> Flat.w_id row).
Proof.
  intros Hn Hr Hg Hfuel batch.
  assert (Hids : map Flat.w_id batch
                 = map (fun i => 2000000000 + Z.of_nat i) (seq 0 (Z.to_nat count))).
  { subst batch. unfold Flat.write_batch. rewrite map_map. reflexivity. }
  assert (H2 : (0 < Flat.ZIPF_SKEW)%R) by (unfold Flat.ZIPF_SKEW; lra).
  assert (Hrow : forall row, In row batch ->
             2000000000 <= Flat.w_id row /\
             0 <= Flat.w_from_acc row < Flat.num_accounts gen /\
             0 <= Flat.w_to_acc row < Flat.num_accounts gen).
  { intros row Hin. subst batch. unfold Flat.write_batch in Hin.
    apply in_map_iff in Hin as (i & <- & _).
    unfold Flat.write_row_of, Flat._pick_account_id, Flat.OFFSET_ID.
    cbn [Flat.w_id Flat.w_from_acc Flat.w_to_acc].
    split; [lia|]. split; apply pick_skewed_range; auto. }
  split; [exact Hids|]. split; [|split; [exact Hrow|]].
  - rewrite Hids. apply Finite.Injective_map_NoDup; [|apply seq_NoDup].
    intros a b Hab. lia.
  - intros row b t Hin Hb Ht.
    destruct (consumed_record (Flat.transaction_of g random')
                (Flat.num_transactions g) batch_size fuel b t Hfuel Hb Ht)
      as (i & Hi & ->).
    destruct (Hrow row Hin) as [Hid _].
    unfold Flat.transaction_of. cbn [Flat.id].
    unfold Flat.OFFSET_ID in Hg. lia.
Qed.

Lemma write_batch_ids_witness :
  let gen := Flat.mkDataGenerator 10 3 0 in
  let batch := Flat.write_batch gen (fun _ => 5%Q) (fun _ => (1 / 2)%R) 3 in
  map Flat.w_id batch
  = map (fun i => 2000000000 + Z.of_nat i) (seq 0 (Z.to_nat 3)) /\
  NoDup (map Flat.w_id batch).
Proof.
  intros gen batch.
  destruct (write_batch_ids gen gen (fun _ => 5%Q) (fun _ => (1 / 2)%R)
              (fun _ => 0%R) 3 2 5
              ltac:(reflexivity) ltac:(intros; lra) ltac:(discriminate)
              ltac:(simpl; lia)) as (H1 & H2 & _).
  exact (conj H1 H2).
Defined.

(** ** The latency tests *)

(** The sampling loop against a store that answers every query. *)
Lemma latency_loop_all_ok (db : store Z) (query : string) (accounts : Z)
  (draws : nat -> Z) (perf : nat -> Q) :
  (forall q a k, db q a k = None) ->
  0 < accounts ->
  forall (remaining i : nat) (latencies : list Q) (w : world),
    Flat.latency_loop db query accounts draws perf remaining i latencies w
    = (Ok (latencies
           ++ map (fun j => ((perf (2 * j + 1)%nat - perf (2 * j)%nat) * 1000)%Q)
                (seq i remaining))%list,
       {| attempts := attempts w + remaining;
          slept := slept w;
          printed := printed w |}).
Proof.
  intros Hdb Hacc. induction remaining as [|r IH]; intros i latencies w.
  - cbn [Flat.latency_loop seq map]. rewrite app_nil_r, Nat.add_0_r.
    destruct w; reflexivity.
  - cbn [Flat.latency_loop]. unfold Flat.randint_in.
    destruct (accounts - 1 <? 0) eqn:E; [apply Z.ltb_lt in E; lia|].
    rewrite Hdb, IH. cbn [seq map attempts slept printed count_attempt].
    rewrite <- app_assoc. cbn [app].
    replace (S (attempts w) + r)%nat with (attempts w + S r)%nat by lia.
    reflexivity.
Qed.

(** The percentiles of a non-empty list are ordered and taken from it. *)
Lemma percentiles_from (data : list Q) :
  data <> [] ->
  exists p50 p90 p99,
    Flat._calc_percentiles data
    = Ok [("p50_ms", p50); ("p90_ms", p90); ("p99_ms", p99)] /\
    (p50 <= p90)%Q /\ (p90 <= p99)%Q /\
    In p50 data /\ In p90 data /\ In p99 data.
Proof.
  intros Hne.
  destruct (percentiles_items data Hne) as (p50 & p90 & p99 & N50 & N90 & N99 & Hres).
  cbv zeta in *.
  assert (Hn : 0 < Z.of_nat (List.length data)).
  { destruct data; [contradiction|]. cbn [List.length]. lia. }
  assert (Hin : forall j x, nth_error (sort data) j = Some x -> In x data).
  { intros j x Hj. eapply Permutation_in; [apply Permutation_sym, sort_perm|].
    eapply nth_error_In; exact Hj. }
  exists p50, p90, p99. split; [exact Hres|].
  split; [|split; [|repeat split; eapply Hin; eassumption]].
  - eapply (sorted_nth _ (sort_sorted data)); [|exact N50|exact N90].
    apply Z2Nat.inj_le; try (apply Z.div_pos; lia).
    apply Z.div_le_lower_bound; [lia|].
    pose proof (Z.mul_div_le (Z.of_nat (List.length data) * 5) 10 ltac:(lia)). lia.
  - eapply (sorted_nth _ (sort_sorted data)); [|exact N90|exact N99].
    apply Z2Nat.inj_le; try (apply Z.div_pos; lia).
    apply Z.div_le_lower_bound; [lia|].
    pose proof (Z.mul_div_le (Z.of_nat (List.length data) * 9) 10 ltac:(lia)). lia.
Qed.

(** X22.  The two latency tests.  Asked for no sample they return the
    empty dict without a query.  Over no account they raise the
    [ValueError] of [random.randint] before any query.  Otherwise, against
    a store that answers, they make one query per sample and return three
    ordered percentiles, each of them the time measured around one of the
    queries, in milliseconds. *)
Theorem latency_tests (db : store Z) (accounts samples : Z)
  (draws : nat -> Z) (perf : nat -> Q) (w : world) :
  (forall q a k, db q a k = None) ->
  let measured :=
    map (fun j => ((perf (2 * j + 1)%nat - perf (2 * j)%nat) * 1000)%Q)
      (seq 0 (Z.to_nat samples)) in
  let read := Flat.run_read_latency_test db accounts samples draws perf w in
  let hops := Flat.run_multihop_test db accounts samples draws perf w in
  (samples <= 0 -> read = (Ok [], w) /\ hops = (Ok [], w)) /\
  (0 < samples -> accounts <= 0 ->
   read = (Raise ValueError, w) /\ hops = (Raise ValueError, w)) /\
  (0 < samples -> 0 < accounts ->
   exists p50 p90 p99 w',
     read = (Ok [("p50_ms", p50); ("p90_ms", p90); ("p99_ms", p99)], w') /\
     hops = (Ok [("p50_ms", p50); ("p90_ms", p90); ("p99_ms", p99)], w') /\
     attempts w' = (attempts w + Z.to_nat samples)%nat /\
     (p50 <= p90)%Q /\ (p90 <= p99)%Q /\
     In p50 measured /\ In p90 measured /\ In p99 measured).
Proof.
  intros Hdb measured read hops.
  subst read hops. unfold Flat.run_read_latency_test, Flat.run_multihop_test.
  split; [|split].
  - intros Hs. replace (Z.to_nat samples) with 0%nat by lia. split; reflexivity.
  - intros Hs Ha.
    destruct (Z.to_nat samples) as [|n] eqn:E; [lia|].
    cbn [Flat.latency_loop]. unfold Flat.randint_in.
    destruct (accounts - 1 <? 0) eqn:E'; [|apply Z.ltb_ge in E'; lia].
    split; reflexivity.
  - intros Hs Ha.
    assert (Hne : measured <> []).
    { subst measured. destruct (Z.to_nat samples) eqn:E; [lia|]. discriminate. }
    destruct (percentiles_from measured Hne)
      as (p50 & p90 & p99 & Hres & H1 & H2 & H3 & H4 & H5).
    exists p50, p90, p99,
      {| attempts := attempts w + Z.to_nat samples;
         slept := slept w; printed := printed w |}.
    rewrite !(latency_loop_all_ok db _ accounts draws perf Hdb Ha).
    cbn [app]. fold measured. rewrite Hres.
    repeat split; assumption.
Qed.

Lemma latency_tests_witness :
  let db : store Z := fun _ _ _ => None in
  let perf := fun k : nat => inject_Z (Z.of_nat (k * k)) in
  exists p50 p90 p99 w',
    Flat.run_read_latency_test db 10 3 (fun _ => 4) perf fresh
    = (Ok [("p50_ms", p50); ("p90_ms", p90); ("p99_ms", p99)], w') /\
    attempts w' = 3%nat /\
    (p50 <= p90)%Q /\ (p90 <= p99)%Q.
Proof.
  intros db perf.
  destruct (latency_tests db 10 3 (fun _ => 4) perf fresh ltac:(reflexivity))
    as (_ & _ & H).
  destruct (H ltac:(reflexivity) ltac:(reflexivity))
    as (p50 & p90 & p99 & w' & Hr & _ & Ha & H1 & H2 & _).
  exists p50, p90, p99, w'. repeat split; assumption.
Defined.

(** ** The keys of the temporal hierarchy *)

Lemma digits_from_uint_pos (d : Decimal.uint) :
  forall acc : positive,
    digits_from (Z.pos acc) (NilEmpty.string_of_uint d)
    = Some (Z.pos (Pos.of_uint_acc d acc)).
Proof.
  induction d as [|d IH|d IH|d IH|d IH|d IH|d IH|d IH|d IH|d IH|d IH];
    intros acc; cbn [NilEmpty.string_of_uint digits_from Pos.of_uint_acc];
    [reflexivity|..];
    match goal with
    | |- context [digit_of ?c] =>
        let v := eval vm_compute in (digit_of c) in
        change (digit_of c) with v
    end;
    cbv iota beta;
    match goal with
    | |- digits_from ?z _ = Some (Z.pos (Pos.of_uint_acc _ ?a)) =>
        replace z with (Z.pos a) by lia
    end;
    apply IH.
Qed.

Lemma digits_from_uint (d : Decimal.uint) :
  digits_from 0 (NilEmpty.string_of_uint d) = Some (Z.of_N (Pos.of_uint d)).
Proof.
  induction d as [|d IH|d IH|d IH|d IH|d IH|d IH|d IH|d IH|d IH|d IH];
    cbn [NilEmpty.string_of_uint digits_from Pos.of_uint];
    [reflexivity|..];
    match goal with
    | |- context [digit_of ?c] =>
        let v := eval vm_compute in (digit_of c) in
        change (digit_of c) with v
    end;
    cbv iota beta;
    [exact IH|..];
    match goal with
    | |- digits_from ?z _ = _ =>
        let v := eval vm_compute in z in change z with v
    end;
    rewrite digits_from_uint_pos; reflexivity.
Qed.

(** Reading back the decimal writing of a natural number. *)
Lemma int_of_string_uint (d : Decimal.uint) :
  int_of_string (NilZero.string_of_uint d) = Ok (Z.of_N (Pos.of_uint d)) /\
  digits (NilZero.string_of_uint d) = Some (Z.of_N (Pos.of_uint d)).
Proof.
  pose proof (digits_from_uint d) as H.
  destruct d; cbn [NilZero.string_of_uint NilEmpty.string_of_uint] in *;
    unfold int_of_string, digits; cbn [is_empty];
    try (rewrite H; split; reflexivity).
  split; reflexivity.
Qed.

(** [int(str(n)) = n] *)
Lemma int_of_str (n : Z) : int_of_string (Optimized.str_of_int n) = Ok n.
Proof.
  unfold Optimized.str_of_int.
  destruct n as [|p|p]; [reflexivity| |].
  - cbn [Z.to_int NilZero.string_of_int].
    rewrite (proj1 (int_of_string_uint (Pos.to_uint p))).
    rewrite DecimalPos.Unsigned.of_to. reflexivity.
  - cbn [Z.to_int NilZero.string_of_int].
    unfold int_of_string.
    rewrite (proj2 (int_of_string_uint (Pos.to_uint p))).
    rewrite DecimalPos.Unsigned.of_to. reflexivity.
Qed.

Lemma append_empty_r (s : string) : (s ++ "")%string = s.
Proof. induction s as [|c s IH]; cbn; [|rewrite IH]; reflexivity. Qed.

Lemma append_snoc (cur : string) (c : ascii) (s : string) :
  (snoc cur c ++ s)%string = (cur ++ String c s)%string.
Proof.
  unfold snoc. induction cur as [|a cur IH]; cbn; [|rewrite IH]; reflexivity.
Qed.

(** A string without underscore, character by character. *)
Lemma contains_cons (c : ascii) (s : string) :
  contains "_" (String c s) = false ->
  Ascii.eqb c "_" = false /\ contains "_" s = false.
Proof.
  cbn [contains String.prefix]. intros H.
  apply orb_false_iff in H as [Hc Hs]. split; [|exact Hs].
  destruct (ascii_dec "_" c) as [E|E]; [destruct s; discriminate Hc|].
  apply Ascii.eqb_neq. congruence.
Qed.

Lemma contains_app (a b : string) :
  contains "_" a = false -> contains "_" b = false ->
  contains "_" (a ++ b) = false.
Proof.
  intros Ha Hb. induction a as [|c a IH]; [exact Hb|].
  destruct (contains_cons c a Ha) as [Hc Ha'].
  cbn [append contains String.prefix]. rewrite (IH Ha').
  destruct (ascii_dec "_" c) as [E|]; [|reflexivity].
  subst c. rewrite Ascii.eqb_refl in Hc. discriminate Hc.
Qed.

Lemma split_at_sep (a : string) :
  contains "_" a = false ->
  forall cur rest,
    Optimized.split_on_from "_" cur (a ++ String "_" rest)
    = (cur ++ a)%string :: Optimized.split_on_from "_" "" rest.
Proof.
  induction a as [|c a IH]; intros Ha cur rest.
  - cbn. rewrite append_empty_r. reflexivity.
  - destruct (contains_cons c a Ha) as [Hc Ha'].
    cbn [append Optimized.split_on_from]. rewrite Hc.
    rewrite (IH Ha'), append_snoc. reflexivity.
Qed.

Lemma split_at_end (a : string) :
  contains "_" a = false ->
  forall cur, Optimized.split_on_from "_" cur a = [(cur ++ a)%string].
Proof.
  induction a as [|c a IH]; intros Ha cur.
  - cbn. rewrite append_empty_r. reflexivity.
  - destruct (contains_cons c a Ha) as [Hc Ha'].
    cbn [Optimized.split_on_from]. rewrite Hc.
    rewrite (IH Ha'), append_snoc. reflexivity.
Qed.

Lemma uint_no_underscore (d : Decimal.uint) :
  contains "_" (NilEmpty.string_of_uint d) = false.
Proof.
  induction d; cbn [NilEmpty.string_of_uint]; [reflexivity|..];
    cbn [contains String.prefix];
    rewrite IHd; reflexivity.
Qed.

Lemma str_no_underscore (n : Z) : contains "_" (Optimized.str_of_int n) = false.
Proof.
  unfold Optimized.str_of_int.
  assert (H : forall d, contains "_" (NilZero.string_of_uint d) = false).
  { intros d. pose proof (uint_no_underscore d) as H.
    destruct d; cbn [NilZero.string_of_uint NilEmpty.string_of_uint] in *;
      exact H. }
  destruct n as [|p|p]; cbn [Z.to_int NilZero.string_of_int].
  - reflexivity.
  - apply H.
  - cbn [contains String.prefix]. rewrite H. reflexivity.
Qed.

(** Zeros in front do not change what [int] reads. *)
Lemma int_of_padded (s : string) (n : Z) :
  int_of_string s = Ok n ->
  (String.length s < 2)%nat ->
  int_of_string ("0" ++ s) = Ok n.
Proof.
  intros H Hlen.
  destruct s as [|c s]; [discriminate H|].
  destruct s as [|c' s]; [|cbn in Hlen; lia].
  revert H.
  destruct c as [[|] [|] [|] [|] [|] [|] [|] [|]];
    vm_compute; intros H; try discriminate H; exact H.
Qed.

Lemma format_02d_spec (n : Z) :
  int_of_string (Optimized.format_02d n) = Ok n /\
  contains "_" (Optimized.format_02d n) = false.
Proof.
  unfold Optimized.format_02d.
  destruct (String.length (Optimized.str_of_int n) <? 2)%nat eqn:E.
  - apply Nat.ltb_lt in E. split.
    + apply int_of_padded; [apply int_of_str|exact E].
    + apply (contains_app "0"); [reflexivity|apply str_no_underscore].
  - split; [apply int_of_str|apply str_no_underscore].
Qed.

Lemma getitem_0 {A : Type} (a : A) (l : list A) : getitem (a :: l) 0 = Ok a.
Proof.
  unfold getitem. cbn [Z.ltb Z.compare List.length].
  destruct (Z.of_nat (S (List.length l))) eqn:E; try lia. reflexivity.
Qed.

Lemma getitem_1 {A : Type} (a b : A) (l : list A) : getitem (a :: b :: l) 1 = Ok b.
Proof.
  unfold getitem. cbn [Z.ltb Z.compare List.length].
  destruct (1 <? Z.of_nat (S (S (List.length l)))) eqn:E;
    [reflexivity|apply Z.ltb_ge in E; lia].
Qed.

Lemma getitem_2 {A : Type} (a b c : A) (l : list A) :
  getitem (a :: b :: c :: l) 2 = Ok c.
Proof.
  unfold getitem. cbn [Z.ltb Z.compare List.length].
  destruct (2 <? Z.of_nat (S (S (S (List.length l))))) eqn:E;
    [reflexivity|apply Z.ltb_ge in E; lia].
Qed.

Lemma month_key_fields (dt : Optimized.date) :
  Optimized.split_on "_" (Optimized.month_key dt)
  = [Optimized.str_of_int (Optimized.year dt);
     Optimized.format_02d (Optimized.month dt)].
Proof.
  unfold Optimized.split_on, Optimized.month_key. cbn [append].
  rewrite (split_at_sep _ (str_no_underscore _)).
  rewrite (split_at_end _ (proj2 (format_02d_spec _))). reflexivity.
Qed.

Lemma day_key_fields (dt : Optimized.date) :
  Optimized.split_on "_" (Optimized.day_key dt)
  = [Optimized.str_of_int (Optimized.year dt);
     Optimized.format_02d (Optimized.month dt);
     Optimized.format_02d (Optimized.day dt)].
Proof.
  unfold Optimized.split_on, Optimized.day_key. cbn [append].
  rewrite (split_at_sep _ (str_no_underscore _)).
  rewrite (split_at_sep _ (proj2 (format_02d_spec _))).
  rewrite (split_at_end _ (proj2 (format_02d_spec _))). reflexivity.
Qed.

(** X23.  The keys of the hierarchy read back: for every date the fields
    that [create_temporal_hierarchy] takes out of a month key and of a
    day key with [split('_')] and [int] are the year, month and day the
    key was written from, so the two calls carry the numbers of the date;
    and two dates with the same day key are the same date. *)
Theorem temporal_keys_round_trip (dt dt' : Optimized.date) :
  Optimized.merge_month (Optimized.month_key dt)
  = Ok (Optimized.MergeMonth (Optimized.month_key dt)
          (Optimized.year dt) (Optimized.month dt)) /\
  Optimized.merge_day (Optimized.month_key dt) (Optimized.day_key dt)
  = Ok (Optimized.MergeDay (Optimized.month_key dt) (Optimized.day_key dt)
          (Optimized.year dt) (Optimized.month dt) (Optimized.day dt)) /\
  (Optimized.day_key dt = Optimized.day_key dt' -> dt = dt').
Proof.
  assert (Hm : forall d,
             Optimized.merge_month (Optimized.month_key d)
             = Ok (Optimized.MergeMonth (Optimized.month_key d)
                     (Optimized.year d) (Optimized.month d))).
  { intros d. unfold Optimized.merge_month, Optimized.key_field.
    rewrite month_key_fields, getitem_0, getitem_1. cbn [bind].
    rewrite int_of_str. cbn [bind].
    rewrite (proj1 (format_02d_spec _)). reflexivity. }
  assert (Hd : forall d mk,
             Optimized.merge_day mk (Optimized.day_key d)
             = Ok (Optimized.MergeDay mk (Optimized.day_key d)
                     (Optimized.year d) (Optimized.month d) (Optimized.day d))).
  { intros d mk. unfold Optimized.merge_day, Optimized.key_field.
    rewrite day_key_fields, getitem_0, getitem_1, getitem_2. cbn [bind].
    rewrite int_of_str. cbn [bind].
    rewrite !(proj1 (format_02d_spec _)). reflexivity. }
  split; [apply Hm|]. split; [apply Hd|].
  intros E.
  pose proof (Hd dt "") as H1. pose proof (Hd dt' "") as H2.
  rewrite E in H1. rewrite H1 in H2. inversion H2.
  destruct dt, dt'. cbn in *. congruence.
Qed.

(** ** The calls that build the temporal hierarchy *)

Lemma mapM_Forall2 {A B : Type} (f : A -> result B) (R : A -> B -> Prop)
  (l : list A) :
  Forall (fun a => exists b, f a = Ok b /\ R a b) l ->
  exists r, mapM f l = Ok r /\ Forall2 R l r.
Proof.
  induction 1 as [|a l (b & Hb & HR) _ (r & Hr & HF)].
  - exists []. split; [reflexivity|constructor].
  - exists (b :: r). cbn [mapM]. rewrite Hb. cbn [bind]. rewrite Hr.
    split; [reflexivity|constructor; assumption].
Qed.

Lemma Forall2_In_r {A B : Type} (R : A -> B -> Prop) (l : list A) (r : list B)
  (b : B) :
  Forall2 R l r -> In b r -> exists a, In a l /\ R a b.
Proof.
  induction 1 as [|x y l r Hxy _ IH]; intros Hin; [destruct Hin|].
  destruct Hin as [<-|Hin].
  - exists x. split; [left; reflexivity|exact Hxy].
  - destruct (IH Hin) as (a & Ha & HR). exists a. split; [right; exact Ha|exact HR].
Qed.

Lemma Forall2_In_l {A B : Type} (R : A -> B -> Prop) (l : list A) (r : list B)
  (a : A) :
  Forall2 R l r -> In a l -> exists b, In b r /\ R a b.
Proof.
  induction 1 as [|x y l r Hxy _ IH]; intros Hin; [destruct Hin|].
  destruct Hin as [<-|Hin].
  - exists y. split; [left; reflexivity|exact Hxy].
  - destruct (IH Hin) as (b & Hb & HR). exists b. split; [right; exact Hb|exact HR].
Qed.

Lemma set_add_in (key x : string) (months : list string) :
  In x (Optimized.set_add key months) <-> x = key \/ In x months.
Proof.
  unfold Optimized.set_add.
  destruct (existsb (String.eqb key) months) eqn:E.
  - split; [auto|]. intros [->|H]; [|exact H].
    apply existsb_exists in E as (y & Hy & Hxy).
    apply String.eqb_eq in Hxy. subst. exact Hy.
  - rewrite in_app_iff. cbn [In]. intuition.
Qed.

Lemma insert_key_perm (x : string) (l : list string) :
  Permutation (x :: l) (Optimized.insert_key x l).
Proof.
  induction l as [|y l IH]; cbn [Optimized.insert_key].
  - apply Permutation_refl.
  - destruct (String.leb x y); [apply Permutation_refl|].
    eapply perm_trans; [apply perm_swap|]. apply perm_skip. exact IH.
Qed.

Lemma sorted_keys_perm (l : list string) : Permutation l (Optimized.sorted_keys l).
Proof.
  induction l as [|x l IH]; cbn; [apply perm_nil|].
  eapply perm_trans; [apply perm_skip; exact IH|]. apply insert_key_perm.
Qed.

(** The items of the dict [days], key by key, as pairs. *)
Lemma dict_append_pairs (key dkey : string) (days : list (string * list string)) :
  Permutation
    (flat_map (fun item => map (pair (fst item)) (snd item))
       (Optimized.dict_append key dkey days))
    ((key, dkey)
     :: flat_map (fun item => map (pair (fst item)) (snd item)) days).
Proof.
  induction days as [|[k v] days IH]; cbn [Optimized.dict_append flat_map].
  - apply Permutation_refl.
  - destruct (String.eqb_spec k key) as [->|Hne]; cbn [flat_map fst snd].
    + rewrite map_app. cbn [map]. rewrite <- app_assoc. cbn [app].
      apply Permutation_sym, Permutation_middle.
    + eapply perm_trans; [apply Permutation_app_head; exact IH|].
      apply Permutation_sym, Permutation_middle.
Qed.

Section HierarchyFacts.

Variable fromtimestamp : Z -> Optimized.date.
Variable START_TIME_YEAR_AGO : Z.

Lemma collect_spec (offsets : list nat) :
  forall months days,
    let r := Optimized.collect fromtimestamp START_TIME_YEAR_AGO offsets months days in
    (forall x, In x (fst r) <->
       In x months \/
       exists k, In k offsets /\
         x = Optimized.month_key
               (Optimized.date_at fromtimestamp START_TIME_YEAR_AGO k)) /\
    Permutation
      (flat_map (fun item => map (pair (fst item)) (snd item)) (snd r))
      (flat_map (fun item => map (pair (fst item)) (snd item)) days
       ++ map (fun k =>
                 let dt := Optimized.date_at fromtimestamp START_TIME_YEAR_AGO k in
                 (Optimized.month_key dt, Optimized.day_key dt)) offsets).
Proof.
  induction offsets as [|k offsets IH]; intros months days; cbn [Optimized.collect].
  - cbn [fst snd map In]. rewrite app_nil_r. split.
    + intros x. split; [auto|]. intros [H|(k & [] & _)]. exact H.
    + apply Permutation_refl.
  - cbv zeta in *.
    destruct (IH (Optimized.set_add
                    (Optimized.month_key
                       (Optimized.date_at fromtimestamp START_TIME_YEAR_AGO k)) months)
                (Optimized.dict_append
                   (Optimized.month_key
                      (Optimized.date_at fromtimestamp START_TIME_YEAR_AGO k))
                   (Optimized.day_key
                      (Optimized.date_at fromtimestamp START_TIME_YEAR_AGO k)) days))
      as [Hm Hd].
    split.
    + intros x. rewrite Hm, set_add_in. cbn [In]. split.
      * intros [[->|H]|(j & Hj & ->)]; eauto.
      * intros [H|(j & [<-|Hj] & ->)]; eauto.
    + eapply perm_trans; [exact Hd|]. cbn [map].
      eapply perm_trans;
        [apply Permutation_app_tail; apply dict_append_pairs|].
      cbn [app]. apply Permutation_middle.
Qed.

Lemma merge_day_ok (dt : Optimized.date) (mk : string) :
  Optimized.merge_day mk (Optimized.day_key dt)
  = Ok (Optimized.MergeDay mk (Optimized.day_key dt)
          (Optimized.year dt) (Optimized.month dt) (Optimized.day dt)).
Proof.
  unfold Optimized.merge_day, Optimized.key_field.
  rewrite day_key_fields, getitem_0, getitem_1, getitem_2. cbn [bind].
  rewrite int_of_str. cbn [bind].
  rewrite !(proj1 (format_02d_spec _)). reflexivity.
Qed.

Lemma merge_month_ok (dt : Optimized.date) :
  Optimized.merge_month (Optimized.month_key dt)
  = Ok (Optimized.MergeMonth (Optimized.month_key dt)
          (Optimized.year dt) (Optimized.month dt)).
Proof.
  unfold Optimized.merge_month, Optimized.key_field.
  rewrite month_key_fields, getitem_0, getitem_1. cbn [bind].
  rewrite int_of_str. cbn [bind].
  rewrite (proj1 (format_02d_spec _)). reflexivity.
Qed.

Lemma day_key_injective (dt dt' : Optimized.date) :
  Optimized.day_key dt = Optimized.day_key dt' -> dt = dt'.
Proof.
  intros E. pose proof (merge_day_ok dt "") as H1.
  pose proof (merge_day_ok dt' "") as H2.
  rewrite E in H1. rewrite H1 in H2. inversion H2.
  destruct dt, dt'. cbn in *. congruence.
Qed.

Lemma day_calls_spec (bound : nat) (days : list (string * list string)) :
  Forall (fun p => exists k, (k < bound)%nat /\ p = (Optimized.month_key (Optimized.date_at fromtimestamp START_TIME_YEAR_AGO k), Optimized.day_key (Optimized.date_at fromtimestamp START_TIME_YEAR_AGO k)))
    (flat_map (fun item => map (pair (fst item)) (snd item)) days) ->
  exists calls,
    Optimized.day_calls days = Ok calls /\
    Forall2 (fun p c => exists k, (k < bound)%nat /\ p = (Optimized.month_key (Optimized.date_at fromtimestamp START_TIME_YEAR_AGO k), Optimized.day_key (Optimized.date_at fromtimestamp START_TIME_YEAR_AGO k)) /\ c = Optimized.day_call fromtimestamp START_TIME_YEAR_AGO k)
      (flat_map (fun item => map (pair (fst item)) (snd item)) days) calls.
Proof.
  unfold Optimized.day_calls.
  induction days as [|[mk dks] days IH]; intros H.
  - exists []. split; [reflexivity|constructor].
  - cbn [flat_map fst snd] in H. apply Forall_app in H as [Hhere Hrest].
    destruct (IH Hrest) as (calls & Hcalls & HF).
    destruct (mapM (fun item => mapM (Optimized.merge_day (fst item)) (snd item)) days)
      as [groups|x] eqn:Eg; cbn [bind] in Hcalls; [|discriminate].
    inversion Hcalls; subst calls; clear Hcalls.
    destruct (mapM_Forall2 (Optimized.merge_day mk)
                (fun dk c => exists k, (k < bound)%nat /\ (mk, dk) = (Optimized.month_key (Optimized.date_at fromtimestamp START_TIME_YEAR_AGO k), Optimized.day_key (Optimized.date_at fromtimestamp START_TIME_YEAR_AGO k)) /\
                                       c = Optimized.day_call fromtimestamp START_TIME_YEAR_AGO k) dks)
      as (here & Hhere_ok & HF_here).
    { clear - Hhere. induction dks as [|dk dks IH']; [constructor|].
      cbn [map] in Hhere. inversion Hhere as [|? ? (k & Hk & Hp) Htl]; subst.
      constructor; [|apply IH'; exact Htl].
      exists (Optimized.day_call fromtimestamp START_TIME_YEAR_AGO k). split; [|eauto].
      inversion Hp; subst. apply merge_day_ok. }
    exists (here ++ List.concat groups)%list. split.
    + cbn [mapM fst snd]. rewrite Hhere_ok. cbn [bind].
      rewrite Eg. cbn [bind List.concat]. reflexivity.
    + cbn [flat_map fst snd]. apply Forall2_app; [|exact HF].
      clear - HF_here. induction HF_here; cbn [map]; constructor; auto.
Qed.

(** X24.  What [create_temporal_hierarchy] sends to a store that answers,
    whatever the calendar of the host: it never fails on its own keys;
    it first merges the months and then the days; the months merged are
    exactly those of the 365 instants one day apart from the start, the
    days merged are exactly the days of these instants, one call per
    instant, each with the year, month and day of its date; the month
    that a day is linked to has always been merged before; and no day is
    merged for a date that is none of these instants' dates. *)
Theorem hierarchy_calls :
  exists months_part days_part,
    Optimized.create_temporal_hierarchy fromtimestamp START_TIME_YEAR_AGO
    = Ok (months_part ++ days_part)%list /\
    (forall c, In c months_part <-> exists k, (k < 365)%nat /\ c = Optimized.month_call fromtimestamp START_TIME_YEAR_AGO k) /\
    (forall c, In c days_part <-> exists k, (k < 365)%nat /\ c = Optimized.day_call fromtimestamp START_TIME_YEAR_AGO k) /\
    List.length days_part = 365%nat /\
    (forall mk dk y m d,
        In (Optimized.MergeDay mk dk y m d) days_part ->
        In (Optimized.MergeMonth mk y m) months_part) /\
    (forall dt,
        (forall k, (k < 365)%nat ->
           dt <> Optimized.date_at fromtimestamp START_TIME_YEAR_AGO k) ->
        forall mk y m d,
          ~ In (Optimized.MergeDay mk (Optimized.day_key dt) y m d) days_part).
Proof.
  unfold Optimized.create_temporal_hierarchy.
  pose proof (collect_spec (seq 0 365) [] []) as Hc. cbv zeta in Hc.
  destruct (Optimized.collect fromtimestamp START_TIME_YEAR_AGO (seq 0 365) [] [])
    as [months days] eqn:Ecollect.
  cbn [fst snd flat_map app] in Hc. destruct Hc as [Hmonths Hpairs].
  assert (Hmonths' : forall x, In x (Optimized.sorted_keys months) <->
             exists k, (k < 365)%nat /\
               x = Optimized.month_key
                     (Optimized.date_at fromtimestamp START_TIME_YEAR_AGO k)).
  { intros x. split.
    - intros H. apply (Permutation_in _ (Permutation_sym (sorted_keys_perm months))) in H.
      apply Hmonths in H as [[]|(k & Hk & ->)].
      apply in_seq in Hk. exists k. split; [lia|reflexivity].
    - intros (k & Hk & ->).
      apply (Permutation_in _ (sorted_keys_perm months)).
      apply Hmonths. right. exists k. split; [apply in_seq; lia|reflexivity]. }
  destruct (mapM_Forall2 Optimized.merge_month
              (fun mk c => exists k, (k < 365)%nat /\ c = Optimized.month_call fromtimestamp START_TIME_YEAR_AGO k /\
                 mk = Optimized.month_key
                        (Optimized.date_at fromtimestamp START_TIME_YEAR_AGO k))
              (Optimized.sorted_keys months))
    as (months_part & Hmp & HFm).
  { apply Forall_forall. intros mk Hin.
    apply Hmonths' in Hin as (k & Hk & ->).
    exists (Optimized.month_call fromtimestamp START_TIME_YEAR_AGO k). split; [apply merge_month_ok|eauto]. }
  destruct (day_calls_spec 365 days) as (days_part & Hdp & HFd).
  { eapply Permutation_Forall; [apply Permutation_sym; exact Hpairs|].
    apply Forall_forall. intros p Hp. apply in_map_iff in Hp as (k & <- & Hk).
    apply in_seq in Hk. exists k. split; [lia|reflexivity]. }
  exists months_part, days_part.
  rewrite Hmp. cbn [bind]. rewrite Hdp. cbn [bind].
  assert (Hin_months : forall c, In c months_part <->
             exists k, (k < 365)%nat /\ c = Optimized.month_call fromtimestamp START_TIME_YEAR_AGO k).
  { intros c. split.
    - intros Hin.
      destruct (Forall2_In_r _ _ _ _ HFm Hin) as (mk & _ & k & Hk & -> & _). eauto.
    - intros (k & Hk & ->).
      assert (Hin : In (Optimized.month_key (Optimized.date_at fromtimestamp START_TIME_YEAR_AGO k)) (Optimized.sorted_keys months))
        by (apply Hmonths'; eauto).
      destruct (Forall2_In_l _ _ _ _ HFm Hin) as (c & Hc & k' & _ & -> & E).
      unfold Optimized.month_call in *. cbv zeta in *.
      pose proof (merge_month_ok (Optimized.date_at fromtimestamp START_TIME_YEAR_AGO k)) as H1.
      pose proof (merge_month_ok (Optimized.date_at fromtimestamp START_TIME_YEAR_AGO k')) as H2.
      rewrite E in H1. rewrite H1 in H2. injection H2 as Hy Hm.
      rewrite E, Hy, Hm. exact Hc. }
  assert (Hin_days : forall c, In c days_part <->
             exists k, (k < 365)%nat /\ c = Optimized.day_call fromtimestamp START_TIME_YEAR_AGO k).
  { intros c. split.
    - intros Hin.
      destruct (Forall2_In_r _ _ _ _ HFd Hin) as (p & _ & k & Hk & _ & ->). eauto.
    - intros (k & Hk & ->).
      assert (Hin : In (Optimized.month_key (Optimized.date_at fromtimestamp START_TIME_YEAR_AGO k), Optimized.day_key (Optimized.date_at fromtimestamp START_TIME_YEAR_AGO k))
                      (flat_map (fun item => map (pair (fst item)) (snd item)) days)).
      { apply (Permutation_in _ (Permutation_sym Hpairs)).
        apply in_map_iff. exists k. split; [reflexivity|apply in_seq; lia]. }
      destruct (Forall2_In_l _ _ _ _ HFd Hin) as (c & Hc & k' & _ & E & ->).
      inversion E as [[E1 E2]]. apply day_key_injective in E2.
      unfold Optimized.day_call in *. cbv zeta in *.
      rewrite <- E2 in Hc. exact Hc. }
  split; [reflexivity|]. split; [exact Hin_months|]. split; [exact Hin_days|].
  split; [|split].
  - rewrite <- (Forall2_length HFd).
    rewrite (Permutation_length Hpairs), length_map, length_seq. reflexivity.
  - intros mk dk y m d Hin.
    apply Hin_days in Hin as (k & Hk & E).
    unfold Optimized.day_call in E. cbv zeta in E. inversion E; subst.
    apply Hin_months. exists k. split; [exact Hk|reflexivity].
  - intros dt Hdt mk y m d Hin.
    apply Hin_days in Hin as (k & Hk & E).
    unfold Optimized.day_call in E. cbv zeta in E. injection E as _ E _ _ _.
    apply day_key_injective in E. exact (Hdt k Hk E).
Qed.

End HierarchyFacts.
